(** * APIWatch monitoring engine: probe executor, incident tracker,
      check cycle, WebSocket fan-out and monitor registry.

    A shallow embedding of

    - [app/workers/health_checker.py]: [HealthCheckExecutor.check_api],
      [save_health_check], [handle_incident], [perform_health_check],
      [check_all_active_monitors];
    - [app/websocket/manager.py]: [WebSocketManager.connect], [disconnect],
      [send_personal_message], [broadcast];
    - [app/api/websocket.py]: [websocket_endpoint];
    - [app/schemas/monitor.py] and [app/api/monitors.py]: [MonitorCreate],
      [MonitorUpdate], [create_monitor], [get_monitor], [update_monitor],
      [delete_monitor];
    - [app/api/metrics.py]: [verify_monitor_access], [get_incidents];
    - the rows of [app/models]: [APIMonitor], [HealthCheck], [Incident].

    Conventions.

    - A [datetime] is a [Z]: microseconds on one time line (the resolution of
      Python's [datetime]); a [timedelta] is a difference of two of them.
      Whether the database hands back timezone-aware values for its
      [DateTime(timezone=True)] columns is a property of the backend (see
      [Backend]); [datetime.utcnow()] is naive.
    - A [str] is the string of its UTF-8 bytes; [str_len] counts its
      characters.
    - Python code that may raise returns a [result]; [try ... except] is
      [try_except].  The exceptions of the model are instances of
      [Exception]; signals that are only [BaseException] (task cancellation,
      interpreter exit) are outside it.
    - The database is taken to be reachable.  A commit fails only where the
      backend refuses the row (a foreign key without its row, a text the
      column cannot hold, a [NULL] in a required column); then nothing of
      it is stored.  A table is the
      list of its rows in insertion order, with the sequence that hands out
      the next primary key.
    - A coroutine is first given run alone.  Where others can come in at
      its awaits and change what it works on, a second definition has them:
      [broadcast_live] for [broadcast], [check_all_active_monitors_gather]
      for the workflows of a cycle.
    - Calls to [logger] have no effect on the state and are left out. *)

From Stdlib Require Import ZArith List String Ascii Bool Lia Permutation.
From Stdlib Require Import Decimal DecimalString.
Import ListNotations.

Open Scope string_scope.
Open Scope Z_scope.

(* ------------------------------------------------------------------ *)
(** ** Exceptions and the error monad *)

(** The exception classes the code names or can meet.  [httpx]'s transport
    errors are listed with their two families: the subclasses of
    [httpx.TimeoutException] and those of [httpx.NetworkError]. *)
Inductive exc_class : Type :=
| ConnectTimeout | ReadTimeout | WriteTimeout | PoolTimeout
| TimeoutException
| ConnectError | ReadError | WriteError | CloseError
| NetworkError
| ProtocolError | ProxyError | UnsupportedProtocol
| DecodingError | TooManyRedirects | InvalidURL
| ValueError | RuntimeError | MultipleResultsFound
| TypeError | DBAPIError
| OtherException.

(** An exception instance: its class and [str(e)]. *)
Record exception : Type := mkExc { exc_type : exc_class; exc_str : string }.

(** [isinstance(e, httpx.TimeoutException)]. *)
Definition is_TimeoutException (e : exception) : bool :=
  match exc_type e with
  | TimeoutException | ConnectTimeout | ReadTimeout | WriteTimeout
  | PoolTimeout => true
  | _ => false
  end.

(** [isinstance(e, httpx.NetworkError)]. *)
Definition is_NetworkError (e : exception) : bool :=
  match exc_type e with
  | NetworkError | ConnectError | ReadError | WriteError | CloseError => true
  | _ => false
  end.

Inductive result (A : Type) : Type :=
| Ok (a : A)
| Raise (e : exception).

Arguments Ok {A} a.
Arguments Raise {A} e.

Definition bind {A B : Type} (c : result A) (k : A -> result B) : result B :=
  match c with
  | Ok a => k a
  | Raise e => Raise e
  end.

(** [try: body  except Exception as e: handler(e)]. *)
Definition try_except {A : Type} (body : result A)
  (handler : exception -> result A) : result A :=
  match body with
  | Ok a => Ok a
  | Raise e => handler e
  end.

Declare Scope py_scope.
Delimit Scope py_scope with py.
Notation "x <- c ;; k" := (bind c (fun x => k))
  (at level 61, c at next level, right associativity) : py_scope.
Notation "' p <- c ;; k" := (bind c (fun p => k))
  (at level 61, p pattern, c at next level, right associativity) : py_scope.
Open Scope py_scope.

(** [str(n)] of a Python [int]. *)
Definition str_int (n : Z) : string := NilZero.string_of_int (Z.to_int n).

(** A byte that continues a character of UTF-8: [10xxxxxx]. *)
Definition is_continuation (c : ascii) : bool :=
  match c with
  | Ascii _ _ _ _ _ _ b6 b7 => b7 && negb b6
  end.

(** [len(s)]: the characters of the string, one per byte that does not
    continue another. *)
Fixpoint str_len (s : string) : nat :=
  match s with
  | EmptyString => 0%nat
  | String c s' => ((if is_continuation c then 0 else 1) + str_len s')%nat
  end.

(** Whether the string holds the character NUL. *)
Fixpoint has_nul (s : string) : bool :=
  match s with
  | EmptyString => false
  | String c s' => Ascii.eqb c Ascii.zero || has_nul s'
  end.

(* ------------------------------------------------------------------ *)
(** ** The rows of [app/models] *)

Inductive HTTPMethod : Type :=
| GET | POST | PUT | PATCH | DELETE | HEAD | OPTIONS.

(** [HTTPMethod.value]. *)
Definition HTTPMethod_value (m : HTTPMethod) : string :=
  match m with
  | GET => "GET" | POST => "POST" | PUT => "PUT" | PATCH => "PATCH"
  | DELETE => "DELETE" | HEAD => "HEAD" | OPTIONS => "OPTIONS"
  end.

Definition Headers : Type := list (string * string).

Module APIMonitor.
Record t : Type := mk {
  id : Z;
  user_id : Z;
  name : string;
  url : string;
  method : HTTPMethod;
  headers : option Headers;
  expected_status : Z;
  check_interval : Z;
  timeout : Z;
  is_active : bool
}.
End APIMonitor.

Module HealthCheck.
Record t : Type := mk {
  id : Z;
  monitor_id : Z;
  status_code : option Z;
  response_time : option Z;
  is_up : bool;
  error_message : option string;
  checked_at : Z
}.
End HealthCheck.

Module Incident.
Record t : Type := mk {
  id : Z;
  monitor_id : Z;
  started_at : Z;
  resolved_at : option Z;
  duration : option Z;
  alert_sent : bool
}.

(** The [is_resolved] and [is_ongoing] properties of the model class. *)
Definition is_resolved (i : t) : bool :=
  match resolved_at i with Some _ => true | None => false end.

Definition is_ongoing (i : t) : bool :=
  match resolved_at i with Some _ => false | None => true end.
End Incident.

(* ------------------------------------------------------------------ *)
(** ** [HealthCheckExecutor.check_api] *)

(** [httpx.Timeout]: the four budgets of one request, in seconds. *)
Module httpx.
Record Timeout : Type := mkTimeout {
  connect : Z;
  read : Z;
  write : Z;
  pool : Z
}.

(** [httpx.Timeout(timeout, connect=c)]: the keyword replaces the default,
    the other three budgets take [timeout]. *)
Definition Timeout_of (timeout : Z) (connect_kw : option Z) : Timeout :=
  {| connect := match connect_kw with Some c => c | None => timeout end;
     read := timeout;
     write := timeout;
     pool := timeout |}.
End httpx.

Record Response : Type := mkResponse { resp_status_code : Z }.

(** [self.client.request(method=, url=, headers=, timeout=)]: the network is
    outside the program, so the client is given as what it answers. *)
Definition Client : Type :=
  string -> string -> Headers -> httpx.Timeout -> result Response.

(** The dictionary [check_api] returns; its four keys are fixed.
    [response_time] is in hundredths of a millisecond (the two decimals
    [round(_, 2)] keeps). *)
Record CheckResult : Type := mkResult {
  status_code : option Z;
  response_time : option Z;
  is_up : bool;
  error_message : option string
}.

(** The integer nearest to the rational [n / d] ([0 < d]), a tie going to
    the even one. *)
Definition round_half_even (n d : Z) : Z :=
  let q := n / d in
  let r := n mod d in
  if 2 * r <? d then q
  else if d <? 2 * r then q + 1
  else if Z.even q then q else q + 1.

(** The rational [n / (d * 2^e)] as a fraction of integers. *)
Definition scale (n d e : Z) : Z * Z :=
  if 0 <=? e then (n, d * 2 ^ e) else (n * 2 ^ (- e), d).

(** The [float] nearest to the positive rational [n / d]: its mantissa [m]
    and exponent [e], the number being [m * 2^e] with [2^52 <= m < 2^53]
    (binary64, round to nearest, ties to even; the times of a probe are in
    the normal range). *)
Definition to_double (n d : Z) : Z * Z :=
  let k0 := Z.log2 n - Z.log2 d in
  let '(n0, d0) := scale n d k0 in
  let k := if d0 <=? n0 then k0 else k0 - 1 in
  let e := k - 52 in
  let '(n1, d1) := scale n d e in
  let m := round_half_even n1 d1 in
  if m =? 2 ^ 53 then (2 ^ 52, e + 1) else (m, e).

(** [round(td.total_seconds() * 1000, 2)] for a [timedelta] of [us > 0]
    microseconds, in hundredths: [total_seconds()] is the float nearest to
    [us / 10**6], the product with 1000 is rounded to a float again, and
    [round(x, 2)] is the number of two decimals nearest to the exact value
    of that float. *)
Definition round2_ms_pos (us : Z) : Z :=
  let '(m1, e1) := to_double us 1000000 in
  let '(n, d) := scale (m1 * 1000) 1 (- e1) in
  let '(m2, e2) := to_double n d in
  let '(n', d') := scale (m2 * 100) 1 (- e2) in
  round_half_even n' d'.

(** [round(response_time_ms, 2)] of a time of [us] microseconds, in
    hundredths of a millisecond.  The arithmetic of floats is symmetric
    in the sign. *)
Definition round2_ms (us : Z) : Z :=
  match us with
  | 0 => 0
  | Zpos _ => round2_ms_pos us
  | Zneg _ => - round2_ms_pos (- us)
  end.

(** The timeout of the probe request: [httpx.Timeout(monitor.timeout,
    connect=5.0)]. *)
Definition request_timeout (monitor : APIMonitor.t) : httpx.Timeout :=
  httpx.Timeout_of (APIMonitor.timeout monitor) (Some 5).

(** The schema's bound on [timeout]: [Field(ge=1, le=60)]. *)
Definition timeout_in_bound (monitor : APIMonitor.t) : Prop :=
  1 <= APIMonitor.timeout monitor <= 60.

(** The [except] clauses of [check_api], tried in order; [result0] is the
    dictionary as the [try] block left it. *)
Definition check_api_except (monitor : APIMonitor.t) (result0 : CheckResult)
  (e : exception) : result CheckResult :=
  if is_TimeoutException e then
    Ok {| status_code := status_code result0;
          response_time := response_time result0;
          is_up := is_up result0;
          error_message :=
            Some ("Request timeout after "
                  ++ str_int (APIMonitor.timeout monitor) ++ "s") |}
  else if is_NetworkError e then
    Ok {| status_code := status_code result0;
          response_time := response_time result0;
          is_up := is_up result0;
          error_message := Some ("Network error: " ++ exc_str e) |}
  else
    Ok {| status_code := status_code result0;
          response_time := response_time result0;
          is_up := is_up result0;
          error_message := Some ("Unexpected error: " ++ exc_str e) |}.

(** [headers = monitor.headers or {}]. *)
Definition request_headers (monitor : APIMonitor.t) : Headers :=
  match APIMonitor.headers monitor with
  | Some h => h
  | None => []
  end.

(** The body of the [try] block.  The request is the only statement of it
    that raises: the dictionary is written after the response has arrived,
    so an exception always finds it as initialised. *)
Definition check_api_try (client : Client) (monitor : APIMonitor.t)
  (start_time end_time : Z) : result CheckResult :=
  let headers := request_headers monitor in
  let timeout := request_timeout monitor in
  response <- client (HTTPMethod_value (APIMonitor.method monitor))
                (APIMonitor.url monitor) headers timeout ;;
  let response_time_us := end_time - start_time in
  let up := resp_status_code response =? APIMonitor.expected_status monitor in
  Ok {| status_code := Some (resp_status_code response);
        response_time := Some (round2_ms response_time_us);
        is_up := up;
        error_message :=
          if negb up then
            Some ("Expected status "
                  ++ str_int (APIMonitor.expected_status monitor)
                  ++ ", got " ++ str_int (resp_status_code response))
          else None |}.

(** [check_api]: [start_time] and [end_time] are the two readings of
    [datetime.utcnow()]. *)
Definition check_api (client : Client) (monitor : APIMonitor.t)
  (start_time end_time : Z) : result CheckResult :=
  let result0 := {| status_code := None; response_time := None;
                    is_up := false; error_message := None |} in
  try_except (check_api_try client monitor start_time end_time)
    (check_api_except monitor result0).

(* ------------------------------------------------------------------ *)
(** ** The database *)

Record Database : Type := mkDb {
  api_monitors : list APIMonitor.t;
  health_checks : list HealthCheck.t;
  health_checks_seq : Z;
  incidents : list Incident.t;
  incidents_seq : Z
}.

(** The tables as [create_all] leaves them, with [monitors] registered. *)
Definition empty_db (monitors : list APIMonitor.t) : Database :=
  {| api_monitors := monitors;
     health_checks := []; health_checks_seq := 1;
     incidents := []; incidents_seq := 1 |}.

(** What the code cannot know of the database it talks to.  A backend may
    hand back timezone-aware datetimes for a [DateTime(timezone=True)]
    column (PostgreSQL) or naive ones (SQLite); it may or may not enforce
    foreign keys; it may or may not refuse a text that is longer than its
    [String(n)] column or holds NUL. *)
Record Backend : Type := mkBackend {
  tz_aware : bool;
  enforces_fk : bool;
  enforces_text : bool
}.

Definition sqlite : Backend :=
  {| tz_aware := false; enforces_fk := false; enforces_text := false |}.

Definition postgresql : Backend :=
  {| tz_aware := true; enforces_fk := true; enforces_text := true |}.

(** What one call finds outside the program: the two clocks it reads,
    [func.now()] (the database server's clock behind every
    [server_default]) and [datetime.utcnow()], and the backend. *)
Record Clocks : Type := mkClocks {
  func_now : Z;
  utcnow : Z;
  backend : Backend
}.

(** Whether [api_monitors] has a row of this key: the target of the
    foreign keys [health_checks.monitor_id] and [incidents.monitor_id]. *)
Definition registered (db : Database) (monitor_id : Z) : bool :=
  existsb (fun m => APIMonitor.id m =? monitor_id) (api_monitors db).

(** Whether the backend lets a row that refers to [monitor_id] in. *)
Definition fk_ok (b : Backend) (db : Database) (monitor_id : Z) : bool :=
  negb (enforces_fk b) || registered db monitor_id.

(** Whether a [String(limit)] column of the backend takes the text. *)
Definition column_ok (b : Backend) (limit : nat) (s : string) : bool :=
  negb (enforces_text b) || ((str_len s <=? limit)%nat && negb (has_nul s)).

(** The error of a commit the backend refuses ([IntegrityError],
    [DataError] or another [DBAPIError]); its text is the driver's. *)
Definition commit_refused : exception :=
  mkExc DBAPIError "the backend refused the row".

(** [save_health_check]: one row appended to [health_checks], when the
    backend takes it: its monitor must be there for the foreign key, and
    [error_message] must fit [String(1024)]. *)
Definition save_health_check (db : Database) (clk : Clocks) (monitor_id : Z)
  (r : CheckResult) : result (Database * HealthCheck.t) :=
  let health_check :=
    {| HealthCheck.id := health_checks_seq db;
       HealthCheck.monitor_id := monitor_id;
       HealthCheck.status_code := status_code r;
       HealthCheck.response_time := response_time r;
       HealthCheck.is_up := is_up r;
       HealthCheck.error_message := error_message r;
       HealthCheck.checked_at := func_now clk |} in
  if fk_ok (backend clk) db monitor_id
     && match error_message r with
        | Some msg => column_ok (backend clk) 1024 msg
        | None => true
        end
  then
    Ok ({| api_monitors := api_monitors db;
           health_checks := health_checks db ++ [health_check];
           health_checks_seq := health_checks_seq db + 1;
           incidents := incidents db;
           incidents_seq := incidents_seq db |},
        health_check)
  else Raise commit_refused.

(* ------------------------------------------------------------------ *)
(** ** [handle_incident] *)

(** [.where(Incident.monitor_id == monitor.id,
            Incident.resolved_at.is_(None))]. *)
Definition ongoing_for (monitor_id : Z) (i : Incident.t) : bool :=
  (Incident.monitor_id i =? monitor_id) && Incident.is_ongoing i.

(** [.order_by(Incident.started_at.desc())], as an insertion sort. *)
Fixpoint insert_desc (i : Incident.t) (l : list Incident.t)
  : list Incident.t :=
  match l with
  | [] => [i]
  | j :: l' =>
      if Incident.started_at j <? Incident.started_at i
      then i :: j :: l'
      else j :: insert_desc i l'
  end.

Definition order_by_started_at_desc (l : list Incident.t)
  : list Incident.t :=
  fold_right insert_desc [] l.

(** The open incidents of a monitor, in table order. *)
Definition open_incidents (db : Database) (monitor_id : Z)
  : list Incident.t :=
  filter (ongoing_for monitor_id) (incidents db).

(** The rows the query of [handle_incident] selects. *)
Definition select_ongoing (db : Database) (monitor_id : Z)
  : list Incident.t :=
  order_by_started_at_desc (open_incidents db monitor_id).

(** [Result.scalar_one_or_none()]: no row, the one row, or
    [MultipleResultsFound]. *)
Definition scalar_one_or_none {A : Type} (rows : list A)
  : result (option A) :=
  match rows with
  | [] => Ok None
  | [r] => Ok (Some r)
  | _ :: _ :: _ =>
      Raise (mkExc MultipleResultsFound
               "Multiple rows were found when one or none was required")
  end.

(** [int((now - started_at).total_seconds())]: whole seconds, the fraction
    cut off toward zero. *)
Definition duration_seconds (now started : Z) : Z :=
  Z.quot (now - started) 1000000.

(** The commit of a changed ORM object: the row of its primary key is
    replaced. *)
Definition update_incident (i : Incident.t) (rows : list Incident.t)
  : list Incident.t :=
  map (fun r => if Incident.id r =? Incident.id i then i else r) rows.

(** [Incident(monitor_id=monitor.id, alert_sent=False)] once added,
    committed and refreshed: the key comes from the sequence, [started_at]
    from its [server_default], the nullable columns are [NULL]. *)
Definition new_incident (db : Database) (clk : Clocks)
  (monitor : APIMonitor.t) : Incident.t :=
  {| Incident.id := incidents_seq db;
     Incident.monitor_id := APIMonitor.id monitor;
     Incident.started_at := func_now clk;
     Incident.resolved_at := None;
     Incident.duration := None;
     Incident.alert_sent := false |}.

(** [ongoing_incident] after [resolved_at = now] and
    [duration = int((now - started_at).total_seconds())]. *)
Definition resolved_incident (now : Z) (ongoing : Incident.t) : Incident.t :=
  {| Incident.id := Incident.id ongoing;
     Incident.monitor_id := Incident.monitor_id ongoing;
     Incident.started_at := Incident.started_at ongoing;
     Incident.resolved_at := Some now;
     Incident.duration :=
       Some (duration_seconds now (Incident.started_at ongoing));
     Incident.alert_sent := Incident.alert_sent ongoing |}.

(** The database with its [incidents] table and sequence replaced. *)
Definition with_incidents (db : Database) (rows : list Incident.t)
  (seq : Z) : Database :=
  {| api_monitors := api_monitors db;
     health_checks := health_checks db;
     health_checks_seq := health_checks_seq db;
     incidents := rows;
     incidents_seq := seq |}.

(** The [TypeError] of [now - ongoing_incident.started_at] when the start
    came back timezone-aware: [now] is naive. *)
Definition naive_minus_aware : exception :=
  mkExc TypeError "can't subtract offset-naive and offset-aware datetimes".

(** [handle_incident].  The insertion is committed when the backend finds
    the monitor of the foreign key.  The resolution subtracts the stored
    start from [datetime.utcnow()] before anything is committed, which
    raises when the backend handed the start back timezone-aware. *)
Definition handle_incident (db : Database) (clk : Clocks)
  (monitor : APIMonitor.t) (is_up : bool)
  : result (Database * option Incident.t) :=
  ongoing_incident <-
    scalar_one_or_none (select_ongoing db (APIMonitor.id monitor)) ;;
  if negb is_up then
    match ongoing_incident with
    | None =>
        let incident := new_incident db clk monitor in
        if fk_ok (backend clk) db (APIMonitor.id monitor) then
          Ok (with_incidents db (incidents db ++ [incident])
                (incidents_seq db + 1),
              Some incident)
        else Raise commit_refused
    | Some _ => Ok (db, None)
    end
  else
    match ongoing_incident with
    | Some ongoing =>
        let now := utcnow clk in
        if tz_aware (backend clk) then Raise naive_minus_aware
        else
          let resolved := resolved_incident now ongoing in
          Ok (with_incidents db (update_incident resolved (incidents db))
                (incidents_seq db),
              Some resolved)
    | None => Ok (db, None)
    end.

(** The database after a call, an exception leaving it as it was. *)
Definition db_after (db : Database)
  (r : result (Database * option Incident.t)) : Database :=
  match r with
  | Ok (db', _) => db'
  | Raise _ => db
  end.

(** One call of the tracker: the clocks it reads, the monitor and the
    [is_up] of the result. *)
Definition Call : Type := (Clocks * APIMonitor.t * bool)%type.

(** A sequence of calls, oldest first. *)
Fixpoint run (db : Database) (calls : list Call) : Database :=
  match calls with
  | [] => db
  | (clk, monitor, up) :: rest =>
      run (db_after db (handle_incident db clk monitor up)) rest
  end.

(** The calls that feed the results [rs] of one monitor, each with the
    clocks read while it is handled. *)
Definition replay (monitor : APIMonitor.t) (rs : list (Clocks * bool))
  : list Call :=
  map (fun r => (fst r, monitor, snd r)) rs.

(** Primary keys are unique and below the sequence. *)
Definition ids_unique (db : Database) : Prop :=
  NoDup (map Incident.id (incidents db))
  /\ Forall (fun i => Incident.id i < incidents_seq db) (incidents db).

(** At most one open incident per monitor. *)
Definition one_open (db : Database) : Prop :=
  forall monitor_id, (List.length (open_incidents db monitor_id) <= 1)%nat.

(** What [handle_incident] writes into a resolved row. *)
Definition duration_truncated (i : Incident.t) : Prop :=
  forall r,
    Incident.resolved_at i = Some r ->
    Incident.duration i = Some (duration_seconds r (Incident.started_at i)).


(** The invariant of the [incidents] table. *)
Definition incidents_ok (db : Database) : Prop :=
  ids_unique db /\ one_open db /\ Forall duration_truncated (incidents db).

(** The state of a monitor's tracker as the table shows it: [Up] (no open
    incident) after a passing result, [Down] (one open incident) after a
    failing one. *)
Definition tracker_state (db : Database) (monitor_id : Z) (up : bool)
  : Prop :=
  if up then open_incidents db monitor_id = []
  else exists o, open_incidents db monitor_id = [o].

(* ------------------------------------------------------------------ *)
(** ** [WebSocketManager] *)

(** A connection is known by its identity: [WebSocket] objects compare
    equal only to themselves. *)
Definition WebSocket : Type := Z.

(** A JSON object as its keys and values. *)
Definition Message : Type := list (string * string).

(** [websocket.send_json(message)], given as what it does: return, or raise
    when the peer is gone; during one broadcast a connection answers every
    call on it alike. *)
Definition Wire : Type := WebSocket -> Message -> result unit.

Record WebSocketManager : Type := mkManager {
  active_connections : list WebSocket
}.

(** [WebSocketManager()]. *)
Definition ws_manager_init : WebSocketManager :=
  {| active_connections := [] |}.

(** [x in l]. *)
Definition list_contains (x : WebSocket) (l : list WebSocket) : bool :=
  existsb (Z.eqb x) l.

(** [l.remove(x)]: the first occurrence goes; [ValueError] when there is
    none. *)
Fixpoint list_remove (x : WebSocket) (l : list WebSocket)
  : result (list WebSocket) :=
  match l with
  | [] => Raise (mkExc ValueError "list.remove(x): x not in list")
  | y :: l' =>
      if x =? y then Ok l'
      else l'' <- list_remove x l' ;; Ok (y :: l'')
  end.

(** The list without the first occurrence of [x], if any: what
    [if x in l: l.remove(x)] leaves. *)
Fixpoint remove_first (x : WebSocket) (l : list WebSocket)
  : list WebSocket :=
  match l with
  | [] => []
  | y :: l' => if x =? y then l' else y :: remove_first x l'
  end.

(** [connect]: [accepted] is what [websocket.accept()] does. *)
Definition connect (accepted : result unit) (self : WebSocketManager)
  (websocket : WebSocket) : result WebSocketManager :=
  _ <- accepted ;;
  Ok {| active_connections := active_connections self ++ [websocket] |}.

Definition disconnect (self : WebSocketManager) (websocket : WebSocket)
  : result WebSocketManager :=
  if list_contains websocket (active_connections self) then
    l <- list_remove websocket (active_connections self) ;;
    Ok {| active_connections := l |}
  else Ok self.

(** [send_personal_message]: a failed sending unregisters the
    connection. *)
Definition send_personal_message (wire : Wire) (self : WebSocketManager)
  (message : Message) (websocket : WebSocket) : result WebSocketManager :=
  try_except (_ <- wire websocket message ;; Ok self)
    (fun _ => disconnect self websocket).

(** The first loop of [broadcast]: the calls of [send_json] in order, each
    with whether it returned, and the list [disconnected]. *)
Fixpoint broadcast_send (wire : Wire) (message : Message)
  (conns : list WebSocket) : list (WebSocket * bool) * list WebSocket :=
  match conns with
  | [] => ([], [])
  | connection :: rest =>
      let '(calls, disconnected) := broadcast_send wire message rest in
      match wire connection message with
      | Ok _ => ((connection, true) :: calls, disconnected)
      | Raise _ => ((connection, false) :: calls, connection :: disconnected)
      end
  end.

(** The second loop of [broadcast]. *)
Fixpoint disconnect_all (self : WebSocketManager)
  (disconnected : list WebSocket) : result WebSocketManager :=
  match disconnected with
  | [] => Ok self
  | connection :: rest =>
      self' <- disconnect self connection ;;
      disconnect_all self' rest
  end.

(** [broadcast] run alone, no other coroutine changing
    [active_connections] while it is suspended in a sending: the manager
    afterwards and the calls of [send_json] made.  [broadcast_live] below
    is the function with the other coroutines. *)
Definition broadcast (wire : Wire) (self : WebSocketManager)
  (message : Message) : result (WebSocketManager * list (WebSocket * bool)) :=
  match active_connections self with
  | [] => Ok (self, [])
  | _ :: _ =>
      let '(calls, disconnected) :=
        broadcast_send wire message (active_connections self) in
      self' <- disconnect_all self disconnected ;;
      Ok (self', calls)
  end.

(** What another coroutine does to the manager while [broadcast] is
    suspended in [await connection.send_json(message)]: the endpoint of a
    new client registers it ([connect], once its [accept] has returned),
    the endpoint of a client that left unregisters it ([disconnect]). *)
Inductive manager_op : Type :=
| OpConnect (websocket : WebSocket)
| OpDisconnect (websocket : WebSocket).

Definition apply_op (self : WebSocketManager) (op : manager_op)
  : WebSocketManager :=
  match op with
  | OpConnect websocket =>
      match connect (Ok tt) self websocket with
      | Ok self' => self'
      | Raise _ => self
      end
  | OpDisconnect websocket =>
      match disconnect self websocket with
      | Ok self' => self'
      | Raise _ => self
      end
  end.

(** The first loop of [broadcast] on the live list.
    [for connection in self.active_connections] reads the list by
    position: each round takes the element at the next index of the list
    as it then is, and the loop ends when the index has reached the
    length.  [during] gives, sending by sending, what the other coroutines
    do to the manager while that sending is awaited; once [during] is used
    up the loop runs on undisturbed.  The result is the calls of
    [send_json], the list [disconnected], and the manager as the loop
    leaves it. *)
Fixpoint broadcast_send_live (wire : Wire) (message : Message)
  (during : list (list manager_op)) (index : nat) (self : WebSocketManager)
  : list (WebSocket * bool) * list WebSocket * WebSocketManager :=
  match during with
  | [] =>
      let '(calls, disconnected) :=
        broadcast_send wire message (skipn index (active_connections self)) in
      (calls, disconnected, self)
  | ops :: during' =>
      match nth_error (active_connections self) index with
      | None => ([], [], self)
      | Some connection =>
          let sent := wire connection message in
          let self1 := fold_left apply_op ops self in
          let '(calls, disconnected, self') :=
            broadcast_send_live wire message during' (S index) self1 in
          match sent with
          | Ok _ => ((connection, true) :: calls, disconnected, self')
          | Raise _ =>
              ((connection, false) :: calls, connection :: disconnected, self')
          end
      end
  end.

(** [broadcast] among other coroutines.  The second loop has no [await]
    and runs undisturbed. *)
Definition broadcast_live (wire : Wire) (self : WebSocketManager)
  (message : Message) (during : list (list manager_op))
  : result (WebSocketManager * list (WebSocket * bool)) :=
  match active_connections self with
  | [] => Ok (self, [])
  | _ :: _ =>
      let '(calls, disconnected, self1) :=
        broadcast_send_live wire message during 0 self in
      self' <- disconnect_all self1 disconnected ;;
      Ok (self', calls)
  end.

(** No other coroutine touches the manager during the broadcast. *)
Definition undisturbed (during : list (list manager_op)) : Prop :=
  Forall (fun ops => ops = []) during.

(** The connections a list of calls delivered to, and those it tried. *)
Definition delivered_to (calls : list (WebSocket * bool)) : list WebSocket :=
  map fst (filter snd calls).

Definition attempted (calls : list (WebSocket * bool)) : list WebSocket :=
  map fst calls.

(** Whether [send_json] to [w] returns. *)
Definition sends (wire : Wire) (message : Message) (w : WebSocket) : bool :=
  match wire w message with
  | Ok _ => true
  | Raise _ => false
  end.

(* ------------------------------------------------------------------ *)
(** ** The check cycle *)

(** What lies outside one monitor's check: the HTTP client's answer, the
    two readings of the clock around the request, and the clocks read and
    the backend met while the result is stored. *)
Record ProbeEnv : Type := mkProbeEnv {
  client : Client;
  start_time : Z;
  end_time : Z;
  clocks : Clocks
}.

(** The process: the database, the global [ws_manager], and the messages
    [ws_manager.broadcast] has been called with so far. *)
Record World : Type := mkWorld {
  database : Database;
  ws_manager : WebSocketManager;
  broadcasts : list Message
}.

(** [ws_manager.broadcast(message)] on the global manager. *)
Definition ws_broadcast (wire : Wire) (w : World) (message : Message)
  : World :=
  {| database := database w;
     ws_manager :=
       match broadcast wire (ws_manager w) message with
       | Ok (self', _) => self'
       | Raise _ => ws_manager w
       end;
     broadcasts := broadcasts w ++ [message] |}.

(** [perform_health_check]: probe, store, track; any exception ends the
    workflow of this monitor and is logged.  What was committed before
    stays: a refused health check leaves nothing and skips the incident
    handling, a failed incident handling leaves the health check. *)
Definition perform_health_check (env : ProbeEnv) (monitor : APIMonitor.t)
  (w : World) : World :=
  match check_api (client env) monitor (start_time env) (end_time env) with
  | Raise _ => w
  | Ok r =>
      match save_health_check (database w) (clocks env)
              (APIMonitor.id monitor) r with
      | Raise _ => w
      | Ok (db1, _) =>
          let db2 :=
            db_after db1 (handle_incident db1 (clocks env) monitor (is_up r)) in
          {| database := db2;
             ws_manager := ws_manager w;
             broadcasts := broadcasts w |}
      end
  end.

(** [check_all_active_monitors].  [asyncio.gather] runs the workflows
    concurrently; they are taken here one by one in the order of the
    query, which is one of the interleavings.
    [check_all_active_monitors_gather] has them all. *)
Definition check_all_active_monitors (env : APIMonitor.t -> ProbeEnv)
  (w : World) : World :=
  let monitors := filter APIMonitor.is_active (api_monitors (database w)) in
  match monitors with
  | [] => w
  | _ :: _ =>
      fold_left (fun w' monitor => perform_health_check (env monitor) monitor w')
        monitors w
  end.

(* ------------------------------------------------------------------ *)
(** ** Sample data *)

(** The monitor of the schema's example, with a given [timeout]. *)
Definition sample_monitor (timeout : Z) : APIMonitor.t :=
  {| APIMonitor.id := 1;
     APIMonitor.user_id := 1;
     APIMonitor.name := "Production API";
     APIMonitor.url := "https://api.example.com/health";
     APIMonitor.method := GET;
     APIMonitor.headers := None;
     APIMonitor.expected_status := 200;
     APIMonitor.check_interval := 60;
     APIMonitor.timeout := timeout;
     APIMonitor.is_active := true |}.

(** A client that answers every request with the status [code]. *)
Definition client_status (code : Z) : Client :=
  fun _ _ _ _ => Ok {| resp_status_code := code |}.

(** A client that answers 200 to a request carrying the header, and 401
    to any other. *)
Definition client_requiring (name value : string) : Client :=
  fun _ _ headers _ =>
    if existsb (fun h => String.eqb (fst h) name && String.eqb (snd h) value)
         headers
    then Ok {| resp_status_code := 200 |}
    else Ok {| resp_status_code := 401 |}.

(** The monitor of the schema's example with its [Authorization]
    header. *)
Definition token_monitor : APIMonitor.t :=
  {| APIMonitor.id := 1;
     APIMonitor.user_id := 1;
     APIMonitor.name := "Production API";
     APIMonitor.url := "https://api.example.com/health";
     APIMonitor.method := GET;
     APIMonitor.headers := Some [("Authorization", "Bearer token123")];
     APIMonitor.expected_status := 200;
     APIMonitor.check_interval := 60;
     APIMonitor.timeout := 10;
     APIMonitor.is_active := true |}.

(** A client on which every request raises [e]. *)
Definition client_raising (e : exception) : Client :=
  fun _ _ _ _ => Raise e.

(** A wire on which [send_json] raises for the connections of [gone]. *)
Definition wire_failing (gone : list WebSocket) : Wire :=
  fun w _ =>
    if list_contains w gone
    then Raise (mkExc RuntimeError "Cannot call send once a close message has been sent.")
    else Ok tt.

(** The message of a completed cycle. *)
Definition stats_updated (timestamp : string) : Message :=
  [("type", "stats_updated"); ("timestamp", timestamp)].


(** Clocks that agree on [t], on a backend that returns naive datetimes
    and enforces nothing. *)
Definition at_time (t : Z) : Clocks :=
  {| func_now := t; utcnow := t; backend := sqlite |}.

(** The same on a backend that returns timezone-aware datetimes and
    enforces its constraints. *)
Definition at_time_aware (t : Z) : Clocks :=
  {| func_now := t; utcnow := t; backend := postgresql |}.

(** Scenario A: results 500, 500, 200 one minute apart. *)
Definition scenario_A : list (Clocks * bool) :=
  [(at_time 0, false); (at_time 60000000, false); (at_time 120000000, true)].

(** A monitor that fails and passes again a second and a half later. *)
Definition down_then_up : list (Clocks * bool) :=
  [(at_time 0, false); (at_time 1500000, true)].


Definition sample_db : Database := empty_db [sample_monitor 10].

(** A process with the sample monitor registered and two subscribers. *)
Definition sample_world : World :=
  {| database := sample_db;
     ws_manager := {| active_connections := [1; 2] |};
     broadcasts := [] |}.

(** An environment in which every probe is answered with 200. *)
Definition env_all_up : APIMonitor.t -> ProbeEnv :=
  fun _ => {| client := client_status 200;
              start_time := 0; end_time := 123456;
              clocks := at_time 200000 |}.

(* ------------------------------------------------------------------ *)
(** ** Further vocabulary for the worker *)

(** All incidents of a monitor, open or resolved, in table order. *)
Definition incidents_of (db : Database) (monitor_id : Z)
  : list Incident.t :=
  filter (fun i => Incident.monitor_id i =? monitor_id) (incidents db).

(** The number of changes from passing to failing in a sequence of
    results, [up] being the state before the first of them. *)
Fixpoint down_transitions (up : bool) (rs : list bool) : nat :=
  match rs with
  | [] => 0%nat
  | b :: rs' =>
      ((if up && negb b then 1 else 0) + down_transitions b rs')%nat
  end.

(* ------------------------------------------------------------------ *)
(** ** The workflows of a cycle among each other *)

(** What a workflow does to the database, between its awaits: it stores
    its health check, and then handles its incident.  (The query and the
    commit of [handle_incident] are two awaits; what the workflows of other
    monitors do between them touches neither the rows the query read nor
    the row the commit writes, so the two are taken as one step, at the
    commit.) *)
Inductive cycle_step : Type :=
| Save (monitor : APIMonitor.t)
| Handle (monitor : APIMonitor.t).

(** The steps of [perform_health_check(monitor)], in order. *)
Definition workflow (monitor : APIMonitor.t) : list cycle_step :=
  [Save monitor; Handle monitor].

(** The list with its element at [index] replaced. *)
Fixpoint set_nth {A : Type} (index : nat) (a : A) (l : list A) : list A :=
  match l, index with
  | [], _ => []
  | _ :: l', O => a :: l'
  | b :: l', S index' => b :: set_nth index' a l'
  end.

(** [asyncio.gather] over the tasks, as the order in which the steps of the
    tasks are taken: [choice] names, step by step, the task (by position)
    that advances; a task that has finished is passed over; once [choice]
    is used up the tasks run to their end one after the other.  Every
    interleaving that keeps the order within each task is the [gather] of
    some [choice]. *)
Fixpoint gather {A : Type} (choice : list nat) (tasks : list (list A))
  : list A :=
  match choice with
  | [] => List.concat tasks
  | index :: choice' =>
      match nth_error tasks index with
      | Some (step :: rest) =>
          step :: gather choice' (set_nth index rest tasks)
      | _ => gather choice' tasks
      end
  end.

(** The interleavings of tasks: the sequences of steps in which every task
    is run to its end and the order within each task is kept. *)
Inductive interleaving {A : Type} : list (list A) -> list A -> Prop :=
| interleaving_done (tasks : list (list A)) :
    Forall (fun task => task = []) tasks -> interleaving tasks []
| interleaving_step (tasks : list (list A)) (index : nat) (step : A)
    (rest steps : list A) :
    nth_error tasks index = Some (step :: rest) ->
    interleaving (set_nth index rest tasks) steps ->
    interleaving tasks (step :: steps).

(** The workflows that have stored their health check and have their
    incident handling before them, each with its monitor's id and
    [result["is_up"]]. *)
Definition Pending : Type := list (Z * bool).

Fixpoint take_pending (monitor_id : Z) (pending : Pending)
  : option (bool * Pending) :=
  match pending with
  | [] => None
  | (k, up) :: rest =>
      if k =? monitor_id then Some (up, rest)
      else
        match take_pending monitor_id rest with
        | Some (up', rest') => Some (up', (k, up) :: rest')
        | None => None
        end
  end.

(** The steps of the workflows of a cycle, as they come.  A workflow whose
    health check is refused ends there: its incident step finds nothing
    pending. *)
Fixpoint run_steps (env : APIMonitor.t -> ProbeEnv) (steps : list cycle_step)
  (pending : Pending) (db : Database) : Database :=
  match steps with
  | [] => db
  | Save monitor :: rest =>
      match check_api (client (env monitor)) monitor
              (start_time (env monitor)) (end_time (env monitor)) with
      | Raise _ => run_steps env rest pending db
      | Ok r =>
          match save_health_check db (clocks (env monitor))
                  (APIMonitor.id monitor) r with
          | Raise _ => run_steps env rest pending db
          | Ok (db1, _) =>
              run_steps env rest ((APIMonitor.id monitor, is_up r) :: pending)
                db1
          end
      end
  | Handle monitor :: rest =>
      match take_pending (APIMonitor.id monitor) pending with
      | None => run_steps env rest pending db
      | Some (up, pending') =>
          run_steps env rest pending'
            (db_after db
               (handle_incident db (clocks (env monitor)) monitor up))
      end
  end.

(** [check_all_active_monitors] with its workflows running concurrently,
    their steps reaching the database in the order [choice] gives.  No
    other writer (an API call, another worker) is at the tables
    meanwhile. *)
Definition check_all_active_monitors_gather (env : APIMonitor.t -> ProbeEnv)
  (choice : list nat) (w : World) : World :=
  let monitors := filter APIMonitor.is_active (api_monitors (database w)) in
  match monitors with
  | [] => w
  | _ :: _ =>
      {| database :=
           run_steps env (gather choice (map workflow monitors)) []
             (database w);
         ws_manager := ws_manager w;
         broadcasts := broadcasts w |}
  end.

(** Whether the workflow of a monitor gets its health check stored in
    tables that hold the monitors of [db]. *)
Definition stores_check (env : APIMonitor.t -> ProbeEnv) (db : Database)
  (monitor : APIMonitor.t) : bool :=
  match check_api (client (env monitor)) monitor
          (start_time (env monitor)) (end_time (env monitor)) with
  | Raise _ => false
  | Ok r =>
      match save_health_check db (clocks (env monitor))
              (APIMonitor.id monitor) r with
      | Ok _ => true
      | Raise _ => false
      end
  end.

(** Successive cycles, each with the environment and the interleaving it
    meets. *)
Fixpoint run_cycles (cycles : list ((APIMonitor.t -> ProbeEnv) * list nat))
  (w : World) : World :=
  match cycles with
  | [] => w
  | (env, choice) :: rest =>
      run_cycles rest (check_all_active_monitors_gather env choice w)
  end.

(** The monitors whose health check a list of steps saves. *)
Fixpoint saves (steps : list cycle_step) : list APIMonitor.t :=
  match steps with
  | [] => []
  | Save monitor :: rest => monitor :: saves rest
  | Handle _ :: rest => saves rest
  end.

(** A monitor like the sample, with key 2. *)
Definition billing_monitor : APIMonitor.t :=
  {| APIMonitor.id := 2;
     APIMonitor.user_id := 1;
     APIMonitor.name := "Billing API";
     APIMonitor.url := "https://billing.example.com/health";
     APIMonitor.method := GET;
     APIMonitor.headers := None;
     APIMonitor.expected_status := 200;
     APIMonitor.check_interval := 60;
     APIMonitor.timeout := 10;
     APIMonitor.is_active := true |}.

(** A process with two active monitors. *)
Definition two_monitors_world : World :=
  {| database := empty_db [sample_monitor 10; billing_monitor];
     ws_manager := {| active_connections := [] |};
     broadcasts := [] |}.

(** An environment in which every probe is answered with 500. *)
Definition env_all_down : APIMonitor.t -> ProbeEnv :=
  fun _ => {| client := client_status 500;
              start_time := 0; end_time := 123456;
              clocks := at_time 200000 |}.

(** A second monitor, paused. *)
Definition second_monitor : APIMonitor.t :=
  {| APIMonitor.id := 2;
     APIMonitor.user_id := 1;
     APIMonitor.name := "Staging API";
     APIMonitor.url := "https://staging.example.com/health";
     APIMonitor.method := HEAD;
     APIMonitor.headers := Some [("Authorization", "Bearer token123")];
     APIMonitor.expected_status := 204;
     APIMonitor.check_interval := 120;
     APIMonitor.timeout := 5;
     APIMonitor.is_active := false |}.

(** The sample tables after the second monitor has gone down. *)
Definition second_down_db : Database :=
  run (empty_db [sample_monitor 10; second_monitor])
    [(at_time 0, second_monitor, false)].

(** A text of [n] times the text [s]. *)
Fixpoint repeat_string (s : string) (n : nat) : string :=
  match n with
  | O => EmptyString
  | S n' => s ++ repeat_string s n'
  end.

(** A server that cannot be reached, with an error text of 1100
    characters, met on a backend that checks the length of its texts. *)
Definition env_long_error : ProbeEnv :=
  {| client := client_raising (mkExc ConnectError (repeat_string "x" 1100));
     start_time := 0;
     end_time := 1000;
     clocks := at_time_aware 2000 |}.

(** A table that breaks the invariant: two open incidents of monitor 1, as
    two overlapping writers could leave them. *)
Definition doubled_db : Database :=
  with_incidents sample_db
    [ {| Incident.id := 1; Incident.monitor_id := 1;
         Incident.started_at := 0; Incident.resolved_at := None;
         Incident.duration := None; Incident.alert_sent := false |};
      {| Incident.id := 2; Incident.monitor_id := 1;
         Incident.started_at := 5; Incident.resolved_at := None;
         Incident.duration := None; Incident.alert_sent := false |} ] 3.

(* ------------------------------------------------------------------ *)
(** ** [websocket_endpoint] *)

(** The two messages the endpoint itself sends. *)
Definition connected_message : Message :=
  [("type", "connected"); ("message", "WebSocket connected successfully")].

Definition pong_message : Message := [("type", "pong")].

(** How the [while True] loop stands after the input so far: still
    waiting in [receive_text], or left through an exception
    ([WebSocketDisconnect] or any other). *)
Inductive loop_end : Type :=
| Waiting
| Left (e : exception).

(** The loop of the endpoint on the successive outcomes of
    [websocket.receive_text()]: the pongs it has sent, and how it stands.
    Only the text [ping] is answered; a failed sending leaves the loop like
    a failed receiving. *)
Fixpoint receive_loop (wire : Wire) (websocket : WebSocket)
  (incoming : list (result string)) : list Message * loop_end :=
  match incoming with
  | [] => ([], Waiting)
  | Raise e :: _ => ([], Left e)
  | Ok data :: rest =>
      if String.eqb data "ping" then
        match wire websocket pong_message with
        | Ok _ =>
            let '(sent, stands) := receive_loop wire websocket rest in
            (pong_message :: sent, stands)
        | Raise e => ([], Left e)
        end
      else receive_loop wire websocket rest
  end.

(** What one run of the endpoint has done: the manager, the pongs sent,
    and whether the coroutine has returned. *)
Record EndpointRun : Type := mkEndpointRun {
  manager_after : WebSocketManager;
  pongs : list Message;
  returned : bool
}.

(** [websocket_endpoint], run alone on the global manager [self].
    [connect] stands before the [try]: what it raises leaves the endpoint.
    Both [except] clauses call [disconnect]. *)
Definition websocket_endpoint (accepted : result unit) (wire : Wire)
  (incoming : list (result string)) (self : WebSocketManager)
  (websocket : WebSocket) : result EndpointRun :=
  self1 <- connect accepted self websocket ;;
  match send_personal_message wire self1 connected_message websocket with
  | Raise _ =>
      self2 <- disconnect self1 websocket ;;
      Ok {| manager_after := self2; pongs := []; returned := true |}
  | Ok self2 =>
      let '(sent, stands) := receive_loop wire websocket incoming in
      match stands with
      | Waiting =>
          Ok {| manager_after := self2; pongs := sent; returned := false |}
      | Left _ =>
          self3 <- disconnect self2 websocket ;;
          Ok {| manager_after := self3; pongs := sent; returned := true |}
      end
  end.

(** The texts received before the loop was left. *)
Fixpoint received_texts (incoming : list (result string)) : list string :=
  match incoming with
  | Ok data :: rest => data :: received_texts rest
  | _ => []
  end.

(** Whether the input ends the loop. *)
Fixpoint hangs_up (incoming : list (result string)) : bool :=
  match incoming with
  | [] => false
  | Raise _ :: _ => true
  | Ok _ :: rest => hangs_up rest
  end.

(** A wire on which every sending returns. *)
Definition wire_healthy : Wire := fun _ _ => Ok tt.

(** A client that pings twice, chats, and goes away. *)
Definition sample_session : list (result string) :=
  [Ok "ping"; Ok "hello"; Ok "ping";
   Raise (mkExc OtherException "WebSocketDisconnect: 1000")].

(* ------------------------------------------------------------------ *)
(** ** The monitor registry: [app/schemas/monitor.py],
       [app/api/monitors.py] *)

(** The authenticated user an endpoint is called for ([get_current_user]
    rests on [app.utils.auth], which is not among the sources; the user is
    taken as given, as every endpoint takes it). *)
Module User.
Record t : Type := mk { id : Z; email : string }.
End User.

(** The tables with the sequence of [api_monitors.id], and the backend
    that holds them. *)
Record Store : Type := mkStore {
  tables : Database;
  api_monitors_seq : Z;
  store_backend : Backend
}.

(** [HTTPException(status_code, detail)]; its [str] is
    ["{status_code}: {detail}"]. *)
Definition HTTPException (status_code : Z) (detail : string) : exception :=
  mkExc OtherException (str_int status_code ++ ": " ++ detail).

(** The error of a commit that writes [NULL] into a column declared
    [nullable=False].  Its text is the driver's; only the column is kept. *)
Definition IntegrityError (column : string) : exception :=
  mkExc DBAPIError ("IntegrityError: " ++ column).

(** [MonitorCreate]: the request body of [create_monitor]. *)
Module MonitorCreate.
Record t : Type := mk {
  name : string;
  url : string;
  method : HTTPMethod;
  headers : option Headers;
  expected_status : Z;
  check_interval : Z;
  timeout : Z;
  is_active : bool
}.
End MonitorCreate.

(** [Field(ge=lo, le=hi)]. *)
Definition in_range (lo hi v : Z) : bool := (lo <=? v) && (v <=? hi).

(** [Field(min_length=1, max_length=255)]: the length is in characters. *)
Definition name_ok (s : string) : bool :=
  in_range 1 255 (Z.of_nat (str_len s)).

(** The fields of a [MonitorCreate] that fail their [Field] constraint, in
    the order of declaration; the body is accepted when there is none. *)
Definition MonitorCreate_errors (d : MonitorCreate.t) : list string :=
  ((if name_ok (MonitorCreate.name d) then [] else ["name"])
   ++ (if in_range 100 599 (MonitorCreate.expected_status d)
       then [] else ["expected_status"])
   ++ (if in_range 10 3600 (MonitorCreate.check_interval d)
       then [] else ["check_interval"])
   ++ (if in_range 1 60 (MonitorCreate.timeout d)
       then [] else ["timeout"]))%list.

(** The constraints, on a stored monitor. *)
Definition within_schema (m : APIMonitor.t) : Prop :=
  1 <= Z.of_nat (str_len (APIMonitor.name m)) <= 255
  /\ 100 <= APIMonitor.expected_status m <= 599
  /\ 10 <= APIMonitor.check_interval m <= 3600
  /\ 1 <= APIMonitor.timeout m <= 60.

(** The tables with [api_monitors] replaced. *)
Definition with_monitors (db : Database) (rows : list APIMonitor.t)
  : Database :=
  {| api_monitors := rows;
     health_checks := health_checks db;
     health_checks_seq := health_checks_seq db;
     incidents := incidents db;
     incidents_seq := incidents_seq db |}.

(** Whether the backend takes the two texts of a monitor: [name] is a
    [String(255)], [url] a [String(2048)]. *)
Definition monitor_columns_ok (b : Backend) (m : APIMonitor.t) : bool :=
  column_ok b 255 (APIMonitor.name m) && column_ok b 2048 (APIMonitor.url m).

(** [create_monitor], on an accepted body.  The schema puts no bound on
    [url]; the commit fails when the backend refuses a text. *)
Definition create_monitor (st : Store) (current_user : User.t)
  (monitor_data : MonitorCreate.t) : result (Store * APIMonitor.t) :=
  let new_monitor :=
    {| APIMonitor.id := api_monitors_seq st;
       APIMonitor.user_id := User.id current_user;
       APIMonitor.name := MonitorCreate.name monitor_data;
       APIMonitor.url := MonitorCreate.url monitor_data;
       APIMonitor.method := MonitorCreate.method monitor_data;
       APIMonitor.headers :=
         Some (match MonitorCreate.headers monitor_data with
               | Some h => h
               | None => []
               end);
       APIMonitor.expected_status :=
         MonitorCreate.expected_status monitor_data;
       APIMonitor.check_interval := MonitorCreate.check_interval monitor_data;
       APIMonitor.timeout := MonitorCreate.timeout monitor_data;
       APIMonitor.is_active := MonitorCreate.is_active monitor_data |} in
  if monitor_columns_ok (store_backend st) new_monitor then
    Ok ({| tables :=
             with_monitors (tables st)
               (api_monitors (tables st) ++ [new_monitor]);
           api_monitors_seq := api_monitors_seq st + 1;
           store_backend := store_backend st |},
        new_monitor)
  else Raise commit_refused.

(** [select(APIMonitor).where(APIMonitor.id == monitor_id,
    APIMonitor.user_id == current_user.id)]. *)
Definition select_monitor (st : Store) (monitor_id : Z)
  (current_user : User.t) : list APIMonitor.t :=
  filter
    (fun m => (APIMonitor.id m =? monitor_id)
              && (APIMonitor.user_id m =? User.id current_user))
    (api_monitors (tables st)).

(** The lookup every endpoint starts with: the monitor, or 404. *)
Definition get_monitor (st : Store) (monitor_id : Z) (current_user : User.t)
  : result APIMonitor.t :=
  monitor <- scalar_one_or_none (select_monitor st monitor_id current_user) ;;
  match monitor with
  | None => Raise (HTTPException 404 "Monitor not found")
  | Some m => Ok m
  end.

(** [verify_monitor_access] of [app/api/metrics.py]: the same query. *)
Definition verify_monitor_access (st : Store) (monitor_id : Z)
  (current_user : User.t) : result APIMonitor.t :=
  monitor <- scalar_one_or_none (select_monitor st monitor_id current_user) ;;
  match monitor with
  | None => Raise (HTTPException 404 "Monitor not found")
  | Some m => Ok m
  end.

(** A field of [MonitorUpdate]: left out of the body, given as [null], or
    given a value.  [model_dump(exclude_unset=True)] keeps the last two. *)
Inductive field (A : Type) : Type :=
| Unset
| Null
| Value (a : A).

Arguments Unset {A}.
Arguments Null {A}.
Arguments Value {A} a.

Module MonitorUpdate.
Record t : Type := mk {
  name : field string;
  url : field string;
  method : field HTTPMethod;
  headers : field Headers;
  expected_status : field Z;
  check_interval : field Z;
  timeout : field Z;
  is_active : field bool
}.
End MonitorUpdate.

(** A constraint of an [Optional] field binds a value only. *)
Definition field_ok {A : Type} (ok : A -> bool) (f : field A) : bool :=
  match f with
  | Value a => ok a
  | _ => true
  end.

Definition MonitorUpdate_errors (d : MonitorUpdate.t) : list string :=
  ((if field_ok name_ok (MonitorUpdate.name d) then [] else ["name"])
   ++ (if field_ok (in_range 100 599) (MonitorUpdate.expected_status d)
       then [] else ["expected_status"])
   ++ (if field_ok (in_range 10 3600) (MonitorUpdate.check_interval d)
       then [] else ["check_interval"])
   ++ (if field_ok (in_range 1 60) (MonitorUpdate.timeout d)
       then [] else ["timeout"]))%list.

(** [setattr(monitor, field, value)] followed by the commit, for a column
    declared [nullable=False]. *)
Definition set_required {A : Type} (column : string) (f : field A) (old : A)
  : result A :=
  match f with
  | Unset => Ok old
  | Value a => Ok a
  | Null => Raise (IntegrityError column)
  end.

(** The same for the nullable column [headers]. *)
Definition set_nullable {A : Type} (f : field A) (old : option A)
  : option A :=
  match f with
  | Unset => old
  | Value a => Some a
  | Null => None
  end.

(** The commit of a changed monitor: the row of its key is replaced. *)
Definition replace_monitor (m : APIMonitor.t) (rows : list APIMonitor.t)
  : list APIMonitor.t :=
  map (fun r => if APIMonitor.id r =? APIMonitor.id m then m else r) rows.

(** [update_monitor], on an accepted body.  The commit fails on a [null]
    for a required column and on a text the backend refuses. *)
Definition update_monitor (st : Store) (monitor_id : Z)
  (monitor_data : MonitorUpdate.t) (current_user : User.t)
  : result (Store * APIMonitor.t) :=
  monitor <- get_monitor st monitor_id current_user ;;
  name' <- set_required "name" (MonitorUpdate.name monitor_data)
             (APIMonitor.name monitor) ;;
  url' <- set_required "url" (MonitorUpdate.url monitor_data)
            (APIMonitor.url monitor) ;;
  method' <- set_required "method" (MonitorUpdate.method monitor_data)
               (APIMonitor.method monitor) ;;
  expected_status' <-
    set_required "expected_status"
      (MonitorUpdate.expected_status monitor_data)
      (APIMonitor.expected_status monitor) ;;
  check_interval' <-
    set_required "check_interval" (MonitorUpdate.check_interval monitor_data)
      (APIMonitor.check_interval monitor) ;;
  timeout' <- set_required "timeout" (MonitorUpdate.timeout monitor_data)
                (APIMonitor.timeout monitor) ;;
  is_active' <- set_required "is_active" (MonitorUpdate.is_active monitor_data)
                  (APIMonitor.is_active monitor) ;;
  let updated :=
    {| APIMonitor.id := APIMonitor.id monitor;
       APIMonitor.user_id := APIMonitor.user_id monitor;
       APIMonitor.name := name';
       APIMonitor.url := url';
       APIMonitor.method := method';
       APIMonitor.headers :=
         set_nullable (MonitorUpdate.headers monitor_data)
           (APIMonitor.headers monitor);
       APIMonitor.expected_status := expected_status';
       APIMonitor.check_interval := check_interval';
       APIMonitor.timeout := timeout';
       APIMonitor.is_active := is_active' |} in
  if monitor_columns_ok (store_backend st) updated then
    Ok ({| tables :=
             with_monitors (tables st)
               (replace_monitor updated (api_monitors (tables st)));
           api_monitors_seq := api_monitors_seq st;
           store_backend := store_backend st |},
        updated)
  else Raise commit_refused.

(** [delete_monitor]: the row goes, and with it, by the cascade, the health
    checks and incidents of the monitor. *)
Definition delete_monitor (st : Store) (monitor_id : Z)
  (current_user : User.t) : result Store :=
  monitor <- get_monitor st monitor_id current_user ;;
  Ok {| tables :=
          {| api_monitors :=
               filter
                 (fun m => negb (APIMonitor.id m =? APIMonitor.id monitor))
                 (api_monitors (tables st));
             health_checks :=
               filter
                 (fun h => negb (HealthCheck.monitor_id h
                                 =? APIMonitor.id monitor))
                 (health_checks (tables st));
             health_checks_seq := health_checks_seq (tables st);
             incidents :=
               filter
                 (fun i => negb (Incident.monitor_id i
                                 =? APIMonitor.id monitor))
                 (incidents (tables st));
             incidents_seq := incidents_seq (tables st) |};
        api_monitors_seq := api_monitors_seq st;
        store_backend := store_backend st |}.

(** Keys of [api_monitors] are unique and below the sequence. *)
Definition monitors_unique (st : Store) : Prop :=
  NoDup (map APIMonitor.id (api_monitors (tables st)))
  /\ Forall (fun m => APIMonitor.id m < api_monitors_seq st)
       (api_monitors (tables st)).

(** Two users and the body of the schema's example. *)
Definition alice : User.t := {| User.id := 1; User.email := "alice@example.com" |}.

Definition bob : User.t := {| User.id := 2; User.email := "bob@example.com" |}.

Definition sample_body : MonitorCreate.t :=
  {| MonitorCreate.name := "Production API";
     MonitorCreate.url := "https://api.example.com/health";
     MonitorCreate.method := GET;
     MonitorCreate.headers := Some [("Authorization", "Bearer token123")];
     MonitorCreate.expected_status := 200;
     MonitorCreate.check_interval := 60;
     MonitorCreate.timeout := 10;
     MonitorCreate.is_active := true |}.

(** The store before any monitor is registered, on a backend that
    enforces nothing and on one that enforces its constraints. *)
Definition empty_store : Store :=
  {| tables := empty_db []; api_monitors_seq := 1; store_backend := sqlite |}.

Definition empty_store_strict : Store :=
  {| tables := empty_db []; api_monitors_seq := 1;
     store_backend := postgresql |}.

(** The monitor Alice's example becomes. *)
Definition alice_monitor : APIMonitor.t :=
  {| APIMonitor.id := 1;
     APIMonitor.user_id := 1;
     APIMonitor.name := "Production API";
     APIMonitor.url := "https://api.example.com/health";
     APIMonitor.method := GET;
     APIMonitor.headers := Some [("Authorization", "Bearer token123")];
     APIMonitor.expected_status := 200;
     APIMonitor.check_interval := 60;
     APIMonitor.timeout := 10;
     APIMonitor.is_active := true |}.

(** The store after Alice has registered the example. *)
Definition alice_store : Store :=
  match create_monitor empty_store alice sample_body with
  | Ok (st, _) => st
  | Raise _ => empty_store
  end.

(** The letter e with an acute accent, [U+00E9]: one character, the two
    bytes [C3 A9]. *)
Definition e_acute : string :=
  String (ascii_of_nat 195) (String (ascii_of_nat 169) EmptyString).

(** The example with a name of 255 characters in 510 bytes, and with a url
    of 2049 characters. *)
Definition accented_body : MonitorCreate.t :=
  {| MonitorCreate.name := repeat_string e_acute 255;
     MonitorCreate.url := "https://api.example.com/health";
     MonitorCreate.method := GET;
     MonitorCreate.headers := None;
     MonitorCreate.expected_status := 200;
     MonitorCreate.check_interval := 60;
     MonitorCreate.timeout := 10;
     MonitorCreate.is_active := true |}.

Definition long_url_body : MonitorCreate.t :=
  {| MonitorCreate.name := "Production API";
     MonitorCreate.url := "https://" ++ repeat_string "a" 2041;
     MonitorCreate.method := GET;
     MonitorCreate.headers := None;
     MonitorCreate.expected_status := 200;
     MonitorCreate.check_interval := 60;
     MonitorCreate.timeout := 10;
     MonitorCreate.is_active := true |}.

(** A body that leaves everything out. *)
Definition no_update : MonitorUpdate.t :=
  {| MonitorUpdate.name := Unset; MonitorUpdate.url := Unset;
     MonitorUpdate.method := Unset; MonitorUpdate.headers := Unset;
     MonitorUpdate.expected_status := Unset;
     MonitorUpdate.check_interval := Unset;
     MonitorUpdate.timeout := Unset; MonitorUpdate.is_active := Unset |}.

(** The health checks of a monitor, in table order. *)
Definition health_checks_of (db : Database) (monitor_id : Z)
  : list HealthCheck.t :=
  filter (fun h => HealthCheck.monitor_id h =? monitor_id) (health_checks db).

(** Whether a field of the body is an explicit [null]. *)
Definition is_null {A : Type} (f : field A) : bool :=
  match f with
  | Null => true
  | _ => false
  end.

(** Whether the body gives [null] to a column declared [nullable=False]
    (all but [headers]). *)
Definition nulls_required (d : MonitorUpdate.t) : bool :=
  is_null (MonitorUpdate.name d) || is_null (MonitorUpdate.url d)
  || is_null (MonitorUpdate.method d)
  || is_null (MonitorUpdate.expected_status d)
  || is_null (MonitorUpdate.check_interval d)
  || is_null (MonitorUpdate.timeout d)
  || is_null (MonitorUpdate.is_active d).

(** The value a field of the body leaves in a column. *)
Definition field_or {A : Type} (f : field A) (old : A) : A :=
  match f with
  | Value a => a
  | _ => old
  end.

(** A body that pauses the monitor and shortens its timeout. *)
Definition pause_update : MonitorUpdate.t :=
  {| MonitorUpdate.name := Unset; MonitorUpdate.url := Unset;
     MonitorUpdate.method := Unset; MonitorUpdate.headers := Null;
     MonitorUpdate.expected_status := Unset;
     MonitorUpdate.check_interval := Unset;
     MonitorUpdate.timeout := Value 5; MonitorUpdate.is_active := Value false |}.

(** A body that sets the name to [null]. *)
Definition null_name_update : MonitorUpdate.t :=
  {| MonitorUpdate.name := Null; MonitorUpdate.url := Unset;
     MonitorUpdate.method := Unset; MonitorUpdate.headers := Unset;
     MonitorUpdate.expected_status := Unset;
     MonitorUpdate.check_interval := Unset;
     MonitorUpdate.timeout := Unset; MonitorUpdate.is_active := Unset |}.

(* ------------------------------------------------------------------ *)
(** ** [get_incidents] of [app/api/metrics.py] *)

(** The [where] clauses of the two queries: the monitor's incidents, the
    open ones only when [ongoing_only]. *)
Definition incident_matches (monitor_id : Z) (ongoing_only : bool)
  (i : Incident.t) : bool :=
  (Incident.monitor_id i =? monitor_id)
  && (if ongoing_only then Incident.is_ongoing i else true).

(** [get_incidents]: the total of the count query, and the page
    [order_by(started_at.desc()).offset(skip).limit(limit)].  [skip] and
    [limit] arrive within the bounds of their [Query] declarations
    ([skip >= 0], [1 <= limit <= 200]). *)
Definition get_incidents (st : Store) (monitor_id : Z)
  (current_user : User.t) (skip limit : Z) (ongoing_only : bool)
  : result (Z * list Incident.t) :=
  _ <- verify_monitor_access st monitor_id current_user ;;
  let rows :=
    filter (incident_matches monitor_id ongoing_only)
      (incidents (tables st)) in
  let total := Z.of_nat (List.length rows) in
  let page :=
    firstn (Z.to_nat limit)
      (skipn (Z.to_nat skip) (order_by_started_at_desc rows)) in
  Ok (total, page).

(** Most recent first. *)
Fixpoint newest_first (l : list Incident.t) : Prop :=
  match l with
  | [] => True
  | a :: l' =>
      (forall b, In b l' -> Incident.started_at b <= Incident.started_at a)
      /\ newest_first l'
  end.

(** Alice's store after her monitor has been down twice. *)
Definition alice_history : Store :=
  {| tables :=
       run (tables alice_store)
         (replay (sample_monitor 10)
            [(at_time 0, false); (at_time 60000000, true);
             (at_time 120000000, false)]);
     api_monitors_seq := api_monitors_seq alice_store;
     store_backend := store_backend alice_store |}.
(* ================================================================== *)
(** * Properties *)

(* ------------------------------------------------------------------ *)
(** ** The probe *)

Section Probe.

Variable client : Client.
Variable monitor : APIMonitor.t.
Variables t0 t1 : Z.

(** The result when the request raised. *)
Lemma check_api_raised (e : exception) :
  client (HTTPMethod_value (APIMonitor.method monitor))
    (APIMonitor.url monitor)
    (match APIMonitor.headers monitor with Some h => h | None => [] end)
    {| httpx.connect := 5;
       httpx.read := APIMonitor.timeout monitor;
       httpx.write := APIMonitor.timeout monitor;
       httpx.pool := APIMonitor.timeout monitor |} = Raise e ->
  check_api client monitor t0 t1 =
    check_api_except monitor
      {| status_code := None; response_time := None;
         is_up := false; error_message := None |} e.
Proof.
  intros H. unfold check_api, check_api_try, request_headers, request_timeout,
    httpx.Timeout_of.
  rewrite H. reflexivity.
Qed.

(** The result when a response arrived. *)
Lemma check_api_responded (resp : Response) :
  client (HTTPMethod_value (APIMonitor.method monitor))
    (APIMonitor.url monitor)
    (match APIMonitor.headers monitor with Some h => h | None => [] end)
    {| httpx.connect := 5;
       httpx.read := APIMonitor.timeout monitor;
       httpx.write := APIMonitor.timeout monitor;
       httpx.pool := APIMonitor.timeout monitor |} = Ok resp ->
  check_api client monitor t0 t1 =
    Ok {| status_code := Some (resp_status_code resp);
          response_time := Some (round2_ms (t1 - t0));
          is_up := resp_status_code resp =? APIMonitor.expected_status monitor;
          error_message :=
            if negb (resp_status_code resp
                     =? APIMonitor.expected_status monitor)
            then Some ("Expected status "
                       ++ str_int (APIMonitor.expected_status monitor)
                       ++ ", got " ++ str_int (resp_status_code resp))
            else None |}.
Proof.
  intros H. unfold check_api, check_api_try, request_headers, request_timeout,
    httpx.Timeout_of.
  rewrite H. reflexivity.
Qed.

(** The handlers return: none of the three clauses raises. *)
Lemma check_api_except_returns (r0 : CheckResult) (e : exception) :
  exists msg,
    check_api_except monitor r0 e =
      Ok {| status_code := status_code r0;
            response_time := response_time r0;
            is_up := is_up r0;
            error_message := Some msg |}
    /\ ((is_TimeoutException e = true
         /\ msg = "Request timeout after "
                  ++ str_int (APIMonitor.timeout monitor) ++ "s")
        \/ (is_TimeoutException e = false /\ is_NetworkError e = true
            /\ msg = "Network error: " ++ exc_str e)
        \/ (is_TimeoutException e = false /\ is_NetworkError e = false
            /\ msg = "Unexpected error: " ++ exc_str e)).
Proof.
  unfold check_api_except.
  destruct (is_TimeoutException e) eqn:Ht.
  - eexists; split; [reflexivity | left; auto].
  - destruct (is_NetworkError e) eqn:Hn.
    + eexists; split; [reflexivity | right; left; auto].
    + eexists; split; [reflexivity | right; right; auto].
Qed.

End Probe.

(** Every call returns: the request's exception is caught by one of the
    clauses, and the clauses return. *)
Lemma check_api_returns (client : Client) (monitor : APIMonitor.t)
  (t0 t1 : Z) :
  exists r, check_api client monitor t0 t1 = Ok r.
Proof.
  destruct (client (HTTPMethod_value (APIMonitor.method monitor))
              (APIMonitor.url monitor)
              (match APIMonitor.headers monitor with
               | Some h => h
               | None => []
               end)
              {| httpx.connect := 5;
                 httpx.read := APIMonitor.timeout monitor;
                 httpx.write := APIMonitor.timeout monitor;
                 httpx.pool := APIMonitor.timeout monitor |})
    as [resp | e] eqn:Hreq.
  - rewrite (check_api_responded client monitor t0 t1 resp Hreq).
    eexists; reflexivity.
  - rewrite (check_api_raised client monitor t0 t1 e Hreq).
    destruct (check_api_except_returns monitor
                {| status_code := None; response_time := None;
                   is_up := false; error_message := None |} e)
      as (msg & -> & _).
    eexists; reflexivity.
Qed.

(** No exception is caught by both of the first two clauses: the two
    families of [httpx] are disjoint. *)
Lemma timeout_network_disjoint (e : exception) :
  is_TimeoutException e = true -> is_NetworkError e = false.
Proof.
  unfold is_TimeoutException, is_NetworkError.
  destruct (exc_type e); intros H; try reflexivity; discriminate H.
Qed.

(** C2.  [check_api] always returns a result.  The one request it sends is
    [client.request] with the monitor's method, url and headers (none when
    the monitor has none) and the timeout [httpx.Timeout(monitor.timeout,
    connect=5.0)].  The result's [is_up] is true exactly when that request
    returned a response with the monitor's [expected_status]; when that
    request raised, [is_up] is false, the status code is absent and the
    error message is a non-empty string. *)
Theorem check_api_is_up_iff (client : Client) (monitor : APIMonitor.t)
  (t0 t1 : Z) :
  exists r,
    check_api client monitor t0 t1 = Ok r
    /\ (is_up r = true <->
        exists resp,
          client (HTTPMethod_value (APIMonitor.method monitor))
            (APIMonitor.url monitor)
            (match APIMonitor.headers monitor with
             | Some h => h
             | None => []
             end)
            {| httpx.connect := 5;
               httpx.read := APIMonitor.timeout monitor;
               httpx.write := APIMonitor.timeout monitor;
               httpx.pool := APIMonitor.timeout monitor |} = Ok resp
          /\ resp_status_code resp = APIMonitor.expected_status monitor)
    /\ (forall e,
          client (HTTPMethod_value (APIMonitor.method monitor))
            (APIMonitor.url monitor)
            (match APIMonitor.headers monitor with
             | Some h => h
             | None => []
             end)
            {| httpx.connect := 5;
               httpx.read := APIMonitor.timeout monitor;
               httpx.write := APIMonitor.timeout monitor;
               httpx.pool := APIMonitor.timeout monitor |} = Raise e ->
          is_up r = false
          /\ status_code r = None
          /\ exists msg, error_message r = Some msg /\ msg <> "").
Proof.
  destruct (client (HTTPMethod_value (APIMonitor.method monitor))
              (APIMonitor.url monitor)
              (match APIMonitor.headers monitor with
               | Some h => h
               | None => []
               end)
              {| httpx.connect := 5;
                 httpx.read := APIMonitor.timeout monitor;
                 httpx.write := APIMonitor.timeout monitor;
                 httpx.pool := APIMonitor.timeout monitor |})
    as [resp | e] eqn:Hreq.
  - rewrite (check_api_responded client monitor t0 t1 resp Hreq).
    eexists; split; [reflexivity | split].
    + cbn [is_up]. split.
      * intros H. exists resp. split; [reflexivity | now apply Z.eqb_eq].
      * intros (resp' & Heq & Hcode). injection Heq as <-.
        now apply Z.eqb_eq.
    + intros e He. discriminate He.
  - rewrite (check_api_raised client monitor t0 t1 e Hreq).
    destruct (check_api_except_returns monitor
                {| status_code := None; response_time := None;
                   is_up := false; error_message := None |} e)
      as (msg & -> & Hmsg).
    eexists; split; [reflexivity | split].
    + cbn [is_up]. split; [discriminate |].
      intros (resp & Heq & _). discriminate Heq.
    + intros e' _. cbn. repeat split.
      exists msg. split; [reflexivity |].
      destruct Hmsg as [(_ & ->) | [(_ & _ & ->) | (_ & _ & ->)]];
        cbn; discriminate.
Qed.

(** The monitor with the [Authorization] header against a server that
    answers 200 to that header only: the header is sent, the result is
    up. *)
Lemma check_api_is_up_iff_witness :
  exists r,
    check_api (client_requiring "Authorization" "Bearer token123")
      token_monitor 0 123456 = Ok r
    /\ is_up r = true.
Proof.
  destruct (check_api_is_up_iff
              (client_requiring "Authorization" "Bearer token123")
              token_monitor 0 123456) as (r & Hr & Hiff & _).
  exists r. split; [exact Hr |].
  apply Hiff. exists {| resp_status_code := 200 |}. split; reflexivity.
Defined.

(** C7.  [check_api] never raises, and when its request (the monitor's
    method, url and headers, the timeout [httpx.Timeout(monitor.timeout,
    connect=5.0)]) raised [e], the result is [is_up = false] with no
    status code, no response time and the message of exactly one of the
    three clauses: the timeout message for a [TimeoutException], else the
    network message for a [NetworkError], else the message of an
    unexpected error. *)
Theorem check_api_failure_kinds (client : Client) (monitor : APIMonitor.t)
  (t0 t1 : Z) :
  (exists r, check_api client monitor t0 t1 = Ok r)
  /\ forall e,
       client (HTTPMethod_value (APIMonitor.method monitor))
         (APIMonitor.url monitor)
         (match APIMonitor.headers monitor with
          | Some h => h
          | None => []
          end)
         {| httpx.connect := 5;
            httpx.read := APIMonitor.timeout monitor;
            httpx.write := APIMonitor.timeout monitor;
            httpx.pool := APIMonitor.timeout monitor |} = Raise e ->
       exists msg,
         check_api client monitor t0 t1 =
           Ok {| status_code := None; response_time := None;
                 is_up := false; error_message := Some msg |}
         /\ ((is_TimeoutException e = true
              /\ is_NetworkError e = false
              /\ msg = "Request timeout after "
                       ++ str_int (APIMonitor.timeout monitor) ++ "s")
             \/ (is_TimeoutException e = false /\ is_NetworkError e = true
                 /\ msg = "Network error: " ++ exc_str e)
             \/ (is_TimeoutException e = false /\ is_NetworkError e = false
                 /\ msg = "Unexpected error: " ++ exc_str e)).
Proof.
  split.
  - apply check_api_returns.
  - intros e He.
    rewrite (check_api_raised client monitor t0 t1 e He).
    destruct (check_api_except_returns monitor
                {| status_code := None; response_time := None;
                   is_up := false; error_message := None |} e)
      as (msg & -> & Hmsg).
    exists msg. split; [reflexivity |].
    destruct Hmsg as [(Ht & ->) | [(Ht & Hn & ->) | (Ht & Hn & ->)]].
    + left. repeat split; auto using timeout_network_disjoint.
    + right; left. auto.
    + right; right. auto.
Qed.

(** A read timeout on the sample monitor. *)
Lemma check_api_failure_kinds_witness :
  check_api (client_raising (mkExc ReadTimeout "The read operation timed out"))
    (sample_monitor 10) 0 1500 =
  Ok {| status_code := None; response_time := None; is_up := false;
        error_message := Some "Request timeout after 10s" |}.
Proof.
  destruct (proj2 (check_api_failure_kinds
                     (client_raising
                        (mkExc ReadTimeout "The read operation timed out"))
                     (sample_monitor 10) 0 1500)
              (mkExc ReadTimeout "The read operation timed out") eq_refl)
    as (msg & H & [(_ & _ & Hm) | [(Hf & _) | (Hf & _)]]).
  - rewrite H, Hm. reflexivity.
  - discriminate Hf.
  - discriminate Hf.
Defined.

(** The three clauses on a sample monitor, and a response of either kind. *)
Example check_api_network_error :
  check_api (client_raising (mkExc ConnectError "All connection attempts failed"))
    (sample_monitor 10) 0 1500 =
  Ok {| status_code := None; response_time := None; is_up := false;
        error_message :=
          Some "Network error: All connection attempts failed" |}.
Proof. reflexivity. Qed.

Example check_api_unexpected_error :
  check_api (client_raising (mkExc InvalidURL "Invalid port"))
    (sample_monitor 10) 0 1500 =
  Ok {| status_code := None; response_time := None; is_up := false;
        error_message := Some "Unexpected error: Invalid port" |}.
Proof. reflexivity. Qed.

Example check_api_up :
  check_api (client_status 200) (sample_monitor 10) 0 123456 =
  Ok {| status_code := Some 200; response_time := Some 12346; is_up := true;
        error_message := None |}.
Proof. reflexivity. Qed.

Example check_api_wrong_status :
  check_api (client_status 500) (sample_monitor 10) 0 123456 =
  Ok {| status_code := Some 500; response_time := Some 12346; is_up := false;
        error_message := Some "Expected status 200, got 500" |}.
Proof. reflexivity. Qed.

(** The response time is rounded as Python rounds the float: 123.456 ms
    is stored as 123.46; 2.675 ms, whose float lies below the decimal, as
    2.67 and not 2.68; 0.015 ms, whose float lies above, as 0.02. *)
Example round2_ms_values :
  round2_ms 123456 = 12346
  /\ round2_ms 2675 = 267
  /\ round2_ms 15 = 2
  /\ round2_ms 1500000 = 150000
  /\ round2_ms 0 = 0
  /\ round2_ms (-2675) = -267.
Proof. repeat split; vm_compute; reflexivity. Qed.

(** The monitor's headers are sent: a server that wants the
    [Authorization] header answers 200 to the monitor that has it and 401
    to the one that has none. *)
Example check_api_sends_headers :
  check_api (client_requiring "Authorization" "Bearer token123")
    token_monitor 0 123456 =
  Ok {| status_code := Some 200; response_time := Some 12346; is_up := true;
        error_message := None |}
  /\ check_api (client_requiring "Authorization" "Bearer token123")
       (sample_monitor 10) 0 123456 =
     Ok {| status_code := Some 401; response_time := Some 12346;
           is_up := false;
           error_message := Some "Expected status 200, got 401" |}.
Proof. split; reflexivity. Qed.

(** C9 fails as stated: the monitor with [timeout = 1] is within the
    schema's bound, and its request has a connection timeout of 5 seconds
    against 1 second for the rest. *)
Lemma connect_timeout_exceeds_total :
  timeout_in_bound (sample_monitor 1)
  /\ httpx.connect (request_timeout (sample_monitor 1)) = 5
  /\ httpx.read (request_timeout (sample_monitor 1)) = 1
  /\ ~ (forall monitor,
          timeout_in_bound monitor ->
          httpx.connect (request_timeout monitor)
          <= httpx.read (request_timeout monitor)).
Proof.
  unfold timeout_in_bound. cbn. repeat split; try lia.
  intros H. specialize (H (sample_monitor 1)). cbn in H. lia.
Qed.

(** C9, amended.  The connection timeout of the probe request is 5 seconds
    whatever the monitor, the other budgets are [monitor.timeout], and the
    first does not exceed them exactly when [monitor.timeout] is at least
    5. *)
Theorem connect_timeout_fixed (monitor : APIMonitor.t) :
  httpx.connect (request_timeout monitor) = 5
  /\ httpx.read (request_timeout monitor) = APIMonitor.timeout monitor
  /\ httpx.write (request_timeout monitor) = APIMonitor.timeout monitor
  /\ httpx.pool (request_timeout monitor) = APIMonitor.timeout monitor
  /\ (httpx.connect (request_timeout monitor)
      <= httpx.read (request_timeout monitor)
      <-> 5 <= APIMonitor.timeout monitor).
Proof.
  cbn. repeat split; intros; assumption.
Qed.

(** With the default [timeout] of 10 seconds the connection timeout is
    within the rest. *)
Lemma connect_timeout_fixed_witness :
  httpx.connect (request_timeout (sample_monitor 10))
  <= httpx.read (request_timeout (sample_monitor 10)).
Proof.
  apply (proj2 (proj2 (proj2 (proj2
           (connect_timeout_fixed (sample_monitor 10)))))).
  cbn. lia.
Defined.

(* ------------------------------------------------------------------ *)
(** ** The incident tracker *)

Lemma insert_desc_length (i : Incident.t) (l : list Incident.t) :
  List.length (insert_desc i l) = S (List.length l).
Proof.
  induction l as [| j l IH]; cbn; [reflexivity |].
  destruct (Incident.started_at j <? Incident.started_at i); cbn;
    [reflexivity | f_equal; exact IH].
Qed.

Lemma order_by_length (l : list Incident.t) :
  List.length (order_by_started_at_desc l) = List.length l.
Proof.
  induction l as [| i l IH]; cbn; [reflexivity |].
  rewrite insert_desc_length. f_equal. exact IH.
Qed.

(** What the query and [scalar_one_or_none] give, by the number of open
    incidents. *)
Lemma scalar_none (db : Database) (m : Z) :
  open_incidents db m = [] ->
  scalar_one_or_none (select_ongoing db m) = Ok None.
Proof. unfold select_ongoing. intros ->. reflexivity. Qed.

Lemma scalar_one (db : Database) (m : Z) (o : Incident.t) :
  open_incidents db m = [o] ->
  scalar_one_or_none (select_ongoing db m) = Ok (Some o).
Proof. unfold select_ongoing. intros ->. reflexivity. Qed.

Lemma scalar_many (db : Database) (m : Z) :
  (2 <= List.length (open_incidents db m))%nat ->
  exists e, scalar_one_or_none (select_ongoing db m) = Raise e.
Proof.
  unfold select_ongoing. intros H.
  rewrite <- order_by_length in H.
  destruct (order_by_started_at_desc (open_incidents db m)) as [| a [| b l]];
    cbn in H; try lia.
  eexists; reflexivity.
Qed.

(** A list of length at most one is empty or a singleton. *)
Lemma at_most_one {A : Type} (l : list A) :
  (List.length l <= 1)%nat -> l = [] \/ exists a, l = [a].
Proof.
  destruct l as [| a [| b l]]; cbn; intros H.
  - now left.
  - right. now exists a.
  - lia.
Qed.

(** The row [handle_incident] inserts is open, for its monitor only. *)
Lemma new_incident_ongoing (db : Database) (clk : Clocks)
  (monitor : APIMonitor.t) (m : Z) :
  ongoing_for m (new_incident db clk monitor) = (APIMonitor.id monitor =? m).
Proof. unfold ongoing_for. cbn. apply andb_true_r. Qed.

(** Replacing a row by a resolved one opens nothing. *)
Lemma update_resolved_filter (m : Z) (i : Incident.t) (rows : list Incident.t) :
  Incident.is_ongoing i = false ->
  filter (ongoing_for m) (update_incident i rows) =
  filter (fun r => negb (Incident.id r =? Incident.id i) && ongoing_for m r)
    rows.
Proof.
  intros Hi. induction rows as [| r rows IH]; cbn; [reflexivity |].
  destruct (Incident.id r =? Incident.id i) eqn:E; cbn.
  - unfold ongoing_for at 1. rewrite Hi, andb_false_r. exact IH.
  - destruct (ongoing_for m r); [f_equal |]; exact IH.
Qed.

Lemma filter_and_length {A : Type} (p q : A -> bool) (l : list A) :
  (List.length (filter (fun a => p a && q a) l)
   <= List.length (filter q l))%nat.
Proof.
  induction l as [| a l IH]; cbn; [lia |].
  destruct (q a), (p a); cbn; lia.
Qed.

Lemma update_incident_ids (i : Incident.t) (rows : list Incident.t) :
  map Incident.id (update_incident i rows) = map Incident.id rows.
Proof.
  induction rows as [| r rows IH]; cbn; [reflexivity |].
  f_equal; [| exact IH].
  destruct (Incident.id r =? Incident.id i) eqn:E; [| reflexivity].
  apply Z.eqb_eq in E. congruence.
Qed.

Lemma update_incident_Forall (P : Incident.t -> Prop) (i : Incident.t)
  (rows : list Incident.t) :
  P i -> Forall P rows -> Forall P (update_incident i rows).
Proof.
  intros Hi H. induction H as [| r rows Hr _ IH]; cbn; constructor.
  - destruct (Incident.id r =? Incident.id i); assumption.
  - exact IH.
Qed.

(** Rows of other primary keys are not touched. *)
Lemma update_incident_other (i : Incident.t) (rows : list Incident.t) :
  (forall r, In r rows -> Incident.id r <> Incident.id i) ->
  update_incident i rows = rows.
Proof.
  induction rows as [| r rows IH]; cbn; intros H; [reflexivity |].
  f_equal.
  - destruct (Incident.id r =? Incident.id i) eqn:E; [| reflexivity].
    apply Z.eqb_eq in E. exfalso. apply (H r); [now left | exact E].
  - apply IH. intros r' Hr'. apply H. now right.
Qed.

(** With unique keys the update replaces one row in place. *)
Lemma update_incident_split (o i : Incident.t) (rows : list Incident.t) :
  NoDup (map Incident.id rows) ->
  In o rows ->
  Incident.id i = Incident.id o ->
  exists l1 l2,
    rows = (l1 ++ o :: l2)%list
    /\ update_incident i rows = (l1 ++ i :: l2)%list.
Proof.
  intros Hnd Hin Hid.
  destruct (in_split _ _ Hin) as (l1 & l2 & ->).
  exists l1, l2. split; [reflexivity |].
  rewrite map_app in Hnd. cbn in Hnd.
  pose proof (NoDup_remove_2 _ _ _ Hnd) as Hnot.
  assert (H1 : update_incident i l1 = l1).
  { apply update_incident_other. intros r Hr E. apply Hnot.
    rewrite in_app_iff, <- Hid, <- E. left. now apply in_map. }
  assert (H2 : update_incident i l2 = l2).
  { apply update_incident_other. intros r Hr E. apply Hnot.
    rewrite in_app_iff, <- Hid, <- E. right. now apply in_map. }
  unfold update_incident in *. rewrite map_app. cbn.
  rewrite H1, H2, Hid, Z.eqb_refl. reflexivity.
Qed.

(** The foreign key of a row is satisfied when the backend does not
    enforce it or [api_monitors] has the row it names. *)
Lemma fk_ok_iff (b : Backend) (db : Database) (monitor_id : Z) :
  fk_ok b db monitor_id = true
  <-> enforces_fk b = false
      \/ exists m, In m (api_monitors db) /\ APIMonitor.id m = monitor_id.
Proof.
  unfold fk_ok, registered. rewrite orb_true_iff, negb_true_iff, existsb_exists.
  split; intros [H | (m & Hm & E)]; auto; right; exists m;
    (split; [exact Hm |]); now apply Z.eqb_eq.
Qed.

(** The transitions, by the open incidents of the monitor, and the two
    ways a transition fails. *)
Lemma handle_up_when_up (db : Database) (clk : Clocks)
  (monitor : APIMonitor.t) :
  open_incidents db (APIMonitor.id monitor) = [] ->
  handle_incident db clk monitor true = Ok (db, None).
Proof.
  intros H. unfold handle_incident. rewrite (scalar_none _ _ H). reflexivity.
Qed.

Lemma handle_down_when_up (db : Database) (clk : Clocks)
  (monitor : APIMonitor.t) :
  open_incidents db (APIMonitor.id monitor) = [] ->
  fk_ok (backend clk) db (APIMonitor.id monitor) = true ->
  handle_incident db clk monitor false =
    Ok (with_incidents db (incidents db ++ [new_incident db clk monitor])
          (incidents_seq db + 1),
        Some (new_incident db clk monitor)).
Proof.
  intros H F. unfold handle_incident. rewrite (scalar_none _ _ H).
  cbn. rewrite F. reflexivity.
Qed.

Lemma handle_down_when_up_refused (db : Database) (clk : Clocks)
  (monitor : APIMonitor.t) :
  open_incidents db (APIMonitor.id monitor) = [] ->
  fk_ok (backend clk) db (APIMonitor.id monitor) = false ->
  handle_incident db clk monitor false = Raise commit_refused.
Proof.
  intros H F. unfold handle_incident. rewrite (scalar_none _ _ H).
  cbn. rewrite F. reflexivity.
Qed.

Lemma handle_down_when_down (db : Database) (clk : Clocks)
  (monitor : APIMonitor.t) (ongoing : Incident.t) :
  open_incidents db (APIMonitor.id monitor) = [ongoing] ->
  handle_incident db clk monitor false = Ok (db, None).
Proof.
  intros H. unfold handle_incident. rewrite (scalar_one _ _ _ H). reflexivity.
Qed.

Lemma handle_up_when_down (db : Database) (clk : Clocks)
  (monitor : APIMonitor.t) (ongoing : Incident.t) :
  open_incidents db (APIMonitor.id monitor) = [ongoing] ->
  tz_aware (backend clk) = false ->
  handle_incident db clk monitor true =
    Ok (with_incidents db
          (update_incident (resolved_incident (utcnow clk) ongoing)
             (incidents db))
          (incidents_seq db),
        Some (resolved_incident (utcnow clk) ongoing)).
Proof.
  intros H T. unfold handle_incident. rewrite (scalar_one _ _ _ H).
  cbn. rewrite T. reflexivity.
Qed.

Lemma handle_up_when_down_aware (db : Database) (clk : Clocks)
  (monitor : APIMonitor.t) (ongoing : Incident.t) :
  open_incidents db (APIMonitor.id monitor) = [ongoing] ->
  tz_aware (backend clk) = true ->
  handle_incident db clk monitor true = Raise naive_minus_aware.
Proof.
  intros H T. unfold handle_incident. rewrite (scalar_one _ _ _ H).
  cbn. rewrite T. reflexivity.
Qed.

(** The open incidents after an insertion and after a resolution. *)
Lemma open_after_insert (db : Database) (clk : Clocks)
  (monitor : APIMonitor.t) (m : Z) :
  open_incidents
    (with_incidents db (incidents db ++ [new_incident db clk monitor])
       (incidents_seq db + 1)) m =
  (open_incidents db m
   ++ (if APIMonitor.id monitor =? m
       then [new_incident db clk monitor] else []))%list.
Proof.
  unfold open_incidents. cbn [incidents with_incidents].
  rewrite filter_app. cbn [filter].
  rewrite new_incident_ongoing. reflexivity.
Qed.

Lemma open_after_resolve_le (db : Database) (now : Z) (ongoing : Incident.t)
  (m : Z) :
  (List.length
     (open_incidents
        (with_incidents db
           (update_incident (resolved_incident now ongoing) (incidents db))
           (incidents_seq db)) m)
   <= List.length (open_incidents db m))%nat.
Proof.
  unfold open_incidents. cbn [incidents with_incidents].
  rewrite update_resolved_filter by reflexivity.
  apply filter_and_length.
Qed.

Lemma open_after_resolve_nil (db : Database) (now : Z) (ongoing : Incident.t)
  (m : Z) :
  open_incidents db m = [ongoing] ->
  open_incidents
    (with_incidents db
       (update_incident (resolved_incident now ongoing) (incidents db))
       (incidents_seq db)) m = [].
Proof.
  unfold open_incidents. cbn [incidents with_incidents]. intros H.
  rewrite update_resolved_filter by reflexivity.
  cbn [resolved_incident Incident.id].
  assert (Hall : forall r, In r (filter (ongoing_for m) (incidents db)) ->
                           r = ongoing).
  { rewrite H. intros r [-> | []]. reflexivity. }
  clear H. induction (incidents db) as [| r rows IH]; cbn; [reflexivity |].
  cbn in Hall. destruct (ongoing_for m r) eqn:Er.
  - rewrite (Hall r (or_introl eq_refl)), Z.eqb_refl. cbn.
    apply IH. intros r' Hr'. apply Hall. now right.
  - rewrite andb_false_r. apply IH. exact Hall.
Qed.

(** An insertion keeps the table well formed. *)
Lemma insert_ok (db : Database) (clk : Clocks) (monitor : APIMonitor.t) :
  incidents_ok db ->
  open_incidents db (APIMonitor.id monitor) = [] ->
  incidents_ok
    (with_incidents db (incidents db ++ [new_incident db clk monitor])
       (incidents_seq db + 1)).
Proof.
  intros ((Hnd & Hlt) & Hone & Hdur) Hup. repeat split.
  - cbn [incidents with_incidents]. rewrite map_app. cbn [map].
    apply NoDup_app;
      [exact Hnd | apply NoDup_cons; [intros [] | apply NoDup_nil] |].
    intros k Hk [<- | []]. cbn in Hk.
    apply in_map_iff in Hk. destruct Hk as (r & Hr & Hin).
    rewrite Forall_forall in Hlt. specialize (Hlt r Hin). lia.
  - cbn [incidents incidents_seq with_incidents].
    apply Forall_app. split.
    + eapply Forall_impl; [| exact Hlt]. cbn. intros; lia.
    + repeat constructor. cbn. lia.
  - intros m. rewrite open_after_insert, length_app.
    destruct (APIMonitor.id monitor =? m) eqn:E; cbn.
    + apply Z.eqb_eq in E. subst m. rewrite Hup. cbn. lia.
    + specialize (Hone m). lia.
  - cbn [incidents with_incidents]. apply Forall_app. split; [exact Hdur |].
    repeat constructor. intros r Hr. discriminate Hr.
Qed.

(** A resolution keeps the table well formed. *)
Lemma resolve_ok (db : Database) (now : Z) (ongoing : Incident.t) :
  incidents_ok db ->
  In ongoing (incidents db) ->
  incidents_ok
    (with_incidents db
       (update_incident (resolved_incident now ongoing) (incidents db))
       (incidents_seq db)).
Proof.
  intros ((Hnd & Hlt) & Hone & Hdur) Hin. repeat split.
  - cbn [incidents with_incidents]. rewrite update_incident_ids. exact Hnd.
  - cbn [incidents incidents_seq with_incidents].
    apply update_incident_Forall; [| exact Hlt].
    rewrite Forall_forall in Hlt. exact (Hlt ongoing Hin).
  - intros m. specialize (Hone m).
    pose proof (open_after_resolve_le db now ongoing m). lia.
  - cbn [incidents with_incidents].
    apply update_incident_Forall; [| exact Hdur].
    intros r Hr. cbn in Hr. injection Hr as <-. reflexivity.
Qed.

Lemma open_in_table (db : Database) (m : Z) (o : Incident.t) :
  open_incidents db m = [o] -> In o (incidents db).
Proof.
  intros H. assert (Hin : In o (open_incidents db m)) by (rewrite H; now left).
  unfold open_incidents in Hin. apply filter_In in Hin. tauto.
Qed.

(** Every call keeps the table well formed, whether it returns or
    raises. *)
Lemma db_after_ok (db : Database) (clk : Clocks) (monitor : APIMonitor.t)
  (up : bool) :
  incidents_ok db ->
  incidents_ok (db_after db (handle_incident db clk monitor up)).
Proof.
  intros Hok. pose proof Hok as (Hids & Hone & Hdur).
  destruct (at_most_one _ (Hone (APIMonitor.id monitor))) as [Hup | (o & Hdown)];
    destruct up.
  - rewrite handle_up_when_up by exact Hup. exact Hok.
  - destruct (fk_ok (backend clk) db (APIMonitor.id monitor)) eqn:F.
    + rewrite handle_down_when_up by assumption.
      apply insert_ok; assumption.
    + rewrite handle_down_when_up_refused by assumption. exact Hok.
  - destruct (tz_aware (backend clk)) eqn:T.
    + rewrite (handle_up_when_down_aware _ _ _ _ Hdown T). exact Hok.
    + rewrite (handle_up_when_down _ _ _ _ Hdown T).
      apply resolve_ok; [exact Hok |].
      exact (open_in_table _ _ _ Hdown).
  - rewrite (handle_down_when_down _ _ _ _ Hdown). exact Hok.
Qed.

Lemma empty_db_ok (monitors : list APIMonitor.t) :
  incidents_ok (empty_db monitors).
Proof.
  split; [split; constructor | split; [intros m; cbn; lia | constructor]].
Qed.

Lemma run_ok (calls : list Call) :
  forall db, incidents_ok db -> incidents_ok (run db calls).
Proof.
  induction calls as [| [[clk monitor] up] calls IH]; intros db Hok; cbn.
  - exact Hok.
  - apply IH, db_after_ok, Hok.
Qed.

(** C3.  Whatever sequence of calls of [handle_incident] has run on the
    tables since they were created, for whatever monitors, every monitor
    id has no open incident or exactly one. *)
Theorem at_most_one_open_incident (monitors : list APIMonitor.t)
  (calls : list Call) (monitor_id : Z) :
  List.length (open_incidents (run (empty_db monitors) calls) monitor_id) = 0%nat
  \/ List.length (open_incidents (run (empty_db monitors) calls) monitor_id)
     = 1%nat.
Proof.
  destruct (run_ok calls _ (empty_db_ok monitors)) as (_ & Hone & _).
  specialize (Hone monitor_id). lia.
Qed.

(** Scenario A: one incident, created by the first failure and resolved by
    the recovery two minutes later. *)
Example scenario_A_incidents :
  incidents (run sample_db (replay (sample_monitor 10) scenario_A)) =
  [ {| Incident.id := 1; Incident.monitor_id := 1;
       Incident.started_at := 0; Incident.resolved_at := Some 120000000;
       Incident.duration := Some 120; Incident.alert_sent := false |} ].
Proof. reflexivity. Qed.

(** C4, on the code.  The sample monitor is down, its incident open, on
    a backend that returns [started_at] timezone-aware, as the column
    [DateTime(timezone=True)] declares it.  The passing result that should
    resolve the incident raises the [TypeError] of [now -
    ongoing_incident.started_at]: nothing is returned, nothing is written,
    the incident is still open, and it stays open whatever passing results
    follow.  The same holds for every monitor with an open incident on
    such a backend. *)
Theorem handle_incident_recovery_raises :
  open_incidents
    (run sample_db (replay (sample_monitor 10) [(at_time_aware 0, false)])) 1
  = [ {| Incident.id := 1; Incident.monitor_id := 1;
         Incident.started_at := 0; Incident.resolved_at := None;
         Incident.duration := None; Incident.alert_sent := false |} ]
  /\ handle_incident
       (run sample_db (replay (sample_monitor 10) [(at_time_aware 0, false)]))
       (at_time_aware 120000000) (sample_monitor 10) true
     = Raise naive_minus_aware
  /\ incidents
       (run sample_db
          (replay (sample_monitor 10)
             [(at_time_aware 0, false); (at_time_aware 120000000, true);
              (at_time_aware 180000000, true)]))
     = [ {| Incident.id := 1; Incident.monitor_id := 1;
            Incident.started_at := 0; Incident.resolved_at := None;
            Incident.duration := None; Incident.alert_sent := false |} ]
  /\ forall db clk monitor ongoing,
       open_incidents db (APIMonitor.id monitor) = [ongoing] ->
       tz_aware (backend clk) = true ->
       handle_incident db clk monitor true = Raise naive_minus_aware
       /\ db_after db (handle_incident db clk monitor true) = db.
Proof.
  split; [reflexivity | split; [reflexivity | split; [reflexivity |]]].
  intros db clk monitor ongoing Hdown T.
  rewrite (handle_up_when_down_aware _ _ _ _ Hdown T). split; reflexivity.
Qed.





Lemma run_app (calls1 calls2 : list Call) :
  forall db, run db (calls1 ++ calls2) = run (run db calls1) calls2.
Proof.
  induction calls1 as [| [[clk monitor] up] calls1 IH]; intros db; cbn.
  - reflexivity.
  - apply IH.
Qed.

(** After a call that returned, the table shows the state the result put
    the monitor in. *)
Lemma state_after_call (db : Database) (clk : Clocks)
  (monitor : APIMonitor.t) (up : bool) :
  one_open db ->
  (exists x, handle_incident db clk monitor up = Ok x) ->
  tracker_state (db_after db (handle_incident db clk monitor up))
    (APIMonitor.id monitor) up.
Proof.
  intros Hone (x & Hx).
  destruct (at_most_one _ (Hone (APIMonitor.id monitor))) as [Hup | (o & Hdown)];
    destruct up; cbn [tracker_state].
  - rewrite handle_up_when_up by exact Hup. exact Hup.
  - destruct (fk_ok (backend clk) db (APIMonitor.id monitor)) eqn:F.
    + rewrite handle_down_when_up by assumption. cbn [db_after].
      rewrite open_after_insert, Hup, Z.eqb_refl. eexists; reflexivity.
    + rewrite handle_down_when_up_refused in Hx by assumption. discriminate Hx.
  - destruct (tz_aware (backend clk)) eqn:T.
    + rewrite (handle_up_when_down_aware _ _ _ _ Hdown T) in Hx.
      discriminate Hx.
    + rewrite (handle_up_when_down _ _ _ _ Hdown T). cbn [db_after].
      now apply open_after_resolve_nil.
  - rewrite (handle_down_when_down _ _ _ _ Hdown). now exists o.
Qed.

(** A call that meets the same result again on the same backend changes
    nothing: a transition that was made is not made twice, and one that was
    refused is refused again. *)
Lemma call_settles (db : Database) (clk clk' : Clocks)
  (monitor : APIMonitor.t) (up : bool) :
  one_open db ->
  backend clk' = backend clk ->
  db_after (db_after db (handle_incident db clk monitor up))
    (handle_incident (db_after db (handle_incident db clk monitor up))
       clk' monitor up)
  = db_after db (handle_incident db clk monitor up).
Proof.
  intros Hone Hb.
  destruct (at_most_one _ (Hone (APIMonitor.id monitor))) as [Hup | (o & Hdown)];
    destruct up.
  - rewrite (handle_up_when_up db clk) by exact Hup. cbn [db_after].
    now rewrite handle_up_when_up.
  - destruct (fk_ok (backend clk) db (APIMonitor.id monitor)) eqn:F.
    + rewrite handle_down_when_up by assumption. cbn [db_after].
      erewrite handle_down_when_down; [reflexivity |].
      rewrite open_after_insert, Hup, Z.eqb_refl. reflexivity.
    + rewrite handle_down_when_up_refused by assumption. cbn [db_after].
      rewrite handle_down_when_up_refused; [reflexivity | exact Hup |].
      now rewrite Hb.
  - destruct (tz_aware (backend clk)) eqn:T.
    + rewrite (handle_up_when_down_aware _ _ _ _ Hdown T). cbn [db_after].
      rewrite (handle_up_when_down_aware _ _ _ _ Hdown); [reflexivity |].
      now rewrite Hb.
    + rewrite (handle_up_when_down _ _ _ _ Hdown T). cbn [db_after].
      rewrite handle_up_when_up; [reflexivity |].
      now apply open_after_resolve_nil.
  - rewrite (handle_down_when_down db clk _ _ Hdown). cbn [db_after].
    now rewrite (handle_down_when_down _ _ _ _ Hdown).
Qed.

(** Once a call with a result changes nothing on a backend, no sequence
    of that result does. *)
Lemma replay_settled (monitor : APIMonitor.t) (up : bool) (b : Backend)
  (db : Database) (rs : list (Clocks * bool)) :
  (forall clk,
     backend clk = b ->
     db_after db (handle_incident db clk monitor up) = db) ->
  (forall r, In r rs -> snd r = up /\ backend (fst r) = b) ->
  run db (replay monitor rs) = db.
Proof.
  intros Hfix. induction rs as [| [clk u] rs IH]; intros Hall; cbn.
  - reflexivity.
  - destruct (Hall (clk, u) (or_introl eq_refl)) as (Hu & Hb).
    cbn in Hu, Hb. subst u. rewrite (Hfix clk Hb).
    apply IH. intros r Hr. apply Hall. now right.
Qed.

(** C6 fails as stated.  On a backend where the resolution succeeds (naive
    timestamps) the sequence "down, up" replayed once leaves one incident;
    replayed twice, with the very same clock readings, it leaves two: the
    second replay finds the first incident resolved and opens another. *)
Lemma replay_twice_differs :
  List.length
    (incidents (run sample_db (replay (sample_monitor 10) down_then_up)))
  = 1%nat
  /\ List.length
       (incidents
          (run sample_db
             (replay (sample_monitor 10) down_then_up
              ++ replay (sample_monitor 10) down_then_up)))
     = 2%nat
  /\ ~ (forall i,
          In i (incidents
                  (run sample_db
                     (replay (sample_monitor 10) down_then_up
                      ++ replay (sample_monitor 10) down_then_up)))
          <-> In i (incidents
                      (run sample_db
                         (replay (sample_monitor 10) down_then_up)))).
Proof.
  split; [reflexivity | split; [reflexivity |]].
  intros H.
  specialize (H {| Incident.id := 2; Incident.monitor_id := 1;
                   Incident.started_at := 0;
                   Incident.resolved_at := Some 1500000;
                   Incident.duration := Some 1;
                   Incident.alert_sent := false |}).
  destruct H as [H _]. cbn in H.
  destruct H as [H | []]; [right; left; reflexivity | discriminate H].
Qed.

(** C6, amended.  On every table the tracker has produced, on any one
    backend, and for every sequence of results of one monitor that all
    have the same [is_up], replaying the sequence a second time (whatever
    the clocks then read) leaves the database exactly as the first replay
    left it. *)
Theorem replay_constant_idempotent (monitors : list APIMonitor.t)
  (history : list Call) (monitor : APIMonitor.t) (up : bool) (b : Backend)
  (rs1 rs2 : list (Clocks * bool)) :
  (forall r, In r rs1 -> snd r = up) ->
  map snd rs2 = map snd rs1 ->
  (forall r, In r (rs1 ++ rs2)%list -> backend (fst r) = b) ->
  run (run (empty_db monitors) history)
    (replay monitor rs1 ++ replay monitor rs2) =
  run (run (empty_db monitors) history) (replay monitor rs1).
Proof.
  intros Hall Hsame Hback.
  assert (Hall2 : forall r, In r rs2 -> snd r = up).
  { intros r Hr. apply (in_map snd) in Hr. rewrite Hsame in Hr.
    apply in_map_iff in Hr. destruct Hr as (r1 & <- & Hr1). now apply Hall. }
  destruct rs1 as [| [clk u] rs1].
  - destruct rs2; [reflexivity | discriminate Hsame].
  - assert (u = up) as -> by exact (Hall (clk, u) (or_introl eq_refl)).
    assert (Hb : backend clk = b) by exact (Hback (clk, up) (or_introl eq_refl)).
    pose proof (run_ok history _ (empty_db_ok monitors)) as (_ & Hone & _).
    assert (Hfix : forall clk',
               backend clk' = b ->
               db_after
                 (db_after (run (empty_db monitors) history)
                    (handle_incident (run (empty_db monitors) history)
                       clk monitor up))
                 (handle_incident
                    (db_after (run (empty_db monitors) history)
                       (handle_incident (run (empty_db monitors) history)
                          clk monitor up))
                    clk' monitor up)
               = db_after (run (empty_db monitors) history)
                   (handle_incident (run (empty_db monitors) history)
                      clk monitor up)).
    { intros clk' Hb'. apply call_settles; [exact Hone | congruence]. }
    assert (E1 : run (run (empty_db monitors) history)
                   (replay monitor ((clk, up) :: rs1))
                 = db_after (run (empty_db monitors) history)
                     (handle_incident (run (empty_db monitors) history)
                        clk monitor up)).
    { change (run (run (empty_db monitors) history)
                (replay monitor ((clk, up) :: rs1)))
        with (run (db_after (run (empty_db monitors) history)
                     (handle_incident (run (empty_db monitors) history)
                        clk monitor up))
                (replay monitor rs1)).
      apply (replay_settled monitor up b); [exact Hfix |].
      intros r Hr. split.
      - apply Hall. now right.
      - apply Hback. right. apply in_or_app. now left. }
    rewrite run_app, E1.
    apply (replay_settled monitor up b); [exact Hfix |].
    intros r Hr. split.
    + now apply Hall2.
    + apply Hback. apply in_or_app. now right.
Qed.

(** Two failures, replayed: the database of the first replay. *)
Lemma replay_constant_idempotent_witness :
  run (run (empty_db [sample_monitor 10]) [])
    (replay (sample_monitor 10) [(at_time 0, false); (at_time 60000000, false)]
     ++ replay (sample_monitor 10)
          [(at_time 120000000, false); (at_time 180000000, false)]) =
  run (run (empty_db [sample_monitor 10]) [])
    (replay (sample_monitor 10) [(at_time 0, false); (at_time 60000000, false)]).
Proof.
  apply (replay_constant_idempotent [sample_monitor 10] [] (sample_monitor 10)
           false sqlite).
  - intros r [<- | [<- | []]]; reflexivity.
  - reflexivity.
  - intros r [<- | [<- | [<- | [<- | []]]]]; reflexivity.
Defined.

(* ------------------------------------------------------------------ *)
(** ** The WebSocket manager *)

Lemma list_contains_In (x : WebSocket) (l : list WebSocket) :
  list_contains x l = true <-> In x l.
Proof.
  unfold list_contains. rewrite existsb_exists. split.
  - intros (y & Hy & E). apply Z.eqb_eq in E. now subst.
  - intros H. exists x. split; [exact H | apply Z.eqb_refl].
Qed.

Lemma remove_first_absent (x : WebSocket) (l : list WebSocket) :
  ~ In x l -> remove_first x l = l.
Proof.
  induction l as [| y l IH]; cbn; intros H; [reflexivity |].
  destruct (x =? y) eqn:E.
  - apply Z.eqb_eq in E. exfalso. apply H. left. now symmetry.
  - f_equal. apply IH. intros Hin. apply H. now right.
Qed.

(** Guarded by [in], [remove] does not raise. *)
Lemma list_remove_present (x : WebSocket) (l : list WebSocket) :
  In x l -> list_remove x l = Ok (remove_first x l).
Proof.
  induction l as [| y l IH]; cbn; intros H; [contradiction |].
  destruct (x =? y) eqn:E; [reflexivity |].
  destruct H as [H | H].
  - apply Z.eqb_neq in E. congruence.
  - rewrite (IH H). reflexivity.
Qed.

Lemma disconnect_remove_first (self : WebSocketManager) (w : WebSocket) :
  disconnect self w =
    Ok {| active_connections := remove_first w (active_connections self) |}.
Proof.
  unfold disconnect.
  destruct (list_contains w (active_connections self)) eqn:E.
  - apply list_contains_In in E. rewrite (list_remove_present _ _ E).
    reflexivity.
  - rewrite remove_first_absent; [now destruct self |].
    intros H. apply list_contains_In in H. congruence.
Qed.

Lemma remove_first_In_other (x y : WebSocket) (l : list WebSocket) :
  y <> x -> (In y (remove_first x l) <-> In y l).
Proof.
  intros Hne. induction l as [| z l IH]; cbn; [tauto |].
  destruct (x =? z) eqn:E.
  - apply Z.eqb_eq in E. subst z. split; [now right |].
    intros [H | H]; [congruence | exact H].
  - cbn. rewrite IH. tauto.
Qed.

Lemma remove_first_incl (x y : WebSocket) (l : list WebSocket) :
  In y (remove_first x l) -> In y l.
Proof.
  induction l as [| z l IH]; cbn; [tauto |].
  destruct (x =? z); cbn; [now right | intros [H | H]; auto].
Qed.

Lemma remove_first_NoDup (x : WebSocket) (l : list WebSocket) :
  NoDup l -> NoDup (remove_first x l) /\ ~ In x (remove_first x l).
Proof.
  induction 1 as [| z l Hz Hnd (IH1 & IH2)]; cbn.
  - split; [constructor | tauto].
  - destruct (x =? z) eqn:E.
    + apply Z.eqb_eq in E. subst z. now split.
    + apply Z.eqb_neq in E. split.
      * constructor; [| exact IH1].
        intros H. apply Hz. eapply remove_first_incl, H.
      * intros [H | H]; [congruence | now apply IH2].
Qed.

(** The first loop: every connection is sent to, those that raised are
    collected in order. *)
Lemma broadcast_send_eq (wire : Wire) (message : Message)
  (conns : list WebSocket) :
  broadcast_send wire message conns =
    (map (fun w => (w, sends wire message w)) conns,
     filter (fun w => negb (sends wire message w)) conns).
Proof.
  induction conns as [| c conns IH]; cbn; [reflexivity |].
  rewrite IH. unfold sends. destruct (wire c message); reflexivity.
Qed.

(** The second loop removes one occurrence per collected connection. *)
Lemma disconnect_all_eq (ds : list WebSocket) :
  forall self,
    disconnect_all self ds =
      Ok {| active_connections :=
              fold_left (fun l d => remove_first d l) ds
                (active_connections self) |}.
Proof.
  induction ds as [| d ds IH]; intros self; cbn.
  - now destruct self.
  - rewrite disconnect_remove_first. cbn. rewrite IH. reflexivity.
Qed.

Lemma remove_all_cons_other (a : WebSocket) (ds : list WebSocket) :
  (forall d, In d ds -> d <> a) ->
  forall l,
    fold_left (fun l d => remove_first d l) ds (a :: l) =
    a :: fold_left (fun l d => remove_first d l) ds l.
Proof.
  induction ds as [| d ds IH]; intros H l; cbn; [reflexivity |].
  assert (E : (d =? a) = false)
    by (apply Z.eqb_neq, H; now left).
  rewrite E. apply IH. intros d' Hd'. apply H. now right.
Qed.

(** Removing the failed connections one by one leaves those that took the
    message. *)
Lemma remove_failed_is_filter (ok : WebSocket -> bool) (l : list WebSocket) :
  fold_left (fun l d => remove_first d l) (filter (fun w => negb (ok w)) l) l
  = filter ok l.
Proof.
  induction l as [| a l IH]; cbn; [reflexivity |].
  destruct (ok a) eqn:E; cbn.
  - rewrite remove_all_cons_other; [now rewrite IH |].
    intros d Hd ->. apply filter_In in Hd. rewrite E in Hd.
    destruct Hd as [_ Hd]. discriminate Hd.
  - rewrite Z.eqb_refl. exact IH.
Qed.

(** [broadcast] as a whole. *)
Lemma broadcast_eq (wire : Wire) (self : WebSocketManager)
  (message : Message) :
  broadcast wire self message =
    Ok ({| active_connections :=
             filter (sends wire message) (active_connections self) |},
        map (fun w => (w, sends wire message w)) (active_connections self)).
Proof.
  unfold broadcast. destruct self as [conns]. cbn [active_connections].
  destruct conns as [| c conns]; [reflexivity |].
  rewrite broadcast_send_eq, disconnect_all_eq. cbn [bind active_connections].
  rewrite remove_failed_is_filter. reflexivity.
Qed.

Lemma attempted_eq (ok : WebSocket -> bool) (l : list WebSocket) :
  attempted (map (fun w => (w, ok w)) l) = l.
Proof.
  unfold attempted. rewrite map_map. cbn. apply map_id.
Qed.

Lemma delivered_to_eq (ok : WebSocket -> bool) (l : list WebSocket) :
  delivered_to (map (fun w => (w, ok w)) l) = filter ok l.
Proof.
  unfold delivered_to.
  induction l as [| a l IH]; cbn; [reflexivity |].
  destruct (ok a); cbn; [f_equal |]; exact IH.
Qed.

(** Scenario C: of two subscribers the second fails; the first still gets
    the event, the second is dropped, and the next broadcast goes to the
    first alone. *)
Example scenario_C :
  broadcast (wire_failing [2]) {| active_connections := [1; 2] |}
    (stats_updated "2024-01-01T00:00:00") =
    Ok ({| active_connections := [1] |}, [(1, true); (2, false)])
  /\ broadcast (wire_failing []) {| active_connections := [1] |}
       (stats_updated "2024-01-01T00:01:00") =
       Ok ({| active_connections := [1] |}, [(1, true)]).
Proof. split; reflexivity. Qed.

(** The position the loop of [broadcast] reads next. *)
Lemma skipn_nth_error_None {A : Type} (l : list A) (i : nat) :
  nth_error l i = None -> skipn i l = [].
Proof.
  intros H. apply skipn_all2. now apply nth_error_None.
Qed.

Lemma skipn_nth_error_Some {A : Type} (l : list A) :
  forall (i : nat) (a : A),
    nth_error l i = Some a -> skipn i l = a :: skipn (S i) l.
Proof.
  induction l as [| b l IH]; intros [| i] a H; try discriminate H.
  - injection H as <-. reflexivity.
  - cbn in H. exact (IH i a H).
Qed.

(** With nobody else at the manager, the loop on the live list is the loop
    on the list as [broadcast] found it. *)
Lemma broadcast_send_live_alone (wire : Wire) (message : Message)
  (during : list (list manager_op)) :
  undisturbed during ->
  forall (i : nat) (self : WebSocketManager),
    broadcast_send_live wire message during i self =
    (fst (broadcast_send wire message (skipn i (active_connections self))),
     snd (broadcast_send wire message (skipn i (active_connections self))),
     self).
Proof.
  induction 1 as [| ops during Hops _ IH]; intros i self;
    cbn [broadcast_send_live].
  - now destruct (broadcast_send wire message
                    (skipn i (active_connections self))).
  - subst ops. cbn [fold_left].
    destruct (nth_error (active_connections self) i) as [c |] eqn:E.
    + rewrite (skipn_nth_error_Some _ _ _ E), IH. cbn [broadcast_send].
      destruct (broadcast_send wire message
                  (skipn (S i) (active_connections self))) as [calls ds].
      cbn [fst snd]. now destruct (wire c message).
    + now rewrite (skipn_nth_error_None _ _ E).
Qed.

Lemma broadcast_live_alone (wire : Wire) (self : WebSocketManager)
  (message : Message) (during : list (list manager_op)) :
  undisturbed during ->
  broadcast_live wire self message during = broadcast wire self message.
Proof.
  intros H. unfold broadcast_live, broadcast.
  destruct (active_connections self) as [| c conns] eqn:E; [reflexivity |].
  rewrite (broadcast_send_live_alone wire message during H 0 self).
  cbn [skipn]. rewrite E.
  now destruct (broadcast_send wire message (c :: conns)).
Qed.

(** A connection that is not among the removed ones stays. *)
Lemma remove_all_keeps (b : WebSocket) (ds : list WebSocket) :
  ~ In b ds ->
  forall l,
    In b l -> In b (fold_left (fun l d => remove_first d l) ds l).
Proof.
  induction ds as [| d ds IH]; intros Hb l Hl; cbn; [exact Hl |].
  apply IH.
  - intros H. apply Hb. now right.
  - apply remove_first_In_other; [| exact Hl].
    intros ->. apply Hb. now left.
Qed.

(** C8, on the code.  Three subscribers, of which the first has left.
    The broadcast sends to the first, which raises; while that sending is
    awaited, the endpoint of the first subscriber unregisters it.  The loop
    goes on at the second position of the list, which by then holds the
    third subscriber: the second subscriber, whose connection is sound and
    which stays registered, is never sent the message.  (Run alone, the
    same broadcast sends to all three.)  So it is whenever the first of
    the registered connections is unregistered during its own sending: the
    connection after it is passed over. *)
Theorem broadcast_skips_subscriber :
  broadcast_live (wire_failing [1]) {| active_connections := [1; 2; 3] |}
    (stats_updated "2024-01-01T00:00:00") [[OpDisconnect 1]]
  = Ok ({| active_connections := [2; 3] |}, [(1, false); (3, true)])
  /\ sends (wire_failing [1]) (stats_updated "2024-01-01T00:00:00") 2 = true
  /\ ~ In 2 (attempted [(1, false); (3, true)])
  /\ broadcast (wire_failing [1]) {| active_connections := [1; 2; 3] |}
       (stats_updated "2024-01-01T00:00:00")
     = Ok ({| active_connections := [2; 3] |},
           [(1, false); (2, true); (3, true)])
  /\ forall (wire : Wire) (message : Message) (a b : WebSocket)
       (rest : list WebSocket),
       a <> b ->
       ~ In b rest ->
       exists self' calls,
         broadcast_live wire {| active_connections := a :: b :: rest |}
           message [[OpDisconnect a]] = Ok (self', calls)
         /\ attempted calls = a :: rest
         /\ ~ In b (attempted calls)
         /\ In b (active_connections self').
Proof.
  split; [reflexivity | split; [reflexivity | split; [| split]]].
  - cbn. intros [H | [H | []]]; discriminate H.
  - reflexivity.
  - intros wire message a b rest Hab Hb.
    unfold broadcast_live. cbn [active_connections broadcast_send_live nth_error
                                  fold_left apply_op].
    rewrite disconnect_remove_first. cbn [active_connections remove_first].
    rewrite Z.eqb_refl. cbn [skipn active_connections].
    rewrite broadcast_send_eq.
    assert (Hkeep : forall ds,
               (forall d, In d ds -> d = a \/ In d rest) ->
               exists self',
                 disconnect_all {| active_connections := b :: rest |} ds
                 = Ok self'
                 /\ In b (active_connections self')).
    { intros ds Hds. rewrite disconnect_all_eq. eexists. split; [reflexivity |].
      cbn [active_connections]. apply remove_all_keeps; [| now left].
      intros H. destruct (Hds b H) as [E | E]; [congruence | contradiction]. }
    destruct (wire a message) as [u | e].
    + destruct (Hkeep (filter (fun w => negb (sends wire message w)) rest))
        as (self' & -> & Hin).
      { intros d Hd. right. apply filter_In in Hd. tauto. }
      exists self'. eexists. split; [reflexivity |].
      unfold attempted. cbn [map fst]. rewrite map_map. cbn [fst].
      rewrite map_id. split; [reflexivity | split; [| exact Hin]].
      intros [E | E]; [congruence | contradiction].
    + destruct (Hkeep (a :: filter (fun w => negb (sends wire message w)) rest))
        as (self' & -> & Hin).
      { intros d [<- | Hd]; [now left |]. right.
        apply filter_In in Hd. tauto. }
      exists self'. eexists. split; [reflexivity |].
      unfold attempted. cbn [map fst]. rewrite map_map. cbn [fst].
      rewrite map_id. split; [reflexivity | split; [| exact Hin]].
      intros [E | E]; [congruence | contradiction].
Qed.

(** C10.  [disconnect] never raises.  A connection that is not active
    leaves the manager as it was; every other connection stays as it was,
    active or not.  When the active list holds each connection once (the
    endpoint registers a [WebSocket] once, when it accepts it), the
    connection is gone afterwards, the list still holds each connection
    once, and a second [disconnect] changes nothing.  After a broadcast in
    which the sending to [w] raised, [disconnect] of [w] changes
    nothing. *)
Theorem disconnect_idempotent (self : WebSocketManager) (w : WebSocket) :
  exists self',
    disconnect self w = Ok self'
    /\ (~ In w (active_connections self) -> self' = self)
    /\ (forall w',
          w' <> w ->
          (In w' (active_connections self')
           <-> In w' (active_connections self)))
    /\ (NoDup (active_connections self) ->
        ~ In w (active_connections self')
        /\ NoDup (active_connections self')
        /\ disconnect self' w = Ok self')
    /\ (forall wire message self1 calls,
          broadcast wire self message = Ok (self1, calls) ->
          sends wire message w = false ->
          disconnect self1 w = Ok self1).
Proof.
  eexists. split; [apply disconnect_remove_first |].
  cbn [active_connections]. split; [| split; [| split]].
  - intros H. rewrite remove_first_absent by exact H. now destruct self.
  - intros w' Hne. now apply remove_first_In_other.
  - intros Hnd. destruct (remove_first_NoDup w _ Hnd) as (H1 & H2).
    split; [exact H2 | split; [exact H1 |]].
    rewrite disconnect_remove_first. cbn [active_connections].
    now rewrite (remove_first_absent w _ H2).
  - intros wire message self1 calls Hb Hbad.
    rewrite broadcast_eq in Hb. injection Hb as <- _.
    rewrite disconnect_remove_first. cbn [active_connections].
    rewrite remove_first_absent; [reflexivity |].
    intros H. apply filter_In in H. destruct H as [_ H]. congruence.
Qed.

(** Disconnecting the second of three connections, twice. *)
Lemma disconnect_idempotent_witness :
  disconnect {| active_connections := [1; 2; 3] |} 2 =
    Ok {| active_connections := [1; 3] |}
  /\ disconnect {| active_connections := [1; 3] |} 2 =
       Ok {| active_connections := [1; 3] |}.
Proof.
  destruct (disconnect_idempotent {| active_connections := [1; 2; 3] |} 2)
    as (self' & H & _ & _ & Hset & _).
  assert (Hnd : NoDup (active_connections {| active_connections := [1; 2; 3] |})).
  { cbn. repeat (apply NoDup_cons; [cbn; lia |]). apply NoDup_nil. }
  destruct (Hset Hnd) as (_ & _ & Hidem).
  cbn in H. injection H as <-. split; [reflexivity | exact Hidem].
Defined.

(** [send_personal_message] does not raise either. *)
Lemma send_personal_message_returns (wire : Wire) (self : WebSocketManager)
  (message : Message) (w : WebSocket) :
  exists self', send_personal_message wire self message w = Ok self'.
Proof.
  unfold send_personal_message. destruct (wire w message) as [[] | e]; cbn.
  - now exists self.
  - rewrite disconnect_remove_first. eexists; reflexivity.
Qed.

(** Registering a connection that is not yet active keeps the list free of
    repetitions; so do [disconnect] and [broadcast]. *)
Lemma connect_NoDup (accepted : result unit) (self self' : WebSocketManager)
  (w : WebSocket) :
  NoDup (active_connections self) ->
  ~ In w (active_connections self) ->
  connect accepted self w = Ok self' ->
  NoDup (active_connections self').
Proof.
  intros Hnd Hw. unfold connect. destruct accepted as [[] | e]; cbn;
    [| discriminate].
  intros H. injection H as <-. cbn.
  apply NoDup_app; [exact Hnd | apply NoDup_cons; [intros [] | apply NoDup_nil] |].
  intros a Ha [<- | []]. contradiction.
Qed.

Lemma broadcast_NoDup (wire : Wire) (self self' : WebSocketManager)
  (message : Message) (calls : list (WebSocket * bool)) :
  NoDup (active_connections self) ->
  broadcast wire self message = Ok (self', calls) ->
  NoDup (active_connections self').
Proof.
  intros Hnd H. rewrite broadcast_eq in H. injection H as <- _.
  cbn. now apply NoDup_filter.
Qed.

(* ------------------------------------------------------------------ *)
(** ** The check cycle *)

(** One monitor's workflow touches neither the manager nor the list of
    broadcasts. *)
Lemma perform_health_check_frame (env : ProbeEnv) (monitor : APIMonitor.t)
  (w : World) :
  ws_manager (perform_health_check env monitor w) = ws_manager w
  /\ broadcasts (perform_health_check env monitor w) = broadcasts w.
Proof.
  unfold perform_health_check.
  destruct (check_api (client env) monitor (start_time env) (end_time env))
    as [r | e]; [| split; reflexivity].
  destruct (save_health_check (database w) (clocks env)
              (APIMonitor.id monitor) r) as [[db1 hc] | e];
    split; reflexivity.
Qed.

Lemma fold_health_checks_frame (env : APIMonitor.t -> ProbeEnv)
  (monitors : list APIMonitor.t) :
  forall w,
    ws_manager
      (fold_left (fun w' m => perform_health_check (env m) m w') monitors w)
    = ws_manager w
    /\ broadcasts
         (fold_left (fun w' m => perform_health_check (env m) m w') monitors w)
       = broadcasts w.
Proof.
  induction monitors as [| m monitors IH]; intros w; cbn; [now split |].
  destruct (IH (perform_health_check (env m) m w)) as (-> & ->).
  apply perform_health_check_frame.
Qed.

(** A cycle, with or without active monitors, calls [broadcast] on nobody:
    the manager and the broadcasts made are as before. *)
Lemma cycle_frame (env : APIMonitor.t -> ProbeEnv) (w : World) :
  ws_manager (check_all_active_monitors env w) = ws_manager w
  /\ broadcasts (check_all_active_monitors env w) = broadcasts w.
Proof.
  unfold check_all_active_monitors.
  destruct (filter APIMonitor.is_active (api_monitors (database w)))
    as [| m monitors] eqn:E; [now split |].
  apply fold_health_checks_frame.
Qed.

(** What [ws_manager.broadcast] would add, for comparison. *)
Lemma ws_broadcast_adds (wire : Wire) (w : World) (message : Message) :
  broadcasts (ws_broadcast wire w message) = (broadcasts w ++ [message])%list.
Proof. reflexivity. Qed.

(** C1, on the code.  A cycle over one active monitor, with two
    subscribers connected: the probe runs and its result is stored, and
    when the cycle returns no broadcast has been made. *)
Theorem cycle_completes_without_broadcast :
  List.length
    (filter APIMonitor.is_active (api_monitors (database sample_world)))
  = 1%nat
  /\ List.length
       (health_checks
          (database (check_all_active_monitors env_all_up sample_world)))
     = 1%nat
  /\ broadcasts (check_all_active_monitors env_all_up sample_world) = []
  /\ forall env w,
       broadcasts (check_all_active_monitors env w) = broadcasts w.
Proof.
  split; [reflexivity | split; [reflexivity | split; [reflexivity |]]].
  intros env w. apply cycle_frame.
Qed.

(** Storing a health check leaves the [incidents] table alone, so the
    whole workflow of a monitor, and with it a whole cycle, keeps the
    table well formed: at most one open incident per monitor holds between
    cycles too. *)
Lemma save_health_check_frame (db db1 : Database) (clk : Clocks)
  (monitor_id : Z) (r : CheckResult) (hc : HealthCheck.t) :
  save_health_check db clk monitor_id r = Ok (db1, hc) ->
  incidents db1 = incidents db
  /\ incidents_seq db1 = incidents_seq db
  /\ api_monitors db1 = api_monitors db.
Proof.
  unfold save_health_check.
  destruct (fk_ok (backend clk) db monitor_id && _); [| discriminate].
  intros H. injection H as <- _. repeat split.
Qed.

Lemma save_health_check_incidents_ok (db db1 : Database) (clk : Clocks)
  (monitor_id : Z) (r : CheckResult) (hc : HealthCheck.t) :
  save_health_check db clk monitor_id r = Ok (db1, hc) ->
  incidents_ok db ->
  incidents_ok db1.
Proof.
  intros H Hok.
  destruct (save_health_check_frame _ _ _ _ _ _ H) as (E1 & E2 & _).
  unfold incidents_ok, ids_unique, one_open, open_incidents in *.
  rewrite E1, E2. exact Hok.
Qed.

Lemma perform_health_check_incidents_ok (env : ProbeEnv)
  (monitor : APIMonitor.t) (w : World) :
  incidents_ok (database w) ->
  incidents_ok (database (perform_health_check env monitor w)).
Proof.
  intros H. unfold perform_health_check.
  destruct (check_api (client env) monitor (start_time env) (end_time env))
    as [r | e]; [| exact H].
  destruct (save_health_check (database w) (clocks env)
              (APIMonitor.id monitor) r) as [[db1 hc] | e] eqn:E; [| exact H].
  cbn [database]. apply db_after_ok.
  exact (save_health_check_incidents_ok _ _ _ _ _ _ E H).
Qed.

Lemma cycle_incidents_ok (env : APIMonitor.t -> ProbeEnv) (w : World) :
  incidents_ok (database w) ->
  incidents_ok (database (check_all_active_monitors env w)).
Proof.
  unfold check_all_active_monitors.
  destruct (filter APIMonitor.is_active (api_monitors (database w)))
    as [| m monitors]; [auto |].
  generalize (m :: monitors). clear m monitors. intros monitors.
  revert w. induction monitors as [| m monitors IH]; intros w H; cbn.
  - exact H.
  - apply IH. now apply perform_health_check_incidents_ok.
Qed.

(* ================================================================== *)
(** * Further properties of the worker *)

(** [handle_incident] writes only the [incidents] table. *)
Lemma db_after_frame (db : Database) (clk : Clocks) (monitor : APIMonitor.t)
  (up : bool) :
  health_checks (db_after db (handle_incident db clk monitor up))
    = health_checks db
  /\ health_checks_seq (db_after db (handle_incident db clk monitor up))
     = health_checks_seq db
  /\ api_monitors (db_after db (handle_incident db clk monitor up))
     = api_monitors db.
Proof.
  unfold handle_incident.
  destruct (scalar_one_or_none (select_ongoing db (APIMonitor.id monitor)))
    as [[o |] | e]; destruct up; cbn;
    try destruct (fk_ok _ _ _); try destruct (tz_aware _); cbn; auto.
Qed.

(** A [String(limit)] column takes a text when the backend does not check
    it, or the text has at most [limit] characters and no NUL. *)
Lemma column_ok_iff (b : Backend) (limit : nat) (s : string) :
  column_ok b limit s = true
  <-> enforces_text b = false
      \/ ((str_len s <= limit)%nat /\ has_nul s = false).
Proof.
  unfold column_ok.
  rewrite orb_true_iff, andb_true_iff, Nat.leb_le, !negb_true_iff. tauto.
Qed.

(** What [save_health_check] does when the backend takes the row, and
    when it does not. *)
Lemma save_health_check_Ok (db : Database) (clk : Clocks) (monitor_id : Z)
  (r : CheckResult) :
  fk_ok (backend clk) db monitor_id = true ->
  (forall msg,
     error_message r = Some msg -> column_ok (backend clk) 1024 msg = true) ->
  save_health_check db clk monitor_id r =
    Ok ({| api_monitors := api_monitors db;
           health_checks :=
             health_checks db
             ++ [ {| HealthCheck.id := health_checks_seq db;
                     HealthCheck.monitor_id := monitor_id;
                     HealthCheck.status_code := status_code r;
                     HealthCheck.response_time := response_time r;
                     HealthCheck.is_up := is_up r;
                     HealthCheck.error_message := error_message r;
                     HealthCheck.checked_at := func_now clk |} ];
           health_checks_seq := health_checks_seq db + 1;
           incidents := incidents db;
           incidents_seq := incidents_seq db |},
        {| HealthCheck.id := health_checks_seq db;
           HealthCheck.monitor_id := monitor_id;
           HealthCheck.status_code := status_code r;
           HealthCheck.response_time := response_time r;
           HealthCheck.is_up := is_up r;
           HealthCheck.error_message := error_message r;
           HealthCheck.checked_at := func_now clk |}).
Proof.
  intros F C. unfold save_health_check. rewrite F.
  destruct (error_message r) as [msg |]; [rewrite (C msg eq_refl) |];
    reflexivity.
Qed.

Lemma save_health_check_refused (db : Database) (clk : Clocks)
  (monitor_id : Z) (r : CheckResult) :
  fk_ok (backend clk) db monitor_id = false
  \/ (exists msg,
        error_message r = Some msg
        /\ column_ok (backend clk) 1024 msg = false) ->
  save_health_check db clk monitor_id r = Raise commit_refused.
Proof.
  unfold save_health_check. intros [F | (msg & E & C)].
  - now rewrite F.
  - rewrite E, C, andb_false_r. reflexivity.
Qed.

(** A stored health check had its monitor, as far as the backend asks. *)
Lemma save_health_check_inv (db db1 : Database) (clk : Clocks)
  (monitor_id : Z) (r : CheckResult) (hc : HealthCheck.t) :
  save_health_check db clk monitor_id r = Ok (db1, hc) ->
  fk_ok (backend clk) db monitor_id = true.
Proof.
  unfold save_health_check.
  destruct (fk_ok (backend clk) db monitor_id); [reflexivity |].
  cbn. discriminate.
Qed.

(** X1.  The workflow of a monitor stores the result of its probe, or
    nothing.  The probe always returns a result.  When the backend takes
    the row (it does not enforce the foreign key or the monitor is
    registered, and it does not check texts or the error message has at
    most 1024 characters and no NUL), the row of that result (same status
    code, response time, [is_up] and message, the monitor's id, the next
    key) is appended to [health_checks], earlier rows stay, whatever the
    incident handling then does.  When the backend refuses the row, the
    workflow ends there: no table is changed and the incidents are not
    looked at. *)
Theorem perform_health_check_stores_result (env : ProbeEnv)
  (monitor : APIMonitor.t) (w : World) :
  exists r,
    check_api (client env) monitor (start_time env) (end_time env) = Ok r
    /\ ((enforces_fk (backend (clocks env)) = false
         \/ exists m,
              In m (api_monitors (database w))
              /\ APIMonitor.id m = APIMonitor.id monitor) ->
        (forall msg,
           error_message r = Some msg ->
           enforces_text (backend (clocks env)) = false
           \/ ((str_len msg <= 1024)%nat /\ has_nul msg = false)) ->
        health_checks (database (perform_health_check env monitor w)) =
          (health_checks (database w)
           ++ [ {| HealthCheck.id := health_checks_seq (database w);
                   HealthCheck.monitor_id := APIMonitor.id monitor;
                   HealthCheck.status_code := status_code r;
                   HealthCheck.response_time := response_time r;
                   HealthCheck.is_up := is_up r;
                   HealthCheck.error_message := error_message r;
                   HealthCheck.checked_at := func_now (clocks env) |} ])%list
        /\ health_checks_seq (database (perform_health_check env monitor w))
           = health_checks_seq (database w) + 1
        /\ api_monitors (database (perform_health_check env monitor w))
           = api_monitors (database w))
    /\ (enforces_fk (backend (clocks env)) = true ->
        (forall m,
           In m (api_monitors (database w)) ->
           APIMonitor.id m <> APIMonitor.id monitor) ->
        perform_health_check env monitor w = w)
    /\ (forall msg,
          error_message r = Some msg ->
          enforces_text (backend (clocks env)) = true ->
          (1024 < str_len msg)%nat \/ has_nul msg = true ->
          perform_health_check env monitor w = w).
Proof.
  destruct (check_api_returns (client env) monitor (start_time env)
              (end_time env)) as (r & Hr).
  exists r. split; [exact Hr |].
  unfold perform_health_check. rewrite Hr. split; [| split].
  - intros Hfk Hmsg.
    rewrite save_health_check_Ok.
    + cbn [database].
      match goal with
      | |- context [db_after ?d (handle_incident ?d ?c ?m ?u)] =>
          destruct (db_after_frame d c m u) as (-> & -> & ->)
      end.
      repeat split.
    + now apply fk_ok_iff.
    + intros msg E. apply column_ok_iff. now apply Hmsg.
  - intros Hen Hno. rewrite save_health_check_refused; [reflexivity |].
    left. destruct (fk_ok _ _ _) eqn:F; [| reflexivity].
    apply fk_ok_iff in F. destruct F as [F | (m & Hm & E)].
    + congruence.
    + exfalso. exact (Hno m Hm E).
  - intros msg E Hen Hbad. rewrite save_health_check_refused; [reflexivity |].
    right. exists msg. split; [exact E |].
    destruct (column_ok _ _ _) eqn:C; [| reflexivity].
    apply column_ok_iff in C. destruct C as [C | (C1 & C2)].
    + congruence.
    + destruct Hbad as [Hbad | Hbad]; [lia | congruence].
Qed.

(** A connection error with a long text, on a backend that checks the
    length of [error_message]: the health check is refused and nothing is
    written. *)
Lemma perform_health_check_stores_result_witness :
  perform_health_check env_long_error (sample_monitor 10) sample_world
  = sample_world.
Proof.
  destruct (perform_health_check_stores_result env_long_error
              (sample_monitor 10) sample_world)
    as (r & Hr & _ & _ & Hlong).
  vm_compute in Hr. injection Hr as <-.
  apply (Hlong _ eq_refl eq_refl).
  left. apply Nat.ltb_lt. vm_compute. reflexivity.
Defined.

(** A probe that answered with the expected status, for the witnesses. *)
Lemma sample_world_ok : incidents_ok (database sample_world).
Proof. apply empty_db_ok. Qed.

(** X2.  The probe drives the tracker.  On a well-formed table, when
    [save_health_check] raises the workflow changes nothing.  When it
    returns: after a failing result the monitor has exactly one open
    incident; after a passing result it has none if the backend returns
    naive timestamps, and the open incidents it had if the backend returns
    timezone-aware ones (the resolution raises). *)
Theorem perform_health_check_tracks_probe (env : ProbeEnv)
  (monitor : APIMonitor.t) (w : World) :
  incidents_ok (database w) ->
  exists r,
    check_api (client env) monitor (start_time env) (end_time env) = Ok r
    /\ ((exists e,
           save_health_check (database w) (clocks env)
             (APIMonitor.id monitor) r = Raise e) ->
        perform_health_check env monitor w = w)
    /\ ((exists x,
           save_health_check (database w) (clocks env)
             (APIMonitor.id monitor) r = Ok x) ->
        (is_up r = false ->
         exists o,
           open_incidents (database (perform_health_check env monitor w))
             (APIMonitor.id monitor) = [o])
        /\ (is_up r = true ->
            tz_aware (backend (clocks env)) = false ->
            open_incidents (database (perform_health_check env monitor w))
              (APIMonitor.id monitor) = [])
        /\ (is_up r = true ->
            tz_aware (backend (clocks env)) = true ->
            open_incidents (database (perform_health_check env monitor w))
              (APIMonitor.id monitor)
            = open_incidents (database w) (APIMonitor.id monitor))).
Proof.
  intros Hok.
  destruct (check_api_returns (client env) monitor (start_time env)
              (end_time env)) as (r & Hr).
  exists r. split; [exact Hr |].
  unfold perform_health_check. rewrite Hr. split.
  - intros (e & ->). reflexivity.
  - intros ([db1 hc] & Hs). rewrite Hs. cbn [database].
    pose proof (save_health_check_incidents_ok _ _ _ _ _ _ Hs Hok)
      as (_ & Hone & _).
    destruct (save_health_check_frame _ _ _ _ _ _ Hs) as (Ei & _ & Em).
    assert (Hopen : open_incidents db1 (APIMonitor.id monitor)
                    = open_incidents (database w) (APIMonitor.id monitor))
      by (unfold open_incidents; now rewrite Ei).
    assert (F : fk_ok (backend (clocks env)) db1 (APIMonitor.id monitor)
                = true).
    { pose proof (save_health_check_inv _ _ _ _ _ _ Hs) as F.
      unfold fk_ok, registered in *. now rewrite Em. }
    rewrite <- Hopen.
    destruct (at_most_one _ (Hone (APIMonitor.id monitor)))
      as [Hup | (o & Hdown)].
    + split; [| split].
      * intros ->. rewrite handle_down_when_up by assumption.
        cbn [db_after]. rewrite open_after_insert, Hup, Z.eqb_refl.
        eexists; reflexivity.
      * intros -> _. now rewrite handle_up_when_up.
      * intros -> _. now rewrite handle_up_when_up.
    + split; [| split].
      * intros ->. rewrite (handle_down_when_down _ _ _ _ Hdown).
        now exists o.
      * intros -> T. rewrite (handle_up_when_down _ _ _ _ Hdown T).
        cbn [db_after]. now apply open_after_resolve_nil.
      * intros -> T. now rewrite (handle_up_when_down_aware _ _ _ _ Hdown T).
Qed.

(** A failing probe on the sample world opens an incident. *)
Lemma perform_health_check_tracks_probe_witness :
  exists o,
    open_incidents
      (database
         (perform_health_check
            {| client := client_status 500; start_time := 0;
               end_time := 1000; clocks := at_time 2000 |}
            (sample_monitor 10) sample_world)) 1 = [o].
Proof.
  destruct (perform_health_check_tracks_probe
              {| client := client_status 500; start_time := 0;
                 end_time := 1000; clocks := at_time 2000 |}
              (sample_monitor 10) sample_world sample_world_ok)
    as (r & Hr & _ & Hsaved).
  cbn in Hr. injection Hr as <-.
  destruct Hsaved as (Hdown & _); [eexists; reflexivity |].
  exact (Hdown eq_refl).
Defined.

(** The open incident of a monitor belongs to it. *)
Lemma open_monitor_id (db : Database) (m : Z) (o : Incident.t) :
  In o (open_incidents db m) -> Incident.monitor_id o = m.
Proof.
  unfold open_incidents, ongoing_for. intros H. apply filter_In in H.
  destruct H as (_ & H). apply andb_prop in H. now apply Z.eqb_eq.
Qed.

(** X3.  Failure isolation between monitors: on a table with unique keys,
    a call of [handle_incident] for one monitor leaves the incidents of
    every other monitor, open or resolved, exactly as they were. *)
Theorem handle_incident_other_monitors (db : Database) (clk : Clocks)
  (monitor : APIMonitor.t) (up : bool) (other : Z) :
  ids_unique db ->
  other <> APIMonitor.id monitor ->
  incidents_of (db_after db (handle_incident db clk monitor up)) other
  = incidents_of db other.
Proof.
  intros (Hnd & _) Hne. unfold handle_incident.
  destruct (open_incidents db (APIMonitor.id monitor)) as [| o [| o' l]] eqn:E.
  - rewrite (scalar_none _ _ E). destruct up; cbn; [reflexivity |].
    destruct (fk_ok (backend clk) db (APIMonitor.id monitor));
      [| reflexivity].
    unfold incidents_of. cbn. rewrite filter_app. cbn.
    replace (APIMonitor.id monitor =? other) with false
      by (symmetry; apply Z.eqb_neq; congruence).
    apply app_nil_r.
  - rewrite (scalar_one _ _ _ E). destruct up; cbn; [| reflexivity].
    destruct (tz_aware (backend clk)); [reflexivity |]. cbn.
    destruct (update_incident_split o (resolved_incident (utcnow clk) o)
                (incidents db) Hnd (open_in_table _ _ _ E) eq_refl)
      as (l1 & l2 & Hrows & Hupd).
    unfold incidents_of. cbn [incidents with_incidents].
    rewrite Hupd, Hrows, !filter_app. cbn.
    assert (Ho : Incident.monitor_id o = APIMonitor.id monitor).
    { apply (open_monitor_id db). rewrite E. now left. }
    rewrite Ho.
    replace (APIMonitor.id monitor =? other) with false
      by (symmetry; apply Z.eqb_neq; congruence).
    reflexivity.
  - destruct (scalar_many db (APIMonitor.id monitor)) as (e & ->);
      [rewrite E; cbn; lia | reflexivity].
Qed.

(** A failing result for monitor 1 leaves the open incident of monitor 2
    alone. *)
Lemma handle_incident_other_monitors_witness :
  incidents_of
    (db_after second_down_db
       (handle_incident second_down_db (at_time 60000000) (sample_monitor 10)
          false)) 2
  = [ {| Incident.id := 1; Incident.monitor_id := 2;
         Incident.started_at := 0; Incident.resolved_at := None;
         Incident.duration := None; Incident.alert_sent := false |} ].
Proof.
  rewrite handle_incident_other_monitors.
  - reflexivity.
  - split; cbn.
    + apply NoDup_cons; [intros [] | apply NoDup_nil].
    + repeat constructor.
  - cbn. lia.
Defined.

(* ------------------------------------------------------------------ *)
(** ** Concurrent workflows *)

(** Taking a step of one task leaves the steps of all tasks as they
    were, up to order. *)
Lemma concat_take_step {A : Type} (step : A) (rest : list A) :
  forall (tasks : list (list A)) (index : nat),
    nth_error tasks index = Some (step :: rest) ->
    Permutation (List.concat tasks)
      (step :: List.concat (set_nth index rest tasks)).
Proof.
  induction tasks as [| t tasks IH]; intros [| index] H; try discriminate H.
  - cbn in H. injection H as ->. reflexivity.
  - cbn in H. cbn [List.concat set_nth].
    rewrite (IH index H). symmetry. apply Permutation_middle.
Qed.

(** [gather] takes every step of every task, once. *)
Lemma gather_Permutation {A : Type} (choice : list nat) :
  forall tasks : list (list A),
    Permutation (gather choice tasks) (List.concat tasks).
Proof.
  induction choice as [| index choice IH]; intros tasks; cbn [gather].
  - reflexivity.
  - destruct (nth_error tasks index) as [[| step rest] |] eqn:E;
      try apply IH.
    rewrite (concat_take_step step rest tasks index E).
    constructor. apply IH.
Qed.

(** [gather] gives the interleavings, and all of them. *)
Lemma concat_finished {A : Type} (tasks : list (list A)) :
  Forall (fun task => task = []) tasks -> List.concat tasks = [].
Proof.
  induction 1 as [| task tasks Ht _ IH]; cbn; [reflexivity |].
  now rewrite Ht, IH.
Qed.

Lemma gather_complete {A : Type} (tasks : list (list A)) (steps : list A) :
  interleaving tasks steps -> exists choice, gather choice tasks = steps.
Proof.
  induction 1 as [tasks Hdone | tasks index step rest steps Hnth _ (choice & IH)].
  - exists []. cbn. now apply concat_finished.
  - exists (index :: choice). cbn. now rewrite Hnth, IH.
Qed.

Lemma interleaving_skip_finished {A : Type} (tasks : list (list A))
  (steps : list A) :
  interleaving tasks steps -> interleaving ([] :: tasks) steps.
Proof.
  induction 1 as [tasks Hdone | tasks index step rest steps Hnth _ IH].
  - constructor. constructor; [reflexivity | exact Hdone].
  - exact (interleaving_step ([] :: tasks) (S index) step rest steps Hnth IH).
Qed.

Lemma interleaving_in_order {A : Type} (tasks : list (list A)) :
  interleaving tasks (List.concat tasks).
Proof.
  induction tasks as [| task tasks IH]; cbn [List.concat].
  - constructor. constructor.
  - induction task as [| step rest IHtask]; cbn [app].
    + now apply interleaving_skip_finished.
    + exact (interleaving_step ((step :: rest) :: tasks) 0%nat step rest _
               eq_refl IHtask).
Qed.

Lemma gather_sound {A : Type} (choice : list nat) :
  forall tasks : list (list A), interleaving tasks (gather choice tasks).
Proof.
  induction choice as [| index choice IH]; intros tasks; cbn [gather].
  - apply interleaving_in_order.
  - destruct (nth_error tasks index) as [[| step rest] |] eqn:E;
      try apply IH.
    exact (interleaving_step tasks index step rest _ E (IH _)).
Qed.

Lemma saves_app (l1 l2 : list cycle_step) :
  saves (l1 ++ l2) = (saves l1 ++ saves l2)%list.
Proof.
  induction l1 as [| [m | m] l1 IH]; cbn; [reflexivity | f_equal |]; exact IH.
Qed.

Lemma saves_Permutation (l1 l2 : list cycle_step) :
  Permutation l1 l2 -> Permutation (saves l1) (saves l2).
Proof.
  induction 1 as [| s l1 l2 _ IH | s s' l | l1 l2 l3 _ IH1 _ IH2].
  - constructor.
  - destruct s; cbn; [constructor |]; exact IH.
  - destruct s, s'; cbn; try reflexivity. apply perm_swap.
  - now transitivity (saves l2).
Qed.

Lemma saves_workflows (monitors : list APIMonitor.t) :
  saves (List.concat (map workflow monitors)) = monitors.
Proof.
  induction monitors as [| m monitors IH]; cbn; [reflexivity |].
  f_equal. exact IH.
Qed.

(** However the workflows interleave, each monitor's health check is
    saved once. *)
Lemma gather_saves (choice : list nat) (monitors : list APIMonitor.t) :
  Permutation (saves (gather choice (map workflow monitors))) monitors.
Proof.
  rewrite <- (saves_workflows monitors) at 2.
  apply saves_Permutation, gather_Permutation.
Qed.

(** Whether a health check is taken depends on the tables through
    [api_monitors] only. *)
Lemma stores_check_frame (env : APIMonitor.t -> ProbeEnv)
  (db db' : Database) (monitor : APIMonitor.t) :
  api_monitors db' = api_monitors db ->
  stores_check env db' monitor = stores_check env db monitor.
Proof.
  intros E. unfold stores_check, save_health_check, fk_ok, registered.
  rewrite E.
  destruct (check_api _ _ _ _) as [r | e]; [| reflexivity].
  now destruct (_ && _).
Qed.

(** The rows a list of steps appends to [health_checks]: one for each
    workflow whose health check is taken, in the order of the steps. *)
Lemma run_steps_health_checks (env : APIMonitor.t -> ProbeEnv)
  (steps : list cycle_step) :
  forall (pending : Pending) (db : Database),
    exists rows,
      health_checks (run_steps env steps pending db)
      = (health_checks db ++ rows)%list
      /\ map HealthCheck.monitor_id rows
         = map APIMonitor.id (filter (stores_check env db) (saves steps))
      /\ api_monitors (run_steps env steps pending db) = api_monitors db.
Proof.
  induction steps as [| [m | m] steps IH]; intros pending db;
    cbn [run_steps saves filter].
  - exists []. rewrite app_nil_r. repeat split.
  - unfold stores_check at 1.
    destruct (check_api (client (env m)) m (start_time (env m))
                (end_time (env m))) as [r | e]; [| apply IH].
    destruct (save_health_check db (clocks (env m)) (APIMonitor.id m) r)
      as [[db1 hc] | e] eqn:Hs; [| apply IH].
    destruct (IH ((APIMonitor.id m, is_up r) :: pending) db1)
      as (rows & H1 & H2 & H3).
    destruct (save_health_check_frame _ _ _ _ _ _ Hs) as (_ & _ & Em).
    assert (Hrow : health_checks db1 = (health_checks db ++ [hc])%list
                   /\ HealthCheck.monitor_id hc = APIMonitor.id m).
    { unfold save_health_check in Hs.
      destruct (_ && _); [| discriminate Hs].
      injection Hs as <- <-. split; reflexivity. }
    destruct Hrow as (Eh & Eid).
    exists (hc :: rows). rewrite H1, Eh, <- app_assoc, H3, Em. cbn.
    rewrite Eid, H2.
    rewrite (filter_ext _ _ (fun a => stores_check_frame env db db1 a Em)).
    repeat split.
  - destruct (take_pending (APIMonitor.id m) pending) as [[up pending'] |];
      [| apply IH].
    destruct (IH pending'
                (db_after db (handle_incident db (clocks (env m)) m up)))
      as (rows & H1 & H2 & H3).
    destruct (db_after_frame db (clocks (env m)) m up) as (Eh & _ & Em).
    exists rows. rewrite H1, H3, Eh, Em, H2.
    rewrite (filter_ext _ _
               (fun a => stores_check_frame env db _ a Em)).
    repeat split.
Qed.

(** The steps keep the [incidents] table well formed. *)
Lemma run_steps_incidents_ok (env : APIMonitor.t -> ProbeEnv)
  (steps : list cycle_step) :
  forall (pending : Pending) (db : Database),
    incidents_ok db -> incidents_ok (run_steps env steps pending db).
Proof.
  induction steps as [| [m | m] steps IH]; intros pending db Hok;
    cbn [run_steps].
  - exact Hok.
  - destruct (check_api _ _ _ _) as [r | e]; [| now apply IH].
    destruct (save_health_check db (clocks (env m)) (APIMonitor.id m) r)
      as [[db1 hc] | e] eqn:Hs; [| now apply IH].
    apply IH. exact (save_health_check_incidents_ok _ _ _ _ _ _ Hs Hok).
  - destruct (take_pending (APIMonitor.id m) pending) as [[up pending'] |];
      [| now apply IH].
    apply IH. now apply db_after_ok.
Qed.

(** The workflows taken one after the other, in the order of the query,
    are one of the interleavings. *)
Lemma fold_workflows_run_steps (env : APIMonitor.t -> ProbeEnv)
  (monitors : list APIMonitor.t) :
  forall w,
    fold_left (fun w' m => perform_health_check (env m) m w') monitors w
    = {| database :=
           run_steps env (List.concat (map workflow monitors)) []
             (database w);
         ws_manager := ws_manager w;
         broadcasts := broadcasts w |}.
Proof.
  induction monitors as [| m monitors IH]; intros w; cbn [fold_left].
  - now destruct w.
  - rewrite IH.
    change (List.concat (map workflow (m :: monitors)))
      with (Save m :: Handle m :: List.concat (map workflow monitors)).
    cbn [run_steps]. unfold perform_health_check.
    destruct (check_api (client (env m)) m (start_time (env m))
                (end_time (env m))) as [r | e];
      [| cbn [take_pending]; reflexivity].
    destruct (save_health_check (database w) (clocks (env m))
                (APIMonitor.id m) r) as [[db1 hc] | e];
      [| cbn [take_pending]; reflexivity].
    cbn [take_pending]. rewrite Z.eqb_refl. reflexivity.
Qed.

(** X4.  A cycle whose workflows run concurrently, in whatever
    interleaving.  In some order of the active monitors (the order in
    which the workflows reach the database), the cycle appends to
    [health_checks] one row for each active monitor whose health check
    the backend takes, and none for any other monitor; earlier rows and
    the monitors themselves are untouched.  With no active monitor
    nothing is written.  The workflows taken one by one in the order of
    the query are one of the interleavings, and every interleaving of the
    workflows is given by some [choice]. *)
Theorem cycle_checks_each_active_monitor (env : APIMonitor.t -> ProbeEnv)
  (choice : list nat) (w : World) :
  (exists order rows,
     Permutation order
       (filter APIMonitor.is_active (api_monitors (database w)))
     /\ health_checks (database (check_all_active_monitors_gather env choice w))
        = (health_checks (database w) ++ rows)%list
     /\ map HealthCheck.monitor_id rows
        = map APIMonitor.id (filter (stores_check env (database w)) order)
     /\ api_monitors (database (check_all_active_monitors_gather env choice w))
        = api_monitors (database w))
  /\ (filter APIMonitor.is_active (api_monitors (database w)) = [] ->
      check_all_active_monitors_gather env choice w = w)
  /\ check_all_active_monitors_gather env [] w
     = check_all_active_monitors env w
  /\ (forall steps,
        interleaving
          (map workflow
             (filter APIMonitor.is_active (api_monitors (database w))))
          steps ->
        exists choice',
          gather choice'
            (map workflow
               (filter APIMonitor.is_active (api_monitors (database w))))
          = steps).
Proof.
  split; [| split; [| split]].
  - unfold check_all_active_monitors_gather.
    destruct (filter APIMonitor.is_active (api_monitors (database w)))
      as [| m monitors] eqn:E.
    + exists [], []. rewrite app_nil_r. repeat split. constructor.
    + destruct (run_steps_health_checks env
                  (gather choice (map workflow (m :: monitors))) []
                  (database w)) as (rows & H1 & H2 & H3).
      exists (saves (gather choice (map workflow (m :: monitors)))), rows.
      split; [apply gather_saves |]. cbn [database]. auto.
  - intros E. unfold check_all_active_monitors_gather. now rewrite E.
  - unfold check_all_active_monitors_gather, check_all_active_monitors.
    destruct (filter APIMonitor.is_active (api_monitors (database w)))
      as [| m monitors]; [reflexivity |].
    cbn [gather]. symmetry. apply fold_workflows_run_steps.
  - intros steps. apply gather_complete.
Qed.

(** Both monitors active, the second workflow overtaking the first:
    the row of monitor 2 is stored before the row of monitor 1. *)
Example cycle_second_overtakes_first :
  map HealthCheck.monitor_id
    (health_checks
       (database
          (check_all_active_monitors_gather env_all_up [1; 0; 1; 0]%nat
             two_monitors_world)))
  = [2; 1]
  /\ map HealthCheck.monitor_id
       (health_checks
          (database (check_all_active_monitors env_all_up two_monitors_world)))
     = [1; 2].
Proof. split; reflexivity. Qed.

Lemma run_cycles_ok (cycles : list ((APIMonitor.t -> ProbeEnv) * list nat)) :
  forall w,
    incidents_ok (database w) ->
    incidents_ok (database (run_cycles cycles w)).
Proof.
  induction cycles as [| [env choice] cycles IH]; intros w H; cbn.
  - exact H.
  - apply IH. unfold check_all_active_monitors_gather.
    destruct (filter APIMonitor.is_active (api_monitors (database w)));
      [exact H |].
    cbn [database]. now apply run_steps_incidents_ok.
Qed.

(** X5.  The invariant holds between cycles: start from empty tables with
    monitors of distinct keys registered and any subscribers, run any
    number of check cycles, in whatever environments and with the
    workflows of each cycle interleaved in whatever way; afterwards every
    monitor id has at most one open incident. *)
Theorem cycles_keep_one_open_incident (monitors : list APIMonitor.t)
  (manager : WebSocketManager)
  (cycles : list ((APIMonitor.t -> ProbeEnv) * list nat)) (monitor_id : Z) :
  NoDup (map APIMonitor.id monitors) ->
  (List.length
     (open_incidents
        (database
           (run_cycles cycles
              {| database := empty_db monitors; ws_manager := manager;
                 broadcasts := [] |}))
        monitor_id) <= 1)%nat.
Proof.
  intros _.
  pose proof (run_cycles_ok cycles
                {| database := empty_db monitors; ws_manager := manager;
                   broadcasts := [] |} (empty_db_ok monitors)) as Hok.
  destruct Hok as (_ & Hone & _). apply Hone.
Qed.

(** Two cycles over two monitors, both down, the workflows interleaved
    differently each time: one open incident for monitor 1. *)
Lemma cycles_keep_one_open_incident_witness :
  (List.length
     (open_incidents
        (database
           (run_cycles [(env_all_down, [1; 0]%nat); (env_all_down, [0; 1; 1]%nat)]
              {| database := empty_db [sample_monitor 10; billing_monitor];
                 ws_manager := {| active_connections := [] |};
                 broadcasts := [] |}))
        1) <= 1)%nat.
Proof.
  apply (cycles_keep_one_open_incident [sample_monitor 10; billing_monitor]).
  cbn. apply NoDup_cons; [cbn; lia |].
  apply NoDup_cons; [intros [] | apply NoDup_nil].
Defined.

(** X6.  How [handle_incident] fails.  It raises in three cases only, and
    each time before anything is written: [MultipleResultsFound] (from
    [scalar_one_or_none]) when the monitor has two or more open incidents,
    whatever the result; [TypeError] when a passing result meets the one
    open incident on a backend that returns timezone-aware timestamps;
    and the backend's error when a failing result is to open an incident
    for a monitor that [api_monitors] does not hold and the backend
    enforces the foreign key.  In each of these cases it does raise. *)
Theorem handle_incident_raises_iff (db : Database) (clk : Clocks)
  (monitor : APIMonitor.t) (up : bool) :
  (forall e,
     handle_incident db clk monitor up = Raise e ->
     (exc_type e = MultipleResultsFound
      /\ (2 <= List.length (open_incidents db (APIMonitor.id monitor)))%nat)
     \/ (exc_type e = TypeError
         /\ up = true
         /\ tz_aware (backend clk) = true
         /\ List.length (open_incidents db (APIMonitor.id monitor)) = 1%nat)
     \/ (exc_type e = DBAPIError
         /\ up = false
         /\ enforces_fk (backend clk) = true
         /\ open_incidents db (APIMonitor.id monitor) = []
         /\ forall m,
              In m (api_monitors db) ->
              APIMonitor.id m <> APIMonitor.id monitor))
  /\ ((2 <= List.length (open_incidents db (APIMonitor.id monitor)))%nat ->
      exists e,
        handle_incident db clk monitor up = Raise e
        /\ exc_type e = MultipleResultsFound)
  /\ (List.length (open_incidents db (APIMonitor.id monitor)) = 1%nat ->
      up = true ->
      tz_aware (backend clk) = true ->
      handle_incident db clk monitor up = Raise naive_minus_aware)
  /\ (open_incidents db (APIMonitor.id monitor) = [] ->
      up = false ->
      enforces_fk (backend clk) = true ->
      (forall m,
         In m (api_monitors db) -> APIMonitor.id m <> APIMonitor.id monitor) ->
      handle_incident db clk monitor up = Raise commit_refused).
Proof.
  assert (Hfk : fk_ok (backend clk) db (APIMonitor.id monitor) = false ->
                enforces_fk (backend clk) = true
                /\ forall m,
                     In m (api_monitors db) ->
                     APIMonitor.id m <> APIMonitor.id monitor).
  { intros F. split.
    - destruct (enforces_fk (backend clk)) eqn:En; [reflexivity |].
      assert (T : fk_ok (backend clk) db (APIMonitor.id monitor) = true)
        by (apply fk_ok_iff; now left).
      congruence.
    - intros m Hm E.
      assert (T : fk_ok (backend clk) db (APIMonitor.id monitor) = true)
        by (apply fk_ok_iff; right; now exists m).
      congruence. }
  assert (Hfk' : enforces_fk (backend clk) = true ->
                 (forall m,
                    In m (api_monitors db) ->
                    APIMonitor.id m <> APIMonitor.id monitor) ->
                 fk_ok (backend clk) db (APIMonitor.id monitor) = false).
  { intros En Hno. destruct (fk_ok _ _ _) eqn:F; [| reflexivity].
    apply fk_ok_iff in F. destruct F as [F | (m & Hm & E)];
      [congruence | exfalso; exact (Hno m Hm E)]. }
  destruct (open_incidents db (APIMonitor.id monitor)) as [| o [| o' l]] eqn:E.
  - split; [| split; [| split]].
    + intros e He. destruct up.
      * rewrite handle_up_when_up in He by exact E. discriminate He.
      * destruct (fk_ok (backend clk) db (APIMonitor.id monitor)) eqn:F.
        -- rewrite handle_down_when_up in He by assumption. discriminate He.
        -- rewrite handle_down_when_up_refused in He by assumption.
           injection He as <-. right; right.
           destruct (Hfk eq_refl) as (En & Hno). repeat split; assumption.
    + cbn. lia.
    + cbn. discriminate.
    + intros _ -> En Hno. apply handle_down_when_up_refused; auto.
  - split; [| split; [| split]].
    + intros e He. destruct up.
      * destruct (tz_aware (backend clk)) eqn:T.
        -- rewrite (handle_up_when_down_aware _ _ _ _ E T) in He.
           injection He as <-. right; left. repeat split; assumption.
        -- rewrite (handle_up_when_down _ _ _ _ E T) in He. discriminate He.
      * rewrite (handle_down_when_down _ _ _ _ E) in He. discriminate He.
    + cbn. lia.
    + intros _ -> T. exact (handle_up_when_down_aware _ _ _ _ E T).
    + discriminate.
  - assert (Hraise : handle_incident db clk monitor up
                     = Raise (mkExc MultipleResultsFound
                                "Multiple rows were found when one or none was required")).
    { unfold handle_incident, select_ongoing. rewrite E.
      assert (Hlen : (2 <= List.length
                            (order_by_started_at_desc (o :: o' :: l)))%nat)
        by (rewrite order_by_length; cbn; lia).
      destruct (order_by_started_at_desc (o :: o' :: l)) as [| a [| b l']];
        cbn in Hlen; try lia.
      reflexivity. }
    rewrite Hraise. split; [| split; [| split]].
    + intros e He. injection He as <-. left. split; [reflexivity | cbn; lia].
    + intros _. eexists. split; reflexivity.
    + cbn. discriminate.
    + discriminate.
Qed.

(** On a table with two open incidents of the monitor the call raises. *)
Lemma handle_incident_raises_iff_witness :
  exists e,
    handle_incident doubled_db (at_time 10) (sample_monitor 10) true
    = Raise e
    /\ exc_type e = MultipleResultsFound.
Proof.
  apply (proj1 (proj2 (handle_incident_raises_iff doubled_db (at_time 10)
                         (sample_monitor 10) true))).
  cbn. lia.
Defined.

(** One call adds at most a row, keeps resolved rows as they are, and
    keeps the key, monitor and start of every row. *)
Lemma call_keeps_history (db : Database) (clk : Clocks)
  (monitor : APIMonitor.t) (up : bool) :
  incidents_ok db ->
  (List.length (incidents db)
   <= List.length
        (incidents (db_after db (handle_incident db clk monitor up))))%nat
  /\ (forall i,
        In i (incidents db) ->
        Incident.is_resolved i = true ->
        In i (incidents (db_after db (handle_incident db clk monitor up))))
  /\ (forall i,
        In i (incidents db) ->
        exists i',
          In i' (incidents (db_after db (handle_incident db clk monitor up)))
          /\ Incident.id i' = Incident.id i
          /\ Incident.monitor_id i' = Incident.monitor_id i
          /\ Incident.started_at i' = Incident.started_at i).
Proof.
  intros ((Hnd & _) & Hone & _).
  destruct (at_most_one _ (Hone (APIMonitor.id monitor))) as [E | (o & E)];
    destruct up.
  - rewrite handle_up_when_up by exact E. cbn. repeat split; eauto.
  - destruct (fk_ok (backend clk) db (APIMonitor.id monitor)) eqn:F;
      [| rewrite handle_down_when_up_refused by assumption; cbn;
         repeat split; eauto].
    rewrite handle_down_when_up by assumption. cbn. repeat split.
    + rewrite length_app. lia.
    + intros i Hi _. apply in_or_app. now left.
    + intros i Hi. exists i. repeat split. apply in_or_app. now left.
  - destruct (tz_aware (backend clk)) eqn:T;
      [rewrite (handle_up_when_down_aware _ _ _ _ E T); cbn;
       repeat split; eauto |].
    rewrite (handle_up_when_down _ _ _ _ E T). cbn.
    destruct (update_incident_split o (resolved_incident (utcnow clk) o)
                (incidents db) Hnd (open_in_table _ _ _ E) eq_refl)
      as (l1 & l2 & Hrows & Hupd).
    assert (Hopen : Incident.is_resolved o = false).
    { assert (Hin : In o (open_incidents db (APIMonitor.id monitor)))
        by (rewrite E; now left).
      unfold open_incidents, ongoing_for in Hin. apply filter_In in Hin.
      destruct Hin as (_ & Hin). apply andb_prop in Hin.
      destruct Hin as (_ & Hin). unfold Incident.is_ongoing in Hin.
      unfold Incident.is_resolved.
      destruct (Incident.resolved_at o); [discriminate | reflexivity]. }
    rewrite Hupd, Hrows. repeat split.
    + rewrite !length_app. cbn. lia.
    + intros i Hi Hres. apply in_app_or in Hi. apply in_or_app.
      destruct Hi as [Hi | [<- | Hi]]; [now left | congruence |].
      right. now right.
    + intros i Hi. apply in_app_or in Hi.
      destruct Hi as [Hi | [<- | Hi]].
      * exists i. repeat split. apply in_or_app. now left.
      * exists (resolved_incident (utcnow clk) o). repeat split.
        apply in_or_app. right. now left.
      * exists i. repeat split. apply in_or_app. right. now right.
  - rewrite (handle_down_when_down _ _ _ _ E). cbn. repeat split; eauto.
Qed.

(** X7.  The tracker keeps its history.  Along any sequence of calls on a
    well-formed table no incident is ever deleted: the table does not
    shrink, an incident that is resolved stays in it unchanged, and every
    incident keeps its key, its monitor and its start. *)
Theorem tracker_keeps_history (calls : list Call) :
  forall db,
    incidents_ok db ->
    (List.length (incidents db) <= List.length (incidents (run db calls)))%nat
    /\ (forall i,
          In i (incidents db) ->
          Incident.is_resolved i = true ->
          In i (incidents (run db calls)))
    /\ (forall i,
          In i (incidents db) ->
          exists i',
            In i' (incidents (run db calls))
            /\ Incident.id i' = Incident.id i
            /\ Incident.monitor_id i' = Incident.monitor_id i
            /\ Incident.started_at i' = Incident.started_at i).
Proof.
  induction calls as [| [[clk monitor] up] calls IH]; intros db Hok; cbn [run].
  - repeat split; eauto.
  - destruct (call_keeps_history db clk monitor up Hok) as (Hlen & Hres & Hkeep).
    destruct (IH _ (db_after_ok db clk monitor up Hok))
      as (Hlen' & Hres' & Hkeep').
    repeat split.
    + lia.
    + intros i Hi Hr. apply Hres'; [apply Hres |]; assumption.
    + intros i Hi. destruct (Hkeep i Hi) as (i1 & Hi1 & E1 & E2 & E3).
      destruct (Hkeep' i1 Hi1) as (i2 & Hi2 & F1 & F2 & F3).
      exists i2. repeat split; congruence.
Qed.

(** The incident of Scenario A survives a later outage unchanged. *)
Lemma tracker_keeps_history_witness :
  In {| Incident.id := 1; Incident.monitor_id := 1;
        Incident.started_at := 0; Incident.resolved_at := Some 120000000;
        Incident.duration := Some 120; Incident.alert_sent := false |}
    (incidents
       (run (run sample_db (replay (sample_monitor 10) scenario_A))
          (replay (sample_monitor 10)
             [(at_time 180000000, false); (at_time 240000000, true)]))).
Proof.
  apply (tracker_keeps_history
           (replay (sample_monitor 10)
              [(at_time 180000000, false); (at_time 240000000, true)])
           (run sample_db (replay (sample_monitor 10) scenario_A))).
  - apply run_ok, empty_db_ok.
  - left. reflexivity.
  - reflexivity.
Defined.

(** One call of a monitor whose state is [up0], where the transitions
    succeed: a row more exactly on the change from passing to failing. *)
Lemma call_counts_transition (db : Database) (clk : Clocks)
  (monitor : APIMonitor.t) (up0 b : bool) :
  tracker_state db (APIMonitor.id monitor) up0 ->
  fk_ok (backend clk) db (APIMonitor.id monitor) = true ->
  tz_aware (backend clk) = false ->
  List.length (incidents (db_after db (handle_incident db clk monitor b)))
  = (List.length (incidents db) + (if up0 && negb b then 1 else 0))%nat
  /\ exists x, handle_incident db clk monitor b = Ok x.
Proof.
  intros Hst F T. destruct up0; cbn [tracker_state] in Hst.
  - destruct b.
    + rewrite handle_up_when_up by exact Hst. cbn.
      split; [lia | eexists; reflexivity].
    + rewrite handle_down_when_up by assumption. cbn.
      split; [now rewrite length_app | eexists; reflexivity].
  - destruct Hst as (o & E). destruct b.
    + rewrite (handle_up_when_down _ _ _ _ E T). cbn.
      unfold update_incident. rewrite length_map.
      split; [lia | eexists; reflexivity].
    + rewrite (handle_down_when_down _ _ _ _ E). cbn.
      split; [lia | eexists; reflexivity].
Qed.

(** X8.  One incident per outage, where resolutions succeed.  When the
    results of a registered monitor are fed, on a backend that returns
    naive timestamps, to a well-formed table on which the monitor's state
    is [up0], the number of incidents grows by the number of changes from
    passing to failing in the sequence: consecutive failures share one
    incident, and passing results create none. *)
Theorem one_incident_per_outage (monitor : APIMonitor.t)
  (rs : list (Clocks * bool)) :
  forall (db : Database) (up0 : bool),
    incidents_ok db ->
    tracker_state db (APIMonitor.id monitor) up0 ->
    (exists m,
       In m (api_monitors db) /\ APIMonitor.id m = APIMonitor.id monitor) ->
    (forall r, In r rs -> tz_aware (backend (fst r)) = false) ->
    List.length (incidents (run db (replay monitor rs)))
    = (List.length (incidents db) + down_transitions up0 (map snd rs))%nat.
Proof.
  induction rs as [| [clk b] rs IH]; intros db up0 Hok Hst Hreg Hnaive;
    cbn [replay map run fst snd down_transitions].
  - lia.
  - fold (replay monitor rs).
    assert (F : fk_ok (backend clk) db (APIMonitor.id monitor) = true)
      by (apply fk_ok_iff; now right).
    assert (T : tz_aware (backend clk) = false)
      by exact (Hnaive (clk, b) (or_introl eq_refl)).
    destruct (call_counts_transition db clk monitor up0 b Hst F T)
      as (Hlen & Hret).
    rewrite (IH _ b (db_after_ok db clk monitor b Hok)
               (state_after_call db clk monitor b (proj1 (proj2 Hok)) Hret)).
    + rewrite Hlen. lia.
    + destruct (db_after_frame db clk monitor b) as (_ & _ & ->). exact Hreg.
    + intros r Hr. apply Hnaive. now right.
Qed.

(** Scenario A has one outage. *)
Lemma one_incident_per_outage_witness :
  List.length
    (incidents (run sample_db (replay (sample_monitor 10) scenario_A)))
  = 1%nat.
Proof.
  rewrite (one_incident_per_outage (sample_monitor 10) scenario_A sample_db
             true (empty_db_ok _) eq_refl).
  - reflexivity.
  - exists (sample_monitor 10). split; [now left | reflexivity].
  - intros r [<- | [<- | [<- | []]]]; reflexivity.
Defined.

(** A call on a backend that returns timezone-aware timestamps leaves the
    table as it is or appends one open incident. *)
Lemma aware_call_appends (db : Database) (clk : Clocks)
  (monitor : APIMonitor.t) (up : bool) :
  one_open db ->
  tz_aware (backend clk) = true ->
  incidents (db_after db (handle_incident db clk monitor up)) = incidents db
  \/ exists i,
       incidents (db_after db (handle_incident db clk monitor up))
       = (incidents db ++ [i])%list
       /\ Incident.resolved_at i = None.
Proof.
  intros Hone T.
  destruct (at_most_one _ (Hone (APIMonitor.id monitor))) as [E | (o & E)];
    destruct up.
  - rewrite handle_up_when_up by exact E. now left.
  - destruct (fk_ok (backend clk) db (APIMonitor.id monitor)) eqn:F.
    + rewrite handle_down_when_up by assumption. right.
      eexists. split; reflexivity.
    + rewrite handle_down_when_up_refused by assumption. now left.
  - rewrite (handle_up_when_down_aware _ _ _ _ E T). now left.
  - rewrite (handle_down_when_down _ _ _ _ E). now left.
Qed.

(** Rows that are all open and of which no monitor has two are rows of
    different monitors. *)
Lemma open_rows_distinct (rows : list Incident.t) :
  Forall (fun i => Incident.resolved_at i = None) rows ->
  (forall m, (List.length (filter (ongoing_for m) rows) <= 1)%nat) ->
  NoDup (map Incident.monitor_id rows).
Proof.
  induction rows as [| a rows IH]; intros Hopen Hone; cbn; [constructor |].
  inversion Hopen as [| x xs Ha Hrest]; subst.
  assert (Hself : ongoing_for (Incident.monitor_id a) a = true).
  { unfold ongoing_for, Incident.is_ongoing. now rewrite Z.eqb_refl, Ha. }
  constructor.
  - intros Hin. apply in_map_iff in Hin. destruct Hin as (b & Eb & Hb).
    specialize (Hone (Incident.monitor_id a)). cbn in Hone.
    rewrite Hself in Hone. cbn in Hone.
    assert (Hb' : In b (filter (ongoing_for (Incident.monitor_id a)) rows)).
    { apply filter_In. split; [exact Hb |].
      unfold ongoing_for, Incident.is_ongoing.
      rewrite Forall_forall in Hrest. rewrite (Hrest b Hb), Eb, Z.eqb_refl.
      reflexivity. }
    destruct (filter (ongoing_for (Incident.monitor_id a)) rows);
      [destruct Hb' | cbn in Hone; lia].
  - apply IH; [exact Hrest |]. intros m. specialize (Hone m). cbn in Hone.
    destruct (ongoing_for m a); cbn in Hone; lia.
Qed.

(** X23.  On a backend that returns timezone-aware timestamps the tracker
    never resolves an incident.  Along any sequence of calls on a
    well-formed table, every row stays exactly as it is; the rows added
    are all open, and no two of them belong to the same monitor: a
    monitor that went down has its one incident open for ever, however
    often it recovers and fails again. *)
Theorem aware_backend_never_resolves (calls : list Call) :
  forall db,
    incidents_ok db ->
    (forall c, In c calls -> tz_aware (backend (fst (fst c))) = true) ->
    exists added,
      incidents (run db calls) = (incidents db ++ added)%list
      /\ Forall (fun i => Incident.resolved_at i = None) added
      /\ NoDup (map Incident.monitor_id added).
Proof.
  assert (G : forall calls db,
             incidents_ok db ->
             (forall c, In c calls ->
                        tz_aware (backend (fst (fst c))) = true) ->
             exists added,
               incidents (run db calls) = (incidents db ++ added)%list
               /\ Forall (fun i => Incident.resolved_at i = None) added).
  { clear calls. induction calls as [| [[clk monitor] up] calls IH];
      intros db Hok Haware; cbn [run].
    - exists []. split; [now rewrite app_nil_r | constructor].
    - destruct (IH _ (db_after_ok db clk monitor up Hok)) as (added & E & Hopen).
      { intros c Hc. apply Haware. now right. }
      assert (T : tz_aware (backend clk) = true)
        by exact (Haware (clk, monitor, up) (or_introl eq_refl)).
      destruct (aware_call_appends db clk monitor up (proj1 (proj2 Hok)) T)
        as [E1 | (i & E1 & Hi)]; rewrite E1 in E.
      + now exists added.
      + exists (i :: added). rewrite <- app_assoc in E.
        split; [exact E | now constructor]. }
  intros db Hok Haware.
  destruct (G calls db Hok Haware) as (added & E & Hopen).
  exists added. split; [exact E | split; [exact Hopen |]].
  apply open_rows_distinct; [exact Hopen |].
  intros m.
  pose proof (run_ok calls db Hok) as (_ & Hone & _).
  specialize (Hone m). unfold open_incidents in Hone.
  rewrite E, filter_app, length_app in Hone. lia.
Qed.

(** Down, up, down, up on such a backend: one incident, still open. *)
Lemma aware_backend_never_resolves_witness :
  incidents
    (run sample_db
       (replay (sample_monitor 10)
          [(at_time_aware 0, false); (at_time_aware 60000000, true);
           (at_time_aware 120000000, false);
           (at_time_aware 180000000, true)]))
  = [ {| Incident.id := 1; Incident.monitor_id := 1;
         Incident.started_at := 0; Incident.resolved_at := None;
         Incident.duration := None; Incident.alert_sent := false |} ].
Proof.
  destruct (aware_backend_never_resolves
              (replay (sample_monitor 10)
                 [(at_time_aware 0, false); (at_time_aware 60000000, true);
                  (at_time_aware 120000000, false);
                  (at_time_aware 180000000, true)])
              sample_db (empty_db_ok _))
    as (added & E & _).
  - intros c [<- | [<- | [<- | [<- | []]]]]; reflexivity.
  - reflexivity.
Defined.



(* ================================================================== *)
(** * Further properties of the WebSocket manager and endpoint *)

(** X9.  Registration.  [connect] registers nothing when [accept] raises:
    it raises the same exception.  When [accept] returns, the connection is
    appended after the connections already active; and for a connection
    that was not active before, [disconnect] then gives back the manager
    exactly as it was. *)
Theorem connect_then_disconnect (self : WebSocketManager) (w : WebSocket) :
  (forall e, connect (Raise e) self w = Raise e)
  /\ connect (Ok tt) self w
     = Ok {| active_connections := (active_connections self ++ [w])%list |}
  /\ (~ In w (active_connections self) ->
      disconnect
        {| active_connections := (active_connections self ++ [w])%list |} w
      = Ok self).
Proof.
  split; [reflexivity | split; [reflexivity |]].
  intros Hw. rewrite disconnect_remove_first. cbn [active_connections].
  destruct self as [conns]. cbn in *. f_equal. f_equal.
  induction conns as [| c conns IH]; cbn.
  - now rewrite Z.eqb_refl.
  - destruct (w =? c) eqn:E.
    + apply Z.eqb_eq in E. exfalso. apply Hw. left. now symmetry.
    + f_equal. apply IH. intros H. apply Hw. now right.
Qed.

(** Connection 3 joins two others and leaves again. *)
Lemma connect_then_disconnect_witness :
  disconnect {| active_connections := [1; 2; 3] |} 3
  = Ok {| active_connections := [1; 2] |}.
Proof.
  apply (proj2 (proj2 (connect_then_disconnect
                         {| active_connections := [1; 2] |} 3))).
  cbn. lia.
Defined.

(** X10.  [send_personal_message] never raises.  When the sending returns
    the manager is unchanged; when it raises, one registration of the
    connection is removed and every other connection stays, so that a
    connection registered once is no longer active. *)
Theorem send_personal_message_unregisters (wire : Wire)
  (self : WebSocketManager) (message : Message) (w : WebSocket) :
  exists self',
    send_personal_message wire self message w = Ok self'
    /\ (sends wire message w = true -> self' = self)
    /\ (sends wire message w = false ->
        active_connections self' = remove_first w (active_connections self)
        /\ (forall w',
              w' <> w ->
              (In w' (active_connections self')
               <-> In w' (active_connections self)))
        /\ (NoDup (active_connections self) ->
            ~ In w (active_connections self'))).
Proof.
  unfold send_personal_message, sends.
  destruct (wire w message) as [[] | e]; cbn.
  - exists self. split; [reflexivity |]. split; [reflexivity | discriminate].
  - rewrite disconnect_remove_first. eexists. split; [reflexivity |].
    split; [discriminate |]. intros _. cbn. split; [reflexivity | split].
    + intros w' Hne. now apply remove_first_In_other.
    + intros Hnd. now apply remove_first_NoDup.
Qed.

(** A message to a peer that is gone unregisters it. *)
Lemma send_personal_message_unregisters_witness :
  send_personal_message (wire_failing [2])
    {| active_connections := [1; 2] |} connected_message 2
  = Ok {| active_connections := [1] |}.
Proof.
  destruct (send_personal_message_unregisters (wire_failing [2])
              {| active_connections := [1; 2] |} connected_message 2)
    as (self' & H & _ & Hbad).
  destruct (Hbad eq_refl) as (Hact & _).
  rewrite H. destruct self' as [l]. cbn in Hact. now rewrite Hact.
Defined.

(** X11.  A broadcast during which no other coroutine touches the
    manager, and on which every sending returns, changes nothing: the
    manager is as before, and the message went once to each registration,
    in the order of registration.  A broadcast to nobody sends nothing. *)
Theorem broadcast_healthy (wire : Wire) (self : WebSocketManager)
  (message : Message) (during : list (list manager_op)) :
  undisturbed during ->
  (forall w, In w (active_connections self) -> sends wire message w = true) ->
  broadcast_live wire self message during
  = Ok (self, map (fun w => (w, true)) (active_connections self))
  /\ delivered_to (map (fun w => (w, true)) (active_connections self))
     = active_connections self.
Proof.
  intros Halone Hall. rewrite (broadcast_live_alone _ _ _ _ Halone).
  rewrite broadcast_eq. destruct self as [conns]. cbn in *.
  split.
  - f_equal. f_equal.
    + f_equal. induction conns as [| c conns IH]; cbn; [reflexivity |].
      rewrite (Hall c (or_introl eq_refl)). f_equal.
      apply IH. intros w Hw. apply Hall. now right.
    + apply map_ext_in. intros w Hw. now rewrite (Hall w Hw).
  - clear Hall. unfold delivered_to.
    induction conns as [| c conns IH]; cbn; [reflexivity |].
    f_equal. exact IH.
Qed.

(** Two healthy subscribers, nobody else at the manager during the two
    sendings. *)
Lemma broadcast_healthy_witness :
  broadcast_live wire_healthy {| active_connections := [1; 2] |}
    (stats_updated "2024-01-01T00:00:00") [[]; []]
  = Ok ({| active_connections := [1; 2] |}, [(1, true); (2, true)]).
Proof.
  apply (proj1 (broadcast_healthy wire_healthy
                  {| active_connections := [1; 2] |}
                  (stats_updated "2024-01-01T00:00:00") [[]; []]
                  (Forall_cons _ eq_refl (Forall_cons _ eq_refl (Forall_nil _)))
                  (fun w _ => eq_refl))).
Defined.

(** X22.  A broadcast during which no other coroutine touches the manager
    returns, having called [send_json] once on every active connection, in
    order, whether or not earlier ones failed.  A connection whose call
    returned has received the message and stays active; one whose call
    raised has received nothing and is no longer active; nothing is added.
    The next such broadcast, whatever the wire then does, calls
    [send_json] only on connections that were active before and took the
    first message. *)
Theorem broadcast_evicts_failed (wire : Wire) (self : WebSocketManager)
  (message : Message) (during : list (list manager_op)) :
  undisturbed during ->
  exists self' calls,
    broadcast_live wire self message during = Ok (self', calls)
    /\ attempted calls = active_connections self
    /\ (forall w,
          In w (active_connections self) ->
          sends wire message w = true ->
          In w (delivered_to calls) /\ In w (active_connections self'))
    /\ (forall w,
          sends wire message w = false ->
          ~ In w (delivered_to calls) /\ ~ In w (active_connections self'))
    /\ (forall w,
          In w (active_connections self') -> In w (active_connections self))
    /\ (forall wire' message' during',
          undisturbed during' ->
          exists self'' calls',
            broadcast_live wire' self' message' during' = Ok (self'', calls')
            /\ attempted calls' = active_connections self'
            /\ forall w,
                 In w (attempted calls') ->
                 In w (active_connections self)
                 /\ sends wire message w = true).
Proof.
  intros Halone. rewrite (broadcast_live_alone _ _ _ _ Halone).
  eexists _, _. split; [apply broadcast_eq |].
  rewrite attempted_eq, delivered_to_eq. cbn [active_connections].
  split; [reflexivity |]. split; [| split; [| split]].
  - intros w Hin Hok. split; apply filter_In; auto.
  - intros w Hbad.
    split; intros H; apply filter_In in H; destruct H as [_ H]; congruence.
  - intros w H. apply filter_In in H. tauto.
  - intros wire' message' during' Halone'.
    rewrite (broadcast_live_alone _ _ _ _ Halone').
    eexists _, _. split; [apply broadcast_eq |].
    rewrite attempted_eq. cbn [active_connections].
    split; [reflexivity |]. intros w H. apply filter_In in H. exact H.
Qed.

(** Scenario C through the theorem. *)
Lemma broadcast_evicts_failed_witness :
  exists self' calls,
    broadcast_live (wire_failing [2]) {| active_connections := [1; 2] |}
      (stats_updated "2024-01-01T00:00:00") [[]; []] = Ok (self', calls)
    /\ In 1 (delivered_to calls)
    /\ In 1 (active_connections self')
    /\ ~ In 2 (delivered_to calls)
    /\ ~ In 2 (active_connections self').
Proof.
  destruct (broadcast_evicts_failed (wire_failing [2])
              {| active_connections := [1; 2] |}
              (stats_updated "2024-01-01T00:00:00") [[]; []]
              (Forall_cons _ eq_refl (Forall_cons _ eq_refl (Forall_nil _))))
    as (self' & calls & H & _ & Hok & Hbad & _).
  exists self', calls. split; [exact H |].
  destruct (Hok 1 (or_introl eq_refl) eq_refl) as (H1 & H2).
  destruct (Hbad 2 eq_refl) as (H3 & H4).
  auto.
Defined.

(** The loop sends pongs only. *)
Lemma receive_loop_pongs (wire : Wire) (w : WebSocket)
  (incoming : list (result string)) :
  forall m, In m (fst (receive_loop wire w incoming)) -> m = pong_message.
Proof.
  induction incoming as [| [data | e] incoming IH]; cbn; try tauto.
  destruct (String.eqb data "ping"); [| exact IH].
  destruct (wire w pong_message) as [u | e]; [| cbn; tauto].
  destruct (receive_loop wire w incoming) as [sent stands]. cbn in *.
  intros m [<- | H]; [reflexivity | now apply IH].
Qed.

(** With a wire that takes the pongs, the loop answers each ping and
    stands as the input leaves it. *)
Lemma receive_loop_healthy (wire : Wire) (w : WebSocket)
  (incoming : list (result string)) :
  sends wire pong_message w = true ->
  List.length (fst (receive_loop wire w incoming))
  = count_occ string_dec (received_texts incoming) "ping"
  /\ (match snd (receive_loop wire w incoming) with
      | Waiting => false
      | Left _ => true
      end = hangs_up incoming).
Proof.
  unfold sends. intros Hs.
  induction incoming as [| [data | e] incoming (IH1 & IH2)]; cbn;
    try (split; reflexivity).
  destruct (String.eqb_spec data "ping") as [-> | Hne].
  - destruct (wire w pong_message) as [u | e]; [| discriminate].
    destruct (receive_loop wire w incoming) as [sent stands]. cbn in *.
    destruct (string_dec "ping" "ping") as [_ | C]; [| congruence].
    split; [now rewrite IH1 | exact IH2].
  - destruct (string_dec data "ping") as [C | _]; [congruence |].
    split; assumption.
Qed.

Lemma remove_first_last (w : WebSocket) (l : list WebSocket) :
  ~ In w l -> remove_first w (l ++ [w]) = l.
Proof.
  induction l as [| c l IH]; cbn; intros H.
  - now rewrite Z.eqb_refl.
  - destruct (w =? c) eqn:E.
    + apply Z.eqb_eq in E. exfalso. apply H. left. now symmetry.
    + f_equal. apply IH. intros Hin. apply H. now right.
Qed.

(** X12.  One session of [websocket_endpoint], run alone.  If [accept]
    raises, the endpoint raises and nothing is registered.  Otherwise it
    does not raise; it sends nothing but pongs after the welcome; when the
    wire takes the pongs it sends exactly one per received text [ping],
    none for any other text, and it returns exactly when receiving
    raised.  For a connection that was not registered before: once the
    endpoint has returned the manager is exactly as the session found it;
    while it still waits, the connection is registered last, unless the
    welcome could not be sent, in which case it is already unregistered
    although the loop goes on. *)
Theorem websocket_endpoint_session (wire : Wire)
  (incoming : list (result string)) (self : WebSocketManager)
  (w : WebSocket) :
  (forall e, websocket_endpoint (Raise e) wire incoming self w = Raise e)
  /\ exists run,
       websocket_endpoint (Ok tt) wire incoming self w = Ok run
       /\ (forall m, In m (pongs run) -> m = pong_message)
       /\ (sends wire pong_message w = true ->
           List.length (pongs run)
           = count_occ string_dec (received_texts incoming) "ping"
           /\ returned run = hangs_up incoming)
       /\ (~ In w (active_connections self) ->
           (returned run = true -> manager_after run = self)
           /\ (returned run = false ->
               active_connections (manager_after run)
               = if sends wire connected_message w
                 then (active_connections self ++ [w])%list
                 else active_connections self)).
Proof.
  split; [reflexivity |].
  unfold websocket_endpoint. cbn [connect bind].
  unfold send_personal_message, sends.
  pose proof (receive_loop_pongs wire w incoming) as Hp.
  pose proof (receive_loop_healthy wire w incoming) as Hh. unfold sends in Hh.
  destruct (receive_loop wire w incoming) as [sent stands]. cbn [fst snd] in *.
  destruct (wire w connected_message) as [[] | e0]; cbn [bind try_except].
  - destruct stands as [| e].
    + eexists. split; [reflexivity |]. cbn. split; [exact Hp | split].
      * exact Hh.
      * intros _. split; [discriminate | reflexivity].
    + rewrite disconnect_remove_first. cbn [bind active_connections].
      eexists. split; [reflexivity |]. cbn. split; [exact Hp | split].
      * exact Hh.
      * intros Hw. split; [| discriminate]. intros _.
        rewrite (remove_first_last w _ Hw). now destruct self.
  - rewrite disconnect_remove_first. cbn [active_connections].
    destruct stands as [| e].
    + eexists. split; [reflexivity |]. cbn. split; [exact Hp | split].
      * exact Hh.
      * intros Hw. split; [discriminate |]. intros _.
        now apply remove_first_last.
    + rewrite disconnect_remove_first. cbn [bind active_connections].
      eexists. split; [reflexivity |]. cbn. split; [exact Hp | split].
      * exact Hh.
      * intros Hw. split; [| discriminate]. intros _.
        rewrite (remove_first_last w _ Hw), (remove_first_absent w _ Hw).
        now destruct self.
Qed.

(** The sample session: two pings, one other text, then the client goes
    away; two pongs, and the manager is as before. *)
Lemma websocket_endpoint_session_witness :
  websocket_endpoint (Ok tt) wire_healthy sample_session
    {| active_connections := [1; 2] |} 3
  = Ok {| manager_after := {| active_connections := [1; 2] |};
          pongs := [pong_message; pong_message];
          returned := true |}.
Proof.
  destruct (proj2 (websocket_endpoint_session wire_healthy sample_session
                     {| active_connections := [1; 2] |} 3))
    as (run & H & _ & Hh & Hm).
  destruct (Hh eq_refl) as (_ & Hret).
  assert (Hw : ~ In 3 (active_connections {| active_connections := [1; 2] |}))
    by (cbn; lia).
  pose proof (proj1 (Hm Hw) Hret) as Hself.
  rewrite H. cbn in H. injection H as <-. reflexivity.
Defined.

(* ================================================================== *)
(** * The monitor registry *)

(** A key selects at most one row of a table with unique keys. *)
Lemma filter_key_unique (q : APIMonitor.t -> bool) (k : Z)
  (l : list APIMonitor.t) :
  NoDup (map APIMonitor.id l) ->
  filter (fun m => (APIMonitor.id m =? k) && q m) l = []
  \/ exists m,
       filter (fun m => (APIMonitor.id m =? k) && q m) l = [m].
Proof.
  induction l as [| a l IH]; cbn; intros Hnd; [now left |].
  inversion Hnd as [| x xs Hnot Hnd']; subst.
  destruct (APIMonitor.id a =? k) eqn:E; cbn.
  - apply Z.eqb_eq in E.
    assert (Hrest : filter (fun m => (APIMonitor.id m =? k) && q m) l = []).
    { clear IH Hnd Hnd'. induction l as [| b l IH]; cbn; [reflexivity |].
      destruct (APIMonitor.id b =? k) eqn:Eb; cbn.
      - apply Z.eqb_eq in Eb. exfalso. apply Hnot. left. congruence.
      - apply IH. intros H. apply Hnot. now right. }
    rewrite Hrest. destruct (q a); [right; now exists a | now left].
  - apply IH, Hnd'.
Qed.

(** The lookup finds the owner's monitor. *)
Lemma get_monitor_found (st : Store) (m : APIMonitor.t) (u : User.t) :
  NoDup (map APIMonitor.id (api_monitors (tables st))) ->
  In m (api_monitors (tables st)) ->
  APIMonitor.user_id m = User.id u ->
  get_monitor st (APIMonitor.id m) u = Ok m.
Proof.
  intros Hnd Hin Hu. unfold get_monitor, select_monitor.
  assert (Hm : In m (filter
                       (fun r => (APIMonitor.id r =? APIMonitor.id m)
                                 && (APIMonitor.user_id r =? User.id u))
                       (api_monitors (tables st)))).
  { apply filter_In. split; [exact Hin |].
    now rewrite Z.eqb_refl, Hu, Z.eqb_refl. }
  destruct (filter_key_unique (fun r => APIMonitor.user_id r =? User.id u)
              (APIMonitor.id m) _ Hnd) as [E | (m' & E)];
    rewrite E in Hm |- *.
  - destruct Hm.
  - destruct Hm as [<- | []]. reflexivity.
Qed.

(** It answers 404 when no row has both the key and the owner. *)
Lemma get_monitor_missing (st : Store) (k : Z) (u : User.t) :
  (forall m, In m (api_monitors (tables st)) ->
             APIMonitor.id m = k -> APIMonitor.user_id m <> User.id u) ->
  get_monitor st k u = Raise (HTTPException 404 "Monitor not found").
Proof.
  intros H. unfold get_monitor, select_monitor.
  assert (E : filter
                (fun m => (APIMonitor.id m =? k)
                          && (APIMonitor.user_id m =? User.id u))
                (api_monitors (tables st)) = []).
  { induction (api_monitors (tables st)) as [| a l IH]; cbn; [reflexivity |].
    destruct (APIMonitor.id a =? k) eqn:E1; cbn.
    - apply Z.eqb_eq in E1.
      destruct (APIMonitor.user_id a =? User.id u) eqn:E2.
      + apply Z.eqb_eq in E2. exfalso.
        exact (H a (or_introl eq_refl) E1 E2).
      + apply IH. intros m Hm. apply H. now right.
    - apply IH. intros m Hm. apply H. now right. }
  rewrite E. reflexivity.
Qed.

(** What it returns is a row with the key, owned by the caller. *)
Lemma get_monitor_inv (st : Store) (k : Z) (u : User.t) (m : APIMonitor.t) :
  get_monitor st k u = Ok m ->
  In m (api_monitors (tables st))
  /\ APIMonitor.id m = k
  /\ APIMonitor.user_id m = User.id u.
Proof.
  unfold get_monitor, select_monitor.
  destruct (filter _ (api_monitors (tables st))) as [| a [| b l]] eqn:E;
    cbn; try discriminate.
  intros H. injection H as <-.
  assert (Hin : In a (filter
                        (fun m => (APIMonitor.id m =? k)
                                  && (APIMonitor.user_id m =? User.id u))
                        (api_monitors (tables st))))
    by (rewrite E; now left).
  apply filter_In in Hin. destruct Hin as (Hin & Hb).
  apply andb_prop in Hb. destruct Hb as (H1 & H2).
  apply Z.eqb_eq in H1, H2. auto.
Qed.

Lemma verify_monitor_access_eq (st : Store) (k : Z) (u : User.t) :
  verify_monitor_access st k u = get_monitor st k u.
Proof. reflexivity. Qed.

(** What the accepted body guarantees. *)
Lemma MonitorCreate_accepted (d : MonitorCreate.t) :
  MonitorCreate_errors d = [] ->
  name_ok (MonitorCreate.name d) = true
  /\ in_range 100 599 (MonitorCreate.expected_status d) = true
  /\ in_range 10 3600 (MonitorCreate.check_interval d) = true
  /\ in_range 1 60 (MonitorCreate.timeout d) = true.
Proof.
  unfold MonitorCreate_errors.
  destruct (name_ok _), (in_range 100 599 _), (in_range 10 3600 _),
    (in_range 1 60 _); cbn; intros H; try discriminate H; auto.
Qed.

Lemma in_range_spec (lo hi v : Z) :
  in_range lo hi v = true <-> lo <= v <= hi.
Proof. unfold in_range. rewrite andb_true_iff, !Z.leb_le. tauto. Qed.

Lemma empty_store_unique : monitors_unique empty_store.
Proof. split; constructor. Qed.

(** What a returned registration has done. *)
Lemma create_monitor_Ok (st st' : Store) (u : User.t) (d : MonitorCreate.t)
  (m : APIMonitor.t) :
  create_monitor st u d = Ok (st', m) ->
  m = {| APIMonitor.id := api_monitors_seq st;
         APIMonitor.user_id := User.id u;
         APIMonitor.name := MonitorCreate.name d;
         APIMonitor.url := MonitorCreate.url d;
         APIMonitor.method := MonitorCreate.method d;
         APIMonitor.headers :=
           Some (match MonitorCreate.headers d with
                 | Some h => h
                 | None => []
                 end);
         APIMonitor.expected_status := MonitorCreate.expected_status d;
         APIMonitor.check_interval := MonitorCreate.check_interval d;
         APIMonitor.timeout := MonitorCreate.timeout d;
         APIMonitor.is_active := MonitorCreate.is_active d |}
  /\ st' = {| tables :=
                with_monitors (tables st) (api_monitors (tables st) ++ [m]);
              api_monitors_seq := api_monitors_seq st + 1;
              store_backend := store_backend st |}.
Proof.
  unfold create_monitor.
  destruct (monitor_columns_ok _ _); [| discriminate].
  intros H. injection H as <- <-. split; reflexivity.
Qed.

(** Registration keeps the keys unique. *)
Lemma create_monitor_unique (st st' : Store) (u : User.t)
  (d : MonitorCreate.t) (m : APIMonitor.t) :
  monitors_unique st ->
  create_monitor st u d = Ok (st', m) ->
  monitors_unique st'.
Proof.
  intros (Hnd & Hlt) H. apply create_monitor_Ok in H. destruct H as (-> & ->).
  split; cbn.
  - rewrite map_app. cbn.
    apply NoDup_app;
      [exact Hnd | apply NoDup_cons; [intros [] | apply NoDup_nil] |].
    intros k Hk [<- | []]. apply in_map_iff in Hk.
    destruct Hk as (m & Hm & Hin). rewrite Forall_forall in Hlt.
    specialize (Hlt m Hin). lia.
  - apply Forall_app. split.
    + eapply Forall_impl; [| exact Hlt]. cbn. intros; lia.
    + repeat constructor. cbn. lia.
Qed.

(** Alice's registration. *)
Lemma alice_registered :
  create_monitor empty_store alice sample_body
  = Ok (alice_store, alice_monitor).
Proof. reflexivity. Qed.

Lemma alice_store_unique : monitors_unique alice_store.
Proof.
  exact (create_monitor_unique _ _ _ _ _ empty_store_unique alice_registered).
Qed.

(** The two texts of a monitor, as the backend sees them. *)
Lemma monitor_columns_ok_iff (b : Backend) (m : APIMonitor.t) :
  monitor_columns_ok b m = true
  <-> enforces_text b = false
      \/ (((str_len (APIMonitor.name m) <= 255)%nat
           /\ has_nul (APIMonitor.name m) = false)
          /\ (str_len (APIMonitor.url m) <= 2048)%nat
          /\ has_nul (APIMonitor.url m) = false).
Proof.
  unfold monitor_columns_ok. rewrite andb_true_iff, !column_ok_iff. tauto.
Qed.

(** X14.  Registering a monitor.  For a body the schema accepts (a name of
    1 to 255 characters, expected status 100-599, interval 10-3600 s,
    timeout 1-60 s; the url is not bounded), on a store with unique keys.
    When the backend does not check its texts, or the url has at most 2048
    characters and neither it nor the name holds a NUL, [create_monitor]
    stores a monitor with the fields of the body, within the schema's
    bounds, that belongs to the caller, has a fresh key and a header map
    that is never null; the owner reads it back with [get_monitor], every
    other user gets 404 for its key, and every monitor that could be read
    before can still be read.  When the backend checks its texts and the
    url is longer or one of the two holds a NUL, the commit fails and
    nothing is stored. *)
Theorem create_monitor_roundtrip (st : Store) (u : User.t)
  (d : MonitorCreate.t) :
  MonitorCreate_errors d = [] ->
  monitors_unique st ->
  (enforces_text (store_backend st) = false
   \/ ((str_len (MonitorCreate.url d) <= 2048)%nat
       /\ has_nul (MonitorCreate.url d) = false
       /\ has_nul (MonitorCreate.name d) = false) ->
   exists st' m,
     create_monitor st u d = Ok (st', m)
     /\ within_schema m
     /\ APIMonitor.user_id m = User.id u
     /\ APIMonitor.name m = MonitorCreate.name d
     /\ APIMonitor.url m = MonitorCreate.url d
     /\ APIMonitor.method m = MonitorCreate.method d
     /\ APIMonitor.expected_status m = MonitorCreate.expected_status d
     /\ APIMonitor.check_interval m = MonitorCreate.check_interval d
     /\ APIMonitor.timeout m = MonitorCreate.timeout d
     /\ APIMonitor.is_active m = MonitorCreate.is_active d
     /\ APIMonitor.headers m
        = Some (match MonitorCreate.headers d with
                | Some h => h
                | None => []
                end)
     /\ (forall m0,
           In m0 (api_monitors (tables st)) ->
           APIMonitor.id m0 <> APIMonitor.id m)
     /\ get_monitor st' (APIMonitor.id m) u = Ok m
     /\ (forall other,
           User.id other <> User.id u ->
           get_monitor st' (APIMonitor.id m) other
           = Raise (HTTPException 404 "Monitor not found"))
     /\ (forall k v m0,
           get_monitor st k v = Ok m0 -> get_monitor st' k v = Ok m0))
  /\ (enforces_text (store_backend st) = true ->
      (2048 < str_len (MonitorCreate.url d))%nat
      \/ has_nul (MonitorCreate.url d) = true
      \/ has_nul (MonitorCreate.name d) = true ->
      create_monitor st u d = Raise commit_refused).
Proof.
  intros Hacc Huniq.
  destruct (MonitorCreate_accepted d Hacc) as (Hn & Hs & Hi & Ht).
  apply in_range_spec in Hs, Hi, Ht.
  unfold name_ok in Hn. apply in_range_spec in Hn.
  split.
  - intros Hcols.
    destruct (create_monitor st u d) as [[st' m] |] eqn:E.
    + pose proof (create_monitor_unique _ _ _ _ _ Huniq E) as (Hnd' & _).
      destruct (create_monitor_Ok _ _ _ _ _ E) as (Hm & Hst).
      destruct Huniq as (Hnd & Hlt). rewrite Forall_forall in Hlt.
      assert (Hfresh : forall m0, In m0 (api_monitors (tables st)) ->
                                  APIMonitor.id m0 <> APIMonitor.id m).
      { intros m0 Hm0. specialize (Hlt m0 Hm0). subst m. cbn. lia. }
      exists st', m. split; [reflexivity |].
      split; [subst m; repeat split; cbn; lia |].
      do 9 (split; [subst m; reflexivity |]).
      split; [exact Hfresh |]. split; [| split].
      * apply get_monitor_found; [exact Hnd' | | subst m; reflexivity].
        subst st'. cbn. apply in_or_app. right. now left.
      * intros other Hother. apply get_monitor_missing.
        subst st'. cbn [tables with_monitors api_monitors].
        intros m0 Hm0 Hid. apply in_app_or in Hm0.
        destruct Hm0 as [Hm0 | [<- | []]].
        -- exfalso. exact (Hfresh m0 Hm0 Hid).
        -- subst m. cbn. congruence.
      * intros k v m0 Hget. apply get_monitor_inv in Hget.
        destruct Hget as (Hin & <- & Hv).
        apply get_monitor_found; [exact Hnd' | | exact Hv].
        subst st'. cbn. apply in_or_app. now left.
    + exfalso. unfold create_monitor in E.
      match type of E with
      | (if monitor_columns_ok ?b ?m then _ else _) = _ =>
          assert (C : monitor_columns_ok b m = true)
      end.
      { apply monitor_columns_ok_iff. cbn.
        destruct Hcols as [Hc | (Hc1 & Hc2 & Hc3)]; [now left | right].
        repeat split; try assumption. lia. }
      rewrite C in E. discriminate E.
  - intros Hen Hbad. unfold create_monitor.
    match goal with
    | |- (if monitor_columns_ok ?b ?m then _ else _) = _ =>
        destruct (monitor_columns_ok b m) eqn:C
    end; [| reflexivity].
    apply monitor_columns_ok_iff in C. cbn in C.
    destruct C as [C | ((C1 & C2) & C3 & C4)]; [congruence |].
    destruct Hbad as [Hbad | [Hbad | Hbad]]; [lia | congruence | congruence].
Qed.

(** A name of 255 accented letters, 510 bytes, is within the schema and is
    stored, also by a backend that checks its texts. *)
Lemma create_monitor_roundtrip_witness :
  exists st' m,
    create_monitor empty_store_strict alice accented_body = Ok (st', m)
    /\ within_schema m
    /\ APIMonitor.name m = repeat_string e_acute 255
    /\ get_monitor st' (APIMonitor.id m) alice = Ok m.
Proof.
  assert (Hacc : MonitorCreate_errors accented_body = [])
    by (vm_compute; reflexivity).
  assert (Huniq : monitors_unique empty_store_strict)
    by (split; constructor).
  destruct (proj1 (create_monitor_roundtrip empty_store_strict alice
                     accented_body Hacc Huniq))
    as (st' & m & H & Hw & _ & Hname & _ & _ & _ & _ & _ & _ & _ & _ & Hget & _).
  - right. split; [apply Nat.leb_le; vm_compute; reflexivity |].
    split; vm_compute; reflexivity.
  - exists st', m.
    split; [exact H | split; [exact Hw | split; [exact Hname | exact Hget]]].
Defined.

(** Alice registers the example and reads it back; a url of 2049
    characters is stored by a backend that does not check its texts and
    refused by one that does. *)
Example create_monitor_example :
  get_monitor alice_store 1 alice = Ok alice_monitor
  /\ (exists st' m,
        create_monitor empty_store alice long_url_body = Ok (st', m))
  /\ create_monitor empty_store_strict alice long_url_body
     = Raise commit_refused.
Proof.
  split; [reflexivity | split].
  - vm_compute. eexists _, _. reflexivity.
  - vm_compute. reflexivity.
Qed.

(** In a table with unique keys a key names one row. *)
Lemma monitor_key_inj (l : list APIMonitor.t) (a b : APIMonitor.t) :
  NoDup (map APIMonitor.id l) ->
  In a l -> In b l -> APIMonitor.id a = APIMonitor.id b -> a = b.
Proof.
  induction l as [| c l IH]; cbn; intros Hnd Ha Hb E; [contradiction |].
  inversion Hnd as [| x xs Hnot Hnd']; subst.
  destruct Ha as [<- | Ha], Hb as [<- | Hb].
  - reflexivity.
  - exfalso. apply Hnot. rewrite E. now apply in_map.
  - exfalso. apply Hnot. rewrite <- E. now apply in_map.
  - now apply IH.
Qed.

(** X15.  Users are isolated from one another.  On a store with unique
    keys, for a monitor that belongs to someone else every endpoint answers
    as if it did not exist: [get_monitor], [verify_monitor_access],
    [update_monitor] (whatever the body) and [delete_monitor] all raise
    the 404 "Monitor not found", and nothing is written. *)
Theorem foreign_monitor_not_found (st : Store) (m : APIMonitor.t)
  (other : User.t) (d : MonitorUpdate.t) :
  monitors_unique st ->
  In m (api_monitors (tables st)) ->
  APIMonitor.user_id m <> User.id other ->
  get_monitor st (APIMonitor.id m) other
  = Raise (HTTPException 404 "Monitor not found")
  /\ verify_monitor_access st (APIMonitor.id m) other
     = Raise (HTTPException 404 "Monitor not found")
  /\ update_monitor st (APIMonitor.id m) d other
     = Raise (HTTPException 404 "Monitor not found")
  /\ delete_monitor st (APIMonitor.id m) other
     = Raise (HTTPException 404 "Monitor not found").
Proof.
  intros (Hnd & _) Hin Hown.
  assert (H : get_monitor st (APIMonitor.id m) other
              = Raise (HTTPException 404 "Monitor not found")).
  { apply get_monitor_missing. intros m' Hm' Hid.
    rewrite (monitor_key_inj _ m' m Hnd Hm' Hin Hid). exact Hown. }
  unfold update_monitor, delete_monitor, verify_monitor_access.
  fold (get_monitor st (APIMonitor.id m) other).
  rewrite H. repeat split.
Qed.

(** Bob asks for Alice's monitor. *)
Lemma foreign_monitor_not_found_witness :
  delete_monitor alice_store 1 bob
  = Raise (HTTPException 404 "Monitor not found").
Proof.
  apply (foreign_monitor_not_found alice_store alice_monitor bob no_update).
  - exact alice_store_unique.
  - left. reflexivity.
  - cbn. lia.
Defined.

(** Filtering one key out and then selecting a key. *)
Lemma filter_out_then_select {A : Type} (key : A -> Z) (k k' : Z)
  (l : list A) :
  filter (fun a => key a =? k') (filter (fun a => negb (key a =? k)) l)
  = if k' =? k then [] else filter (fun a => key a =? k') l.
Proof.
  induction l as [| a l IH]; cbn; [now destruct (k' =? k) |].
  destruct (key a =? k) eqn:E1; cbn.
  - rewrite IH. destruct (k' =? k) eqn:E2; [reflexivity |].
    apply Z.eqb_eq in E1. apply Z.eqb_neq in E2.
    replace (key a =? k') with false
      by (symmetry; apply Z.eqb_neq; congruence).
    reflexivity.
  - rewrite IH. destruct (k' =? k) eqn:E2.
    + apply Z.eqb_eq in E2. subst k'. now rewrite E1.
    + reflexivity.
Qed.

Lemma NoDup_map_filter {A : Type} (key : A -> Z) (p : A -> bool)
  (l : list A) :
  NoDup (map key l) -> NoDup (map key (filter p l)).
Proof.
  induction l as [| a l IH]; cbn; intros Hnd; [constructor |].
  inversion Hnd as [| x xs Hnot Hnd']; subst.
  destruct (p a); cbn; [constructor |]; auto.
  intros H. apply Hnot. apply in_map_iff in H.
  destruct H as (b & <- & Hb). apply filter_In in Hb.
  apply in_map. tauto.
Qed.

Lemma Forall_filter_keep {A : Type} (P : A -> Prop) (p : A -> bool)
  (l : list A) :
  Forall P l -> Forall P (filter p l).
Proof.
  rewrite !Forall_forall. intros H a Ha. apply filter_In in Ha.
  apply H. tauto.
Qed.

Lemma filter_filter_length {A : Type} (p q : A -> bool) (l : list A) :
  (List.length (filter p (filter q l)) <= List.length (filter p l))%nat.
Proof.
  induction l as [| a l IH]; cbn; [lia |].
  destruct (q a) eqn:Eq; cbn; destruct (p a) eqn:Ep; cbn; lia.
Qed.

(** X16.  Deleting a monitor.  When the caller owns the monitor,
    [delete_monitor] returns; afterwards the key answers 404 to everyone,
    no health check and no incident of the monitor is left, the health
    checks, incidents and readability of every other monitor are as
    before, and the tables are still well formed (unique keys, at most one
    open incident per monitor). *)
Theorem delete_monitor_cascades (st : Store) (k : Z) (u : User.t)
  (m : APIMonitor.t) :
  monitors_unique st ->
  get_monitor st k u = Ok m ->
  exists st',
    delete_monitor st k u = Ok st'
    /\ (forall v,
          get_monitor st' k v = Raise (HTTPException 404 "Monitor not found"))
    /\ health_checks_of (tables st') k = []
    /\ incidents_of (tables st') k = []
    /\ (forall k',
          k' <> k ->
          health_checks_of (tables st') k' = health_checks_of (tables st) k'
          /\ incidents_of (tables st') k' = incidents_of (tables st) k'
          /\ forall v m',
               get_monitor st k' v = Ok m' -> get_monitor st' k' v = Ok m')
    /\ monitors_unique st'
    /\ (incidents_ok (tables st) -> incidents_ok (tables st')).
Proof.
  intros (Hnd & Hlt) Hget.
  unfold delete_monitor. rewrite Hget. cbn [bind].
  apply get_monitor_inv in Hget. destruct Hget as (Hin & Hk & Hu).
  rewrite Hk. eexists. split; [reflexivity |].
  assert (Hnd' : NoDup (map APIMonitor.id
                          (filter (fun m0 => negb (APIMonitor.id m0 =? k))
                             (api_monitors (tables st)))))
    by now apply NoDup_map_filter.
  split; [| split; [| split; [| split; [| split]]]].
  - intros v. apply get_monitor_missing. cbn. intros m0 Hm0 Hid.
    apply filter_In in Hm0. destruct Hm0 as (_ & Hm0).
    rewrite Hid, Z.eqb_refl in Hm0. discriminate Hm0.
  - unfold health_checks_of. cbn.
    rewrite (filter_out_then_select HealthCheck.monitor_id k k).
    now rewrite Z.eqb_refl.
  - unfold incidents_of. cbn.
    rewrite (filter_out_then_select Incident.monitor_id k k).
    now rewrite Z.eqb_refl.
  - intros k' Hne. apply Z.eqb_neq in Hne.
    unfold health_checks_of, incidents_of. cbn.
    rewrite (filter_out_then_select HealthCheck.monitor_id k k'),
      (filter_out_then_select Incident.monitor_id k k'), Hne.
    split; [reflexivity | split; [reflexivity |]].
    intros v m' Hget'. apply get_monitor_inv in Hget'.
    destruct Hget' as (Hin' & <- & Hv).
    apply get_monitor_found; [exact Hnd' | | exact Hv].
    cbn. apply filter_In. split; [exact Hin' |]. now rewrite Hne.
  - split; [exact Hnd' |]. cbn. now apply Forall_filter_keep.
  - intros ((Hi1 & Hi2) & Hone & Hdur). repeat split; cbn.
    + now apply NoDup_map_filter.
    + now apply Forall_filter_keep.
    + intros k'. unfold open_incidents. cbn.
      eapply Nat.le_trans; [apply filter_filter_length | apply Hone].
    + now apply Forall_filter_keep.
Qed.

(** Alice deletes her monitor; its key then answers 404 to her too. *)
Lemma delete_monitor_cascades_witness :
  exists st',
    delete_monitor alice_store 1 alice = Ok st'
    /\ get_monitor st' 1 alice
       = Raise (HTTPException 404 "Monitor not found").
Proof.
  destruct (delete_monitor_cascades alice_store 1 alice alice_monitor
              alice_store_unique eq_refl)
    as (st' & H & Hgone & _).
  exists st'. split; [exact H | apply Hgone].
Defined.

Lemma set_required_ok {A : Type} (column : string) (f : field A)
  (old a : A) :
  set_required column f old = Ok a ->
  is_null f = false /\ a = field_or f old.
Proof.
  destruct f; cbn; intros H; try discriminate H;
    injection H as <-; auto.
Qed.

Lemma set_required_not_null {A : Type} (column : string) (f : field A)
  (old : A) :
  is_null f = false -> set_required column f old = Ok (field_or f old).
Proof. destruct f; cbn; intros H; try discriminate H; reflexivity. Qed.

Lemma replace_monitor_ids (m : APIMonitor.t) (rows : list APIMonitor.t) :
  map APIMonitor.id (replace_monitor m rows) = map APIMonitor.id rows.
Proof.
  induction rows as [| r rows IH]; cbn; [reflexivity |].
  f_equal; [| exact IH].
  destruct (APIMonitor.id r =? APIMonitor.id m) eqn:E; [| reflexivity].
  apply Z.eqb_eq in E. congruence.
Qed.

Lemma replace_monitor_In (m old : APIMonitor.t) (rows : list APIMonitor.t) :
  In old rows ->
  APIMonitor.id old = APIMonitor.id m ->
  In m (replace_monitor m rows).
Proof.
  intros Hin E. unfold replace_monitor. apply in_map_iff.
  exists old. split; [| exact Hin]. now rewrite E, Z.eqb_refl.
Qed.

Lemma replace_monitor_other (m r : APIMonitor.t) (rows : list APIMonitor.t) :
  In r rows ->
  APIMonitor.id r <> APIMonitor.id m ->
  In r (replace_monitor m rows).
Proof.
  intros Hin Hne. unfold replace_monitor. apply in_map_iff.
  exists r. split; [| exact Hin].
  apply Z.eqb_neq in Hne. now rewrite Hne.
Qed.

Lemma replace_monitor_Forall (P : APIMonitor.t -> Prop) (m : APIMonitor.t)
  (rows : list APIMonitor.t) :
  P m -> Forall P rows -> Forall P (replace_monitor m rows).
Proof.
  intros Hm H. induction H as [| r rows Hr _ IH]; cbn; constructor.
  - destruct (APIMonitor.id r =? APIMonitor.id m); assumption.
  - exact IH.
Qed.

Lemma MonitorUpdate_accepted (d : MonitorUpdate.t) :
  MonitorUpdate_errors d = [] ->
  field_ok name_ok (MonitorUpdate.name d) = true
  /\ field_ok (in_range 100 599) (MonitorUpdate.expected_status d) = true
  /\ field_ok (in_range 10 3600) (MonitorUpdate.check_interval d) = true
  /\ field_ok (in_range 1 60) (MonitorUpdate.timeout d) = true.
Proof.
  unfold MonitorUpdate_errors.
  destruct (field_ok name_ok _), (field_ok (in_range 100 599) _),
    (field_ok (in_range 10 3600) _), (field_ok (in_range 1 60) _);
    cbn; intros H; try discriminate H; auto.
Qed.

(** A bounded column stays within its bound. *)
Lemma field_or_in_range (lo hi : Z) (f : field Z) (old : Z) :
  field_ok (in_range lo hi) f = true ->
  lo <= old <= hi ->
  lo <= field_or f old <= hi.
Proof.
  destruct f; cbn; intros H Hold; try exact Hold.
  now apply in_range_spec.
Qed.

(** An update that returned had no [null] for a required column. *)
Lemma update_monitor_no_nulls (st : Store) (k : Z) (d : MonitorUpdate.t)
  (u : User.t) (m : APIMonitor.t) (st' : Store) (m' : APIMonitor.t) :
  get_monitor st k u = Ok m ->
  update_monitor st k d u = Ok (st', m') ->
  nulls_required d = false.
Proof.
  intros Hget. unfold update_monitor. rewrite Hget. cbn [bind].
  destruct (set_required "name" _ _) as [x1 |] eqn:E1; [| discriminate].
  destruct (set_required "url" _ _) as [x2 |] eqn:E2; [| discriminate].
  destruct (set_required "method" _ _) as [x3 |] eqn:E3; [| discriminate].
  destruct (set_required "expected_status" _ _) as [x4 |] eqn:E4;
    [| discriminate].
  destruct (set_required "check_interval" _ _) as [x5 |] eqn:E5;
    [| discriminate].
  destruct (set_required "timeout" _ _) as [x6 |] eqn:E6; [| discriminate].
  destruct (set_required "is_active" _ _) as [x7 |] eqn:E7; [| discriminate].
  intros _.
  apply set_required_ok in E1, E2, E3, E4, E5, E6, E7.
  destruct E1 as (N1 & _), E2 as (N2 & _), E3 as (N3 & _),
    E4 as (N4 & _), E5 as (N5 & _), E6 as (N6 & _), E7 as (N7 & _).
  unfold nulls_required. now rewrite N1, N2, N3, N4, N5, N6, N7.
Qed.

(** A body without [null] for a required column reaches the commit with
    each column set as the body says. *)
Lemma update_monitor_commit (st : Store) (k : Z) (d : MonitorUpdate.t)
  (u : User.t) (m : APIMonitor.t) :
  get_monitor st k u = Ok m ->
  nulls_required d = false ->
  exists m',
    m' = {| APIMonitor.id := APIMonitor.id m;
            APIMonitor.user_id := APIMonitor.user_id m;
            APIMonitor.name :=
              field_or (MonitorUpdate.name d) (APIMonitor.name m);
            APIMonitor.url :=
              field_or (MonitorUpdate.url d) (APIMonitor.url m);
            APIMonitor.method :=
              field_or (MonitorUpdate.method d) (APIMonitor.method m);
            APIMonitor.headers :=
              set_nullable (MonitorUpdate.headers d) (APIMonitor.headers m);
            APIMonitor.expected_status :=
              field_or (MonitorUpdate.expected_status d)
                (APIMonitor.expected_status m);
            APIMonitor.check_interval :=
              field_or (MonitorUpdate.check_interval d)
                (APIMonitor.check_interval m);
            APIMonitor.timeout :=
              field_or (MonitorUpdate.timeout d) (APIMonitor.timeout m);
            APIMonitor.is_active :=
              field_or (MonitorUpdate.is_active d)
                (APIMonitor.is_active m) |}
    /\ update_monitor st k d u
       = if monitor_columns_ok (store_backend st) m'
         then Ok ({| tables :=
                       with_monitors (tables st)
                         (replace_monitor m' (api_monitors (tables st)));
                     api_monitors_seq := api_monitors_seq st;
                     store_backend := store_backend st |},
                  m')
         else Raise commit_refused.
Proof.
  intros Hget Hn. unfold nulls_required in Hn.
  repeat (apply orb_false_elim in Hn; destruct Hn as (Hn & ?)).
  eexists. split; [reflexivity |].
  unfold update_monitor. rewrite Hget. cbn [bind].
  rewrite !set_required_not_null by assumption. cbn [bind].
  reflexivity.
Qed.

(** X17.  Updating a monitor the caller owns.  A body that gives [null]
    to a required column (any but [headers]) is not stopped by the schema
    and fails at the commit: the call raises and nothing is written.  So
    does, on a backend that checks its texts, a body that leaves the
    monitor with a name of more than 255 characters, a url of more than
    2048 (the schema does not bound the url), or a NUL in either.  Any
    other body is carried out: each column takes the value the body gives
    it and keeps its own where the body is silent ([headers] may also be
    set to null); the key and the owner never change; the owner reads the
    updated monitor back; every other monitor reads as before; keys stay
    unique; and if the body passes the schema and the monitor was within
    the schema's bounds, it still is. *)
Theorem update_monitor_fields (st : Store) (k : Z) (d : MonitorUpdate.t)
  (u : User.t) (m : APIMonitor.t) :
  monitors_unique st ->
  get_monitor st k u = Ok m ->
  (nulls_required d = true ->
   exists e, update_monitor st k d u = Raise e)
  /\ (nulls_required d = false ->
      enforces_text (store_backend st) = true ->
      (255 < str_len (field_or (MonitorUpdate.name d) (APIMonitor.name m)))%nat
      \/ has_nul (field_or (MonitorUpdate.name d) (APIMonitor.name m)) = true
      \/ (2048
          < str_len (field_or (MonitorUpdate.url d) (APIMonitor.url m)))%nat
      \/ has_nul (field_or (MonitorUpdate.url d) (APIMonitor.url m)) = true ->
      update_monitor st k d u = Raise commit_refused)
  /\ (nulls_required d = false ->
      enforces_text (store_backend st) = false
      \/ (((str_len (field_or (MonitorUpdate.name d) (APIMonitor.name m))
            <= 255)%nat
           /\ has_nul (field_or (MonitorUpdate.name d) (APIMonitor.name m))
              = false)
          /\ (str_len (field_or (MonitorUpdate.url d) (APIMonitor.url m))
              <= 2048)%nat
          /\ has_nul (field_or (MonitorUpdate.url d) (APIMonitor.url m))
             = false) ->
      exists st' m',
        update_monitor st k d u = Ok (st', m')
        /\ APIMonitor.id m' = k
        /\ APIMonitor.user_id m' = APIMonitor.user_id m
        /\ APIMonitor.name m'
           = field_or (MonitorUpdate.name d) (APIMonitor.name m)
        /\ APIMonitor.url m'
           = field_or (MonitorUpdate.url d) (APIMonitor.url m)
        /\ APIMonitor.method m'
           = field_or (MonitorUpdate.method d) (APIMonitor.method m)
        /\ APIMonitor.headers m'
           = set_nullable (MonitorUpdate.headers d) (APIMonitor.headers m)
        /\ APIMonitor.expected_status m'
           = field_or (MonitorUpdate.expected_status d)
               (APIMonitor.expected_status m)
        /\ APIMonitor.check_interval m'
           = field_or (MonitorUpdate.check_interval d)
               (APIMonitor.check_interval m)
        /\ APIMonitor.timeout m'
           = field_or (MonitorUpdate.timeout d) (APIMonitor.timeout m)
        /\ APIMonitor.is_active m'
           = field_or (MonitorUpdate.is_active d) (APIMonitor.is_active m)
        /\ get_monitor st' k u = Ok m'
        /\ (forall k' v m0,
              k' <> k ->
              get_monitor st k' v = Ok m0 -> get_monitor st' k' v = Ok m0)
        /\ monitors_unique st'
        /\ (MonitorUpdate_errors d = [] ->
            within_schema m -> within_schema m')).
Proof.
  intros (Hnd & Hlt) Hget. split; [| split].
  - intros Hn.
    destruct (update_monitor st k d u) as [[st' m'] | e] eqn:E.
    + pose proof (update_monitor_no_nulls st k d u m st' m' Hget E).
      congruence.
    + now exists e.
  - intros Hn Hen Hbad.
    destruct (update_monitor_commit st k d u m Hget Hn) as (m' & Hm' & ->).
    destruct (monitor_columns_ok (store_backend st) m') eqn:C; [| reflexivity].
    apply monitor_columns_ok_iff in C. subst m'. cbn in C.
    destruct C as [C | ((C1 & C2) & C3 & C4)]; [congruence |].
    destruct Hbad as [Hbad | [Hbad | [Hbad | Hbad]]];
      [lia | congruence | lia | congruence].
  - intros Hn Hcols.
    destruct (update_monitor_commit st k d u m Hget Hn) as (m' & Hm' & E).
    assert (C : monitor_columns_ok (store_backend st) m' = true).
    { apply monitor_columns_ok_iff. subst m'. cbn. exact Hcols. }
    rewrite C in E.
    eexists _, m'. split; [exact E |].
    destruct (get_monitor_inv st k u m Hget) as (Hin & Hk & Hu).
    assert (Hid : APIMonitor.id m' = APIMonitor.id m) by (now subst m').
    assert (Huser : APIMonitor.user_id m' = APIMonitor.user_id m)
      by (now subst m').
    assert (Hnd' : NoDup (map APIMonitor.id
                            (replace_monitor m' (api_monitors (tables st)))))
      by now rewrite replace_monitor_ids.
    split; [congruence |]. split; [exact Huser |].
    do 8 (split; [subst m'; reflexivity |]).
    split; [| split; [| split]].
    + rewrite <- Hk, <- Hid.
      apply get_monitor_found; [exact Hnd' | | congruence].
      cbn. apply (replace_monitor_In m' m); [exact Hin |].
      now symmetry.
    + intros k' v m0 Hne Hget0. apply get_monitor_inv in Hget0.
      destruct Hget0 as (Hin0 & <- & Hv).
      apply get_monitor_found; [exact Hnd' | | exact Hv].
      cbn. apply replace_monitor_other; [exact Hin0 |]. congruence.
    + split; [exact Hnd' |]. cbn.
      apply replace_monitor_Forall; [| exact Hlt].
      rewrite Forall_forall in Hlt. rewrite Hid. now apply Hlt.
    + intros Hacc (Hw1 & Hw2 & Hw3 & Hw4).
      destruct (MonitorUpdate_accepted d Hacc) as (A1 & A2 & A3 & A4).
      subst m'. unfold within_schema. cbn.
      split; [| split; [| split]].
      * destruct (MonitorUpdate.name d) as [| | v]; cbn in *; try exact Hw1.
        unfold name_ok in A1. now apply in_range_spec.
      * now apply field_or_in_range.
      * now apply field_or_in_range.
      * now apply field_or_in_range.
Qed.

(** Alice pauses her monitor; a [null] name is refused at the commit. *)
Lemma update_monitor_fields_witness :
  (exists st' m',
     update_monitor alice_store 1 pause_update alice = Ok (st', m')
     /\ APIMonitor.timeout m' = 5
     /\ APIMonitor.is_active m' = false
     /\ APIMonitor.headers m' = None
     /\ APIMonitor.name m' = "Production API")
  /\ exists e, update_monitor alice_store 1 null_name_update alice = Raise e.
Proof.
  split.
  - destruct (proj2 (proj2 (update_monitor_fields alice_store 1 pause_update
                              alice _ alice_store_unique eq_refl))
                eq_refl (or_introl eq_refl))
      as (st' & m' & H & _ & _ & Hname & _ & _ & Hh & _ & _ & Ht & Ha & _).
    exists st', m'.
    split; [exact H | split; [exact Ht | split; [exact Ha | split]]];
      assumption.
  - exact (proj1 (update_monitor_fields alice_store 1 null_name_update alice
                    _ alice_store_unique eq_refl) eq_refl).
Defined.

(* ================================================================== *)
(** * Reading incidents *)

Lemma insert_desc_In (i x : Incident.t) (l : list Incident.t) :
  In x (insert_desc i l) <-> x = i \/ In x l.
Proof.
  induction l as [| j l IH]; cbn.
  - intuition congruence.
  - destruct (Incident.started_at j <? Incident.started_at i); cbn.
    + intuition congruence.
    + rewrite IH. intuition congruence.
Qed.

Lemma order_by_In (x : Incident.t) (l : list Incident.t) :
  In x (order_by_started_at_desc l) <-> In x l.
Proof.
  induction l as [| i l IH]; cbn; [tauto |].
  rewrite insert_desc_In, IH. intuition congruence.
Qed.

Lemma firstn_incl {A : Type} (n : nat) :
  forall (l : list A) (x : A), In x (firstn n l) -> In x l.
Proof.
  induction n as [| n IH]; intros l x H; [contradiction |].
  destruct l as [| a l]; [contradiction |]. cbn in H.
  destruct H as [<- | H]; [now left | right; now apply IH].
Qed.

Lemma skipn_incl {A : Type} (n : nat) :
  forall (l : list A) (x : A), In x (skipn n l) -> In x l.
Proof.
  induction n as [| n IH]; intros l x H; [exact H |].
  destruct l as [| a l]; [contradiction |]. right. now apply IH.
Qed.

Lemma insert_desc_sorted (i : Incident.t) (l : list Incident.t) :
  newest_first l -> newest_first (insert_desc i l).
Proof.
  induction l as [| j l IH]; cbn.
  - intros _. split; [intros b [] | exact I].
  - intros (Hall & Hs).
    destruct (Incident.started_at j <? Incident.started_at i) eqn:E.
    + apply Z.ltb_lt in E. cbn. split; [| split; assumption].
      intros b [<- | Hb]; [lia |]. specialize (Hall b Hb). lia.
    + apply Z.ltb_ge in E. cbn. split; [| now apply IH].
      intros b Hb. apply insert_desc_In in Hb.
      destruct Hb as [-> | Hb]; [exact E | now apply Hall].
Qed.

Lemma order_by_sorted (l : list Incident.t) :
  newest_first (order_by_started_at_desc l).
Proof.
  induction l as [| i l IH]; cbn; [exact I | now apply insert_desc_sorted].
Qed.

Lemma skipn_sorted (n : nat) :
  forall l, newest_first l -> newest_first (skipn n l).
Proof.
  induction n as [| n IH]; intros l H; [exact H |].
  destruct l as [| a l]; [exact I |]. cbn [skipn]. apply IH.
  exact (proj2 H).
Qed.

Lemma firstn_sorted (n : nat) :
  forall l, newest_first l -> newest_first (firstn n l).
Proof.
  induction n as [| n IH]; intros l H; [exact I |].
  destruct l as [| a l]; [exact I |]. cbn [firstn newest_first].
  destruct H as (Hall & Hs). split; [| now apply IH].
  intros b Hb. apply Hall. eapply firstn_incl, Hb.
Qed.

Lemma page_In (n k : nat) (x : Incident.t) (l : list Incident.t) :
  In x (firstn n (skipn k l)) -> In x l.
Proof.
  intros H. eapply skipn_incl, firstn_incl, H.
Qed.

(** X18.  Reading the incidents of a monitor.  [get_incidents] fails with
    what the access check raises (404 for a monitor that is not the
    caller's).  For the owner and [skip >= 0], [1 <= limit <= 200] it
    returns: as total the number of the monitor's incidents (the open ones
    only with [ongoing_only]), whatever the page asked for; a page of
    exactly min(limit, max(total - skip, 0)) incidents, so never more than
    [limit] and empty beyond the end; every incident of the page is in the
    table, belongs to the monitor, and is open when [ongoing_only]; and the
    page is ordered most recent start first. *)
Theorem get_incidents_page (st : Store) (k : Z) (u : User.t)
  (skip limit : Z) (ongoing_only : bool) :
  (forall e,
     verify_monitor_access st k u = Raise e ->
     get_incidents st k u skip limit ongoing_only = Raise e)
  /\ (forall m,
        verify_monitor_access st k u = Ok m ->
        0 <= skip ->
        1 <= limit <= 200 ->
        exists page,
          get_incidents st k u skip limit ongoing_only
          = Ok (Z.of_nat
                  (List.length
                     (filter (incident_matches k ongoing_only)
                        (incidents (tables st)))),
                page)
          /\ Z.of_nat (List.length page)
             = Z.min limit
                 (Z.max 0
                    (Z.of_nat
                       (List.length
                          (filter (incident_matches k ongoing_only)
                             (incidents (tables st))))
                     - skip))
          /\ (forall i,
                In i page ->
                In i (incidents (tables st))
                /\ Incident.monitor_id i = k
                /\ (ongoing_only = true -> Incident.resolved_at i = None))
          /\ newest_first page).
Proof.
  split.
  - intros e He. unfold get_incidents. now rewrite He.
  - intros m Hm Hskip Hlimit. unfold get_incidents. rewrite Hm. cbn [bind].
    eexists. split; [reflexivity |]. split; [| split].
    + rewrite length_firstn, length_skipn, order_by_length. lia.
    + intros i Hi. apply page_In, order_by_In, filter_In in Hi.
      destruct Hi as (Hin & Hmatch). unfold incident_matches in Hmatch.
      apply andb_prop in Hmatch. destruct Hmatch as (H1 & H2).
      apply Z.eqb_eq in H1. repeat split; try assumption.
      intros ->. unfold Incident.is_ongoing in H2.
      destruct (Incident.resolved_at i); [discriminate | reflexivity].
    + apply firstn_sorted, skipn_sorted, order_by_sorted.
Qed.

(** Alice's monitor has been down twice; the first page of one shows the
    later outage, still open. *)
Lemma get_incidents_page_witness :
  exists page,
    get_incidents alice_history 1 alice 0 1 false = Ok (2, page)
    /\ Z.of_nat (List.length page) = 1
    /\ newest_first page.
Proof.
  destruct (proj2 (get_incidents_page alice_history 1 alice 0 1 false)
              _ eq_refl ltac:(lia) ltac:(lia))
    as (page & H & Hlen & _ & Hsorted).
  exists page. split; [exact H | split; [exact Hlen | exact Hsorted]].
Defined.

(** X19.  The tracker's invariant as the API shows it: on a store whose
    incidents table is well formed, the owner asking for the open
    incidents of a monitor is told of none or of one, and gets at most
    that one incident. *)
Theorem get_incidents_ongoing_at_most_one (st : Store) (k : Z) (u : User.t)
  (m : APIMonitor.t) (skip limit : Z) :
  incidents_ok (tables st) ->
  verify_monitor_access st k u = Ok m ->
  exists total page,
    get_incidents st k u skip limit true = Ok (total, page)
    /\ (total = 0 \/ total = 1)
    /\ (List.length page <= 1)%nat.
Proof.
  intros (_ & Hone & _) Hm. unfold get_incidents. rewrite Hm. cbn [bind].
  eexists _, _. split; [reflexivity |].
  assert (E : filter (incident_matches k true) (incidents (tables st))
              = open_incidents (tables st) k) by reflexivity.
  rewrite E. specialize (Hone k). split; [lia |].
  rewrite length_firstn, length_skipn, order_by_length. lia.
Qed.

(** Alice's monitor is down: one open incident. *)
Lemma get_incidents_ongoing_at_most_one_witness :
  exists total page,
    get_incidents alice_history 1 alice 0 50 true = Ok (total, page)
    /\ (total = 0 \/ total = 1)
    /\ (List.length page <= 1)%nat.
Proof.
  apply (get_incidents_ongoing_at_most_one alice_history 1 alice
           alice_monitor).
  - apply run_ok, empty_db_ok.
  - reflexivity.
Defined.

(* ================================================================== *)
(** * The shape of a check result *)

(** X20.  Every result of [check_api] is of one of three shapes.  It has a
    status code exactly when it has a response time, and exactly when the
    request (the monitor's method, url and headers, the timeout
    [httpx.Timeout(monitor.timeout, connect=5.0)]) returned a response; it
    is up exactly when it carries no error message; a response carries its
    status code into the result, and when that is another status than
    expected, the message is "Expected status E, got S". *)
Theorem check_result_shape (client : Client) (monitor : APIMonitor.t)
  (t0 t1 : Z) :
  exists r,
    check_api client monitor t0 t1 = Ok r
    /\ (is_up r = true <-> error_message r = None)
    /\ (status_code r = None <-> response_time r = None)
    /\ (status_code r = None <->
        exists e,
          client (HTTPMethod_value (APIMonitor.method monitor))
            (APIMonitor.url monitor)
            (match APIMonitor.headers monitor with
             | Some h => h
             | None => []
             end)
            {| httpx.connect := 5;
               httpx.read := APIMonitor.timeout monitor;
               httpx.write := APIMonitor.timeout monitor;
               httpx.pool := APIMonitor.timeout monitor |} = Raise e)
    /\ (forall resp,
          client (HTTPMethod_value (APIMonitor.method monitor))
            (APIMonitor.url monitor)
            (match APIMonitor.headers monitor with
             | Some h => h
             | None => []
             end)
            {| httpx.connect := 5;
               httpx.read := APIMonitor.timeout monitor;
               httpx.write := APIMonitor.timeout monitor;
               httpx.pool := APIMonitor.timeout monitor |} = Ok resp ->
          status_code r = Some (resp_status_code resp)
          /\ (resp_status_code resp <> APIMonitor.expected_status monitor ->
              error_message r
              = Some ("Expected status "
                      ++ str_int (APIMonitor.expected_status monitor)
                      ++ ", got " ++ str_int (resp_status_code resp)))).
Proof.
  destruct (client (HTTPMethod_value (APIMonitor.method monitor))
              (APIMonitor.url monitor)
              (match APIMonitor.headers monitor with
               | Some h => h
               | None => []
               end)
              {| httpx.connect := 5;
                 httpx.read := APIMonitor.timeout monitor;
                 httpx.write := APIMonitor.timeout monitor;
                 httpx.pool := APIMonitor.timeout monitor |})
    as [resp | e] eqn:Hreq.
  - rewrite (check_api_responded client monitor t0 t1 resp Hreq).
    eexists. split; [reflexivity |]. cbn.
    destruct (resp_status_code resp =? APIMonitor.expected_status monitor)
      eqn:E; cbn.
    + apply Z.eqb_eq in E.
      split; [tauto |]. split; [split; discriminate |].
      split; [split; [discriminate | intros (e & He); discriminate He] |].
      intros resp' H. injection H as <-. split; [reflexivity | congruence].
    + split; [split; discriminate |]. split; [split; discriminate |].
      split; [split; [discriminate | intros (e & He); discriminate He] |].
      intros resp' H. injection H as <-. split; reflexivity.
  - rewrite (check_api_raised client monitor t0 t1 e Hreq).
    destruct (check_api_except_returns monitor
                {| status_code := None; response_time := None;
                   is_up := false; error_message := None |} e)
      as (msg & -> & _).
    eexists. split; [reflexivity |]. cbn.
    split; [split; discriminate |]. split; [tauto |].
    split; [split; [intros _; now exists e | reflexivity] |].
    intros resp H. discriminate H.
Qed.

(** A 500 where 200 was expected. *)
Lemma check_result_shape_witness :
  exists r,
    check_api (client_status 500) (sample_monitor 10) 0 123456 = Ok r
    /\ status_code r = Some 500
    /\ error_message r = Some "Expected status 200, got 500".
Proof.
  destruct (check_result_shape (client_status 500) (sample_monitor 10)
              0 123456) as (r & Hr & _ & _ & _ & Hmsg).
  exists r. split; [exact Hr |].
  destruct (Hmsg {| resp_status_code := 500 |} eq_refl) as (Hcode & Herr).
  split; [exact Hcode | apply Herr; cbn; lia].
Defined.
